(** * Latency probes over UDP and TCP: a shallow embedding of the four programs

    The repository holds a UDP acknowledgment server with two loss models
    ([A3.py]), the UDP probe client that reconciles acknowledgments with
    sequence numbers ([A3_Client.py]), a TCP echo server ([A3_TCP.py]) and
    the TCP probe client ([A3_TCP_Client.py]).

    Modelling conventions, used throughout:
    - a Python [float] is a rational [Q], the exact value of the float:
      clock readings and the numbers in messages are supplied as such, and
      sums, differences and products of them are exact. Where a program
      turns an exact value into a float, the nearest binary64 number is
      taken ([b64], ties to even): a quotient, [float(s)]
      of a decimal string, an [int] operand of float arithmetic, the
      results of [statistics.mean] and [statistics.median], and a number
      of seconds turned into nanoseconds. Rounding by [round(x, d)] and by
      the format specifications [.3f] and [.6f] is round-half-even at [d]
      decimals of the exact value ([round_dec]), and a float in a printed
      summary is given by the decimal that is printed. Not-a-number,
      infinities and the sign of zero are not represented;
    - a Python [int] is a [Z];
    - a [dict] keyed by sequence numbers is a [gmap Z _], a [set] is a
      [gset Z];
    - a payload received by the UDP programs or by the TCP client is the
      result of decoding it and of [json.loads]: [None] when either
      raises, [Some j] for the JSON value otherwise. The TCP server reads
      decoded lines from an iterator; there the decoding is the
      iterator's, outside every [try], and [None] stands for a decoded
      line that [json.loads] refuses;
    - clocks, the network and the operator are the environment: every
      reading of [time.time()] and [time.perf_counter()] and every result
      of a socket call is supplied by a script, in the order in which the
      program asks for it;
    - an exception that the program does not catch ends the run
      ([Crashed]). *)

From Stdlib Require Import ZArith QArith Qround Qpower Qabs List String DecimalString
  Lia Lqa.
From Stdlib Require Qcanon.
From stdpp Require Import gmap strings pretty.

Set Warnings "-register-all".
Open Scope Z_scope.

(** ** Python built-ins the programs rely on *)

Module Py.

(** JSON values as [json.loads] returns them. An object is the list of its
    items; [dict_get] reads the first item with the key. *)
Inductive json : Type :=
| JNull
| JBool (b : bool)
| JInt (z : Z)
| JFloat (q : Q)
| JStr (s : string)
| JArr (l : list json)
| JObj (items : list (string * json)).

Fixpoint assoc (k : string) (items : list (string * json)) : option json :=
  match items with
  | [] => None
  | (k', v) :: rest => if String.eqb k k' then Some v else assoc k rest
  end.

(** [d.get(k)] and [d.get(k, default)]: an [AttributeError] ([None]) when
    the value is not a dict, the default when the key is missing. *)
Definition dict_get_default (j : json) (k : string) (default : json) : option json :=
  match j with
  | JObj items =>
      match assoc k items with
      | Some v => Some v
      | None => Some default
      end
  | _ => None
  end.

Definition dict_get (j : json) (k : string) : option json :=
  dict_get_default j k JNull.

(** The value printed under a key of a summary object, if the key is
    there. *)
Definition field (k : string) (j : json) : option json :=
  match j with
  | JObj items => assoc k items
  | _ => None
  end.

(** [int(s)] for a string is the interpreter's own parser. *)
Class Builtins := { int_of_str : string -> option Z }.

(** Truncation towards zero, as [int(x)] does for a float. *)
Definition Qtrunc (q : Q) : Z := Z.quot (Qnum q) (Zpos (Qden q)).

(** [int(v)]: [None] stands for the [TypeError] or [ValueError]. *)
Definition int `{Builtins} (v : json) : option Z :=
  match v with
  | JNull => None
  | JBool b => Some (if b then 1 else 0)
  | JInt z => Some z
  | JFloat q => Some (Qtrunc q)
  | JStr s => int_of_str s
  | JArr _ => None
  | JObj _ => None
  end.

(** [range(a, b)] *)
Definition range (a b : Z) : list Z :=
  map (fun i => a + Z.of_nat i) (seq 0 (Z.to_nat (b - a))).

Definition Qltb (x y : Q) : bool := negb (Qle_bool y x).

(** Round half to even, first to an integer and then at [d] decimals. *)
Definition round_half_even (x : Q) : Z :=
  let f := Qfloor x in
  match Qcompare (x - inject_Z f) (1 # 2) with
  | Lt => f
  | Gt => f + 1
  | Eq => if Z.even f then f else f + 1
  end.

Definition round_dec (d : nat) (x : Q) : Q :=
  Qred (inject_Z (round_half_even (x * inject_Z (10 ^ Z.of_nat d)))
        / inject_Z (10 ^ Z.of_nat d)).

(** Binary64. [Qlog2 x] is the integer part of the binary logarithm of a
    positive [x]; [ulp_exp x] is the exponent of the last binary digit that
    a binary64 number near [x] keeps (53 digits, no exponent below -1074);
    [b64 x] is the binary64 number nearest to [x], ties to even. Numbers
    of 2^1024 and more, which a float cannot hold, are rounded in the same
    way. *)
Definition Qlog2 (x : Q) : Z :=
  let k := Z.log2 (Qnum x) - Z.log2 (Zpos (Qden x)) in
  if Qle_bool (2 ^ k) x then k else k - 1.

Definition ulp_exp (x : Q) : Z := Z.max (-1074) (Qlog2 (Qabs x) - 52).

Definition nearest (x : Q) : Q :=
  let e := ulp_exp x in inject_Z (round_half_even (x / 2 ^ e)) * 2 ^ e.

Definition b64 (x : Q) : Q := Qred (nearest (Qred x)).

(** [x] is a binary64 number. *)
Definition is_b64 (x : Q) : Prop := (b64 x == x)%Q.

(** A number of seconds handed to [time.sleep] or to [sock.settimeout]
    is turned into nanoseconds held in 64 bits: the float [d * 1e9],
    rounded away from zero to an integer. A negative duration is refused
    with [ValueError]; one of 2^63 nanoseconds or more with
    [OverflowError] ([ValueError] at 2^63 itself). The floats from 2^53 on
    are integers, so that the rounding to an integer does not enter the
    comparison with 2^63. *)
Definition accepts_seconds (d : Q) : bool :=
  Qle_bool 0 d && negb (Qle_bool (2 ^ 63) (b64 (d * 10 ^ 9)))%Q.

(** A value used as a number in float arithmetic; [None] is the
    [TypeError], or the [OverflowError] for an [int] too large to convert
    to a float. *)
Definition to_float (v : json) : option Q :=
  match v with
  | JBool b => Some (if b then 1 else 0)%Q
  | JInt z =>
      let x := b64 (inject_Z z) in
      if Qle_bool (2 ^ 1024) (Qabs x) then None else Some x
  | JFloat q => Some q
  | _ => None
  end.

(** [statistics.mean], [min], [max] and [statistics.median] on a
    non-empty list of floats (the programs guard every call by
    [if rtts]). The mean is the exact mean turned into a float; the median
    of an even number of values is computed by a float sum and a float
    division. *)
Definition Qsum (l : list Q) : Q := fold_right Qplus 0%Q l.

Definition mean (l : list Q) : Q :=
  b64 (Qsum l / inject_Z (Z.of_nat (length l))).

Definition Qmin' (x y : Q) : Q := if Qle_bool x y then x else y.
Definition Qmax' (x y : Q) : Q := if Qle_bool x y then y else x.

Definition min_list (l : list Q) : Q :=
  match l with
  | [] => 0%Q
  | x :: rest => fold_left Qmin' rest x
  end.

Definition max_list (l : list Q) : Q :=
  match l with
  | [] => 0%Q
  | x :: rest => fold_left Qmax' rest x
  end.

Fixpoint insert_sorted (x : Q) (l : list Q) : list Q :=
  match l with
  | [] => [x]
  | y :: rest => if Qle_bool x y then x :: l else y :: insert_sorted x rest
  end.

Definition sorted (l : list Q) : list Q := fold_right insert_sorted [] l.

Definition median (l : list Q) : Q :=
  let s := sorted l in
  let n := length s in
  if Nat.even n
  then b64 (b64 (nth (n / 2 - 1) s 0%Q + nth (n / 2) s 0%Q) / 2)
  else nth (n / 2) s 0%Q.

End Py.

Import Py.

(** ** [A3_Client.py]: the UDP probe client *)

Module A3_Client.

Inductive outcome : Type := ACKED | TIMEOUT.

#[export] Instance outcome_eq_dec : EqDecision outcome.
Proof. solve_decision. Defined.

(** One row of the CSV log. A field is [None] where the program writes
    the empty string. *)
Record row : Type := Row {
  r_seq : Z;
  r_send_ts : option Q;
  r_ack_ts : option Q;
  r_rtt_ms : option Q;
  r_outcome : outcome
}.

(** Lines printed when [--verbose] is given. *)
Inductive print : Type :=
| PSent (seq : Z)
| PAcked (s : Z) (rtt_ms : Q)
| PRxError
| PTimeout (seq : Z).

(** The variables of [main] that the loop and [finalize] share. *)
Record client : Type := Client {
  sent_count : Z;
  ack_count : Z;
  seen_seqs : gset Z;
  send_perf : gmap Z Q;
  send_wall : gmap Z Q;
  ack_perf : gmap Z Q;
  ack_wall : gmap Z Q;
  finalized : gset Z;
  csv : list row;
  datagrams : list json;
  stdout : list print
}.

Definition init : client :=
  Client 0 0 ∅ ∅ ∅ ∅ ∅ ∅ [] [] [].

Definition say (verbose : bool) (p : print) (c : client) : client :=
  if verbose
  then Client (sent_count c) (ack_count c) (seen_seqs c) (send_perf c)
         (send_wall c) (ack_perf c) (ack_wall c) (finalized c) (csv c)
         (datagrams c) (stdout c ++ [p])
  else c.

(** [finalize(seq, outcome)], lines 39 to 51. The difference of the two
    readings and its product by 1000 are taken as they are; the program
    rounds each to a float before it rounds to 3 decimals, which gives
    the same row unless the third decimal falls on a rounding boundary. *)
Definition finalize (seq : Z) (o : outcome) (c : client) : client :=
  if decide (seq ∈ finalized c) then c
  else
    let r :=
      {| r_seq := seq;
         r_send_ts := round_dec 6 <$> send_wall c !! seq;
         r_ack_ts :=
           match o with
           | ACKED => round_dec 6 <$> ack_wall c !! seq
           | TIMEOUT => None
           end;
         r_rtt_ms :=
           match o, send_perf c !! seq, ack_perf c !! seq with
           | ACKED, Some s, Some a => Some (round_dec 3 ((a - s) * 1000))
           | _, _, _ => None
           end;
         r_outcome := o |} in
    Client (sent_count c) (ack_count c) (seen_seqs c) (send_perf c)
      (send_wall c) (ack_perf c) (ack_wall c) ({[seq]} ∪ finalized c)
      (csv c ++ [r]) (datagrams c) (stdout c).

(** What one call of [sock.recvfrom] does. *)
Inductive recv_result : Type :=
| RxData (payload : option json) (t_perf t_wall : Q)
| RxTimeout
| RxError.

(** One pass through the [while True] body: the clock reading of line 67
    and the result of the receive call. *)
Record iteration : Type := Iteration {
  now_head : Q;
  rx : recv_result
}.

(** Lines 77 to 81: only an unseen [s] is stored. *)
Definition observe (verbose : bool) (s : Z) (t_perf t_wall : Q) (c : client) : client :=
  match ack_perf c !! s with
  | Some _ => c
  | None =>
      let c1 :=
        Client (sent_count c) (ack_count c) (seen_seqs c) (send_perf c)
          (send_wall c) (<[s := t_perf]> (ack_perf c))
          (<[s := t_wall]> (ack_wall c)) (finalized c) (csv c)
          (datagrams c) (stdout c) in
      match send_perf c !! s with
      | Some t0 => say verbose (PAcked s ((t_perf - t0) * 1000)) c1
      | None => c1
      end
  end.

Definition count_ack (c : client) : client :=
  Client (sent_count c) (ack_count c + 1) (seen_seqs c) (send_perf c)
    (send_wall c) (ack_perf c) (ack_wall c) (finalized c) (csv c)
    (datagrams c) (stdout c).

(** Lines 73 and 74 *)
Definition ack_seq `{Builtins} (payload : option json) : option Z :=
  match payload with
  | None => None
  | Some ack =>
      match dict_get ack "seq" with
      | None => None
      | Some v => int v
      end
  end.

(** The wait loop, lines 66 to 89. The result is the state and
    [got_current]. A script that ends stands for a last clock reading at
    or after the deadline. *)
Fixpoint wait_loop `{Builtins} (verbose : bool) (seq : Z) (deadline : Q)
    (its : list iteration) (c : client) : client * bool :=
  match its with
  | [] => (c, false)
  | it :: rest =>
      if Qle_bool (deadline - now_head it) 0 then (c, false)
      else
        match rx it with
        | RxTimeout => (c, false)
        | RxError => wait_loop verbose seq deadline rest (say verbose PRxError c)
        | RxData payload t_perf t_wall =>
            match ack_seq payload with
            | None => wait_loop verbose seq deadline rest (say verbose PRxError c)
            | Some s =>
                let c1 := observe verbose s t_perf t_wall c in
                if decide (s = seq ∧ seq ∉ finalized c1)
                then (finalize seq ACKED (count_ack c1), true)
                else wait_loop verbose seq deadline rest c1
            end
        end
  end.

(** Everything the environment supplies during the turn of one sequence
    number. *)
Record turn : Type := Turn {
  t_send_wall : Q;
  t_send_perf : Q;
  t_send_ok : bool;
  t_deadline_perf : Q;
  t_iters : list iteration
}.

(** The command-line arguments that the modelled part of [main] reads. *)
Record args : Type := Args {
  n : Z;
  timeout : Q;
  seed : Z;
  verbose : bool
}.

(** A run ends normally or by an uncaught exception, in either case with
    the state reached. *)
Inductive result (A : Type) : Type :=
| Finished (a : A)
| Crashed (a : A).
Arguments Finished {A} a.
Arguments Crashed {A} a.

Definition probe (seq : Z) (send_ts : Q) : json :=
  JObj [("seq", JInt seq); ("send_ts", JFloat send_ts);
        ("msg", JStr ("Hello " +:+ pretty seq))]%string.

Definition record_send (seq : Z) (t : turn) (c : client) : client :=
  Client (sent_count c) (ack_count c) ({[seq]} ∪ seen_seqs c)
    (<[seq := t_send_perf t]> (send_perf c))
    (<[seq := t_send_wall t]> (send_wall c))
    (ack_perf c) (ack_wall c) (finalized c) (csv c) (datagrams c) (stdout c).

Definition transmitted (seq : Z) (t : turn) (c : client) : client :=
  Client (sent_count c + 1) (ack_count c) (seen_seqs c) (send_perf c)
    (send_wall c) (ack_perf c) (ack_wall c) (finalized c) (csv c)
    (datagrams c ++ [probe seq (t_send_wall t)]) (stdout c).

(** Lines 92 to 98 *)
Definition after_wait (verbose : bool) (seq : Z) (got_current : bool) (c : client) : client :=
  if got_current then c
  else if decide (seq ∈ finalized c) then c
  else
    match ack_perf c !! seq with
    | Some _ => finalize seq ACKED (count_ack c)
    | None => say verbose (PTimeout seq) (finalize seq TIMEOUT c)
    end.

(** The body of the [for] loop, lines 54 to 100. The jittered sleep of
    line 100 changes nothing that the program reads later. *)
Definition turn_step `{Builtins} (a : args) (seq : Z) (t : turn) (c : client)
    : result client :=
  if decide (seq ∈ seen_seqs c) then Crashed c
  else
    let c1 := record_send seq t c in
    if negb (t_send_ok t) then Crashed c1
    else
      let c2 := say (verbose a) (PSent seq) (transmitted seq t c1) in
      let deadline := (t_deadline_perf t + timeout a)%Q in
      let '(c3, got_current) := wait_loop (verbose a) seq deadline (t_iters t) c2 in
      Finished (after_wait (verbose a) seq got_current c3).

Fixpoint main_loop `{Builtins} (a : args) (seqs : list Z) (script : Z -> turn)
    (c : client) : result client :=
  match seqs with
  | [] => Finished c
  | seq :: rest =>
      match turn_step a seq (script seq) c with
      | Finished c' => main_loop a rest script c'
      | Crashed c' => Crashed c'
      end
  end.

Definition run `{Builtins} (a : args) (script : Z -> turn) : result client :=
  main_loop a (range 1 (n a + 1)) script init.

(** Lines 105 to 110: the RTT fields of the ACKED rows that have one, as
    the log holds them. *)
Definition logged_rtts (rows : list row) : list Q :=
  flat_map (fun r =>
    match r_outcome r, r_rtt_ms r with
    | ACKED, Some q => [q]
    | _, _ => []
    end) rows.

Definition stat (f : list Q -> Q) (rtts : list Q) : json :=
  match rtts with
  | [] => JNull
  | _ => JFloat (round_dec 3 (f rtts))
  end.

(** Lines 105 to 121: each RTT field is read back by [float], the loss is
    the quotient of two integers, a float. *)
Definition summary (a : args) (c : client) : json :=
  let rtts := map b64 (logged_rtts (csv c)) in
  let loss_ratio :=
    if decide (sent_count c = 0) then JInt 0
    else JFloat (round_dec 2
           (b64 (inject_Z (sent_count c - ack_count c) / inject_Z (sent_count c)))) in
  JObj [("sent", JInt (sent_count c)); ("acked", JInt (ack_count c));
        ("loss_ratio", loss_ratio); ("seed", JInt (seed a));
        ("rtt_ms", JObj [("avg", stat mean rtts); ("min", stat min_list rtts);
                         ("max", stat max_list rtts)])]%string.

(** [main]: the summary is printed only when the loop ends normally. *)
Definition main `{Builtins} (a : args) (script : Z -> turn) : result (client * json) :=
  match run a script with
  | Finished c => Finished (c, summary a c)
  | Crashed c => Crashed (c, JNull)
  end.

End A3_Client.

(** ** [A3.py]: the UDP acknowledgment server *)

Module A3.

Record args : Type := Args {
  host : string;
  port : Z;
  loss_prob : Q;
  drop_k : Z;
  seed : Z;
  verbose : bool
}.

(** The generator behind [random.seed] and [random.random]. *)
Class Random := {
  rng : Type;
  random_seed : Z -> rng;
  random_random : rng -> Q * rng
}.

Definition addr : Type := string * Z.

(** One datagram as [recvfrom] returns it, with the reading of
    [time.time()] of line 50. *)
Record datagram : Type := Datagram {
  payload : option json;
  from : addr;
  recv_ts : Q
}.

Inductive loss_model : Type := ModelDropK | ModelBernoulli | ModelNone.

Inductive print : Type :=
| PListening (h : string) (p : Z) (loss : Q) (k : Z) (sd : Z)
| PDropK (seq : Z)
| PLossProb (seq : Z)
| PAck (seq : Z) (count : Z)
| PSummary (count : Z) (m : loss_model) (k : Z) (p : Q) (sd : Z).

(** What the process does to the outside, in order. *)
Inductive effect : Type :=
| EStderr (msg : string)
| EStdout (p : print)
| ESocket
| ESetsockopt
| EBind (h : string) (p : Z)
| ESendto (ack : json) (to : addr)
| EExit (code : Z).

(** What became of one datagram; kept beside the program state to state
    properties of the loss models, the program itself keeps no such list. *)
Inductive decision : Type :=
| Malformed
| DroppedK (seq : Z)
| DroppedProb (seq : Z)
| Acked (seq : Z).

Record server `{Random} : Type := Server {
  recv_count : Z;
  gen : rng;
  effects : list effect;
  decisions : list decision
}.
Arguments Server {_} _ _ _ _.
Arguments recv_count {_} _.
Arguments gen {_} _.
Arguments effects {_} _.
Arguments decisions {_} _.

(** Line 69 *)
Definition ack_of (seq : Z) (recv_ts : Q) : json :=
  JObj [("seq", JInt seq); ("server_recv_ts", JFloat recv_ts)]%string.

(** Lines 54 and 55 *)
Definition probe_seq `{Builtins} (p : option json) : option Z :=
  match p with
  | None => None
  | Some j =>
      match dict_get j "seq" with
      | None => None
      | Some v => int v
      end
  end.

Definition emit `{Random} (es : list effect) (d : decision) (g : rng) (s : server) : server :=
  Server (recv_count s) g (effects s ++ es) (decisions s ++ [d]).

Definition when (b : bool) (e : effect) : list effect := if b then [e] else [].

(** The body of the [while True] loop, lines 49 to 72. *)
Definition serve `{Builtins} `{Random} (a : args) (d : datagram) (s : server) : server :=
  let s1 := Server (recv_count s + 1) (gen s) (effects s) (decisions s) in
  match probe_seq (payload d) with
  | None => emit [] Malformed (gen s1) s1
  | Some seq =>
      if (0 <? drop_k a) && (seq mod drop_k a =? 0)
      then emit (when (verbose a) (EStdout (PDropK seq))) (DroppedK seq) (gen s1) s1
      else
        let '(dropped, g) :=
          if Qltb 0 (loss_prob a)
          then let '(u, g) := random_random (gen s1) in (Qltb u (loss_prob a), g)
          else (false, gen s1) in
        if dropped
        then emit (when (verbose a) (EStdout (PLossProb seq))) (DroppedProb seq) g s1
        else
          let ack := ack_of seq (recv_ts d) in
          emit (ESendto ack (from d)
                  :: when (verbose a) (EStdout (PAck seq (recv_count s1))))
               (Acked seq) g s1
  end.

Definition serve_all `{Builtins} `{Random} (a : args) (traffic : list datagram)
    (s : server) : server :=
  fold_left (fun s d => serve a d s) traffic s.

Definition conflict_message : string :=
  "Use only one loss model at a time (--loss-prob OR --drop-k).".

(** Lines 38 to 40 *)
Definition model_of (a : args) : loss_model :=
  if 0 <? drop_k a then ModelDropK
  else if Qltb 0 (loss_prob a) then ModelBernoulli
  else ModelNone.

(** Lines 26 to 33 *)
Definition startup `{Random} (a : args) : server :=
  Server 0 (random_seed (seed a))
    ([ESocket; ESetsockopt; EBind (host a) (port a)]
     ++ when (verbose a)
          (EStdout (PListening (host a) (port a) (loss_prob a) (drop_k a) (seed a))))
    [].

(** [main], serving the given traffic until the operator interrupts. *)
Definition main `{Builtins} `{Random} (a : args) (traffic : list datagram) : list effect :=
  if Qltb 0 (loss_prob a) && (0 <? drop_k a)
  then [EStderr conflict_message; EExit 1]
  else
    let s := serve_all a traffic (startup a) in
    effects s
    ++ [EStdout (PSummary (recv_count s) (model_of a) (drop_k a) (loss_prob a) (seed a));
        EExit 0].

(** The acknowledgments among some effects, in the order sent. *)
Definition acks_sent (es : list effect) : list json :=
  flat_map (fun e =>
    match e with
    | ESendto ack _ => [ack]
    | _ => []
    end) es.

(** The sequence numbers that a loss model suppressed, in arrival order. *)
Definition dropped (ds : list decision) : list Z :=
  flat_map (fun d =>
    match d with
    | DroppedK seq | DroppedProb seq => [seq]
    | _ => []
    end) ds.

End A3.

(** ** [A3_TCP.py]: the TCP echo server *)

Module A3_TCP.



Inductive effect : Type :=
| EConnected
| ESleep (seconds : Q)
| EWrite (ack : json)
| EAckPrinted (seq : Z)
| EDisconnected.

Definition when (b : bool) (e : effect) : list effect := if b then [e] else [].





End A3_TCP.

(** ** [A3_TCP_Client.py]: the TCP probe client *)

Module A3_TCP_Client.

(** What the [try] body of one sequence number meets: [sendall] or [recv]
    raising [socket.timeout] or another exception, or [recv] returning
    data, with the reading of [time.time()] of line 56. *)
Inductive io : Type :=
| SendTimeout
| SendError
| RecvTimeout
| RecvError
| RecvData (payload : option json) (t_now : Q).

Record turn : Type := Turn {
  send_ts : Q;
  net : io
}.

(** A tuple appended to [results]. *)
Record row : Type := Row {
  r_seq : Z;
  r_send_ts : Q;
  r_ack_ts : option json;
  r_rtt_ms : option Q
}.

Inductive print : Type :=
| PAck (seq : Z) (rtt_ms : Q)
| PTimeout (seq : Z)
| PError (seq : Z).

Record client : Type := Client {
  results : list row;
  rtts : list Q;
  sendall_calls : list Z;
  stdout : list print
}.

Definition init : client := Client [] [] [] [].

Inductive attempt : Type :=
| Acked (ack_ts : json) (rtt_ms : Q)
| TimedOut
| Raised.

(** Lines 53 to 59 *)
Definition try_probe (t : turn) : attempt :=
  match net t with
  | SendTimeout | RecvTimeout => TimedOut
  | SendError | RecvError => Raised
  | RecvData None _ => Raised
  | RecvData (Some ack) t_now =>
      match dict_get_default ack "server_recv_ts" (JFloat t_now) with
      | None => Raised
      | Some ack_ts =>
          match to_float ack_ts with
          | None => Raised
          | Some x => Acked ack_ts ((x - send_ts t) * 1000)
          end
      end
  end.

Definition when (b : bool) (p : print) : list print := if b then [p] else [].

(** The [for] loop, lines 47 to 72; an exception other than a timeout
    leaves the loop. *)
Fixpoint loop (verbose : bool) (seqs : list Z) (script : Z -> turn) (c : client) : client :=
  match seqs with
  | [] => c
  | seq :: rest =>
      let t := script seq in
      let calls := sendall_calls c ++ [seq] in
      match try_probe t with
      | Acked ack_ts rtt_ms =>
          loop verbose rest script
            (Client (results c ++ [Row seq (send_ts t) (Some ack_ts) (Some rtt_ms)])
               (rtts c ++ [rtt_ms]) calls (stdout c ++ when verbose (PAck seq rtt_ms)))
      | TimedOut =>
          loop verbose rest script
            (Client (results c ++ [Row seq (send_ts t) None None])
               (rtts c) calls (stdout c ++ when verbose (PTimeout seq)))
      | Raised =>
          Client (results c) (rtts c) calls (stdout c ++ [PError seq])
      end
  end.

(** The command-line arguments that the loop and the summary read. The
    model starts from the established connection. *)
Record args : Type := Args {
  n : Z;
  verbose : bool
}.

(** The readings of [time.perf_counter()] around the connection and the
    session. *)
Record clock : Type := Clock {
  t_syn : Q;
  t_ack : Q;
  t_session_start : Q;
  t_session_end : Q
}.

(** Lines 85 to 105 *)
Definition summary (a : args) (k : clock) (c : client) : json :=
  let handshake := JFloat (round_dec 3 ((t_ack k - t_syn k) * 1000)) in
  let duration := JFloat (round_dec 3 ((t_session_end k - t_session_start k) * 1000)) in
  match rtts c with
  | [] =>
      JObj [("sent", JInt (n a)); ("acked", JInt 0); ("rtt_ms", JNull);
            ("handshake_ms", handshake); ("session_duration_ms", duration)]%string
  | _ =>
      JObj [("sent", JInt (n a)); ("acked", JInt (Z.of_nat (length (rtts c))));
            ("rtt_ms", JObj [("avg", JFloat (round_dec 3 (mean (rtts c))));
                             ("min", JFloat (round_dec 3 (min_list (rtts c))));
                             ("max", JFloat (round_dec 3 (max_list (rtts c))));
                             ("median", JFloat (round_dec 3 (median (rtts c))))]);
            ("handshake_ms", handshake); ("session_duration_ms", duration)]%string
  end.

Definition run (a : args) (script : Z -> turn) : client :=
  loop (verbose a) (range 1 (n a + 1)) script init.

Definition main (a : args) (k : clock) (script : Z -> turn) : client * json :=
  let c := run a script in (c, summary a k c).

End A3_TCP_Client.

(** ** Vocabulary of the statements *)

Module Spec.

Import A3_Client.

(** The rows that the log holds for one sequence number. *)
Definition record_of (seq : Z) (rows : list row) : list row :=
  filter (fun r => r_seq r = seq) rows.

Definition state {A : Type} (r : result A) : A :=
  match r with
  | Finished a => a
  | Crashed a => a
  end.

(** The row that [finalize(seq, "ACKED")] writes in state [c]. *)
Definition acked_row (seq : Z) (c : client) : row :=
  {| r_seq := seq;
     r_send_ts := round_dec 6 <$> send_wall c !! seq;
     r_ack_ts := round_dec 6 <$> ack_wall c !! seq;
     r_rtt_ms :=
       match send_perf c !! seq, ack_perf c !! seq with
       | Some s, Some a => Some (round_dec 3 ((a - s) * 1000))
       | _, _ => None
       end;
     r_outcome := ACKED |}.

Definition timeout_row (seq : Z) (c : client) : row :=
  {| r_seq := seq;
     r_send_ts := round_dec 6 <$> send_wall c !! seq;
     r_ack_ts := None;
     r_rtt_ms := None;
     r_outcome := TIMEOUT |}.

(** What receiving never touches, and what it only extends: once a
    monotonic observation time is stored for a sequence number, neither
    of its two stored times changes. *)
Definition preserved (c c' : client) : Prop :=
  sent_count c' = sent_count c ∧ seen_seqs c' = seen_seqs c ∧
  send_perf c' = send_perf c ∧ send_wall c' = send_wall c ∧
  datagrams c' = datagrams c ∧
  (∀ s t, ack_perf c !! s = Some t →
          ack_perf c' !! s = Some t ∧ ack_wall c' !! s = ack_wall c !! s).

(** From any state, running on only appends rows, and only for numbers
    not yet finalized; stored observations stay. *)
Definition grows (c c' : client) : Prop :=
  finalized c ⊆ finalized c' ∧
  (∃ new, csv c' = csv c ++ new ∧ Forall (λ r, r_seq r ∉ finalized c) new) ∧
  (∀ s x, ack_perf c !! s = Some x →
          ack_perf c' !! s = Some x ∧ ack_wall c' !! s = ack_wall c !! s).

Definition acked_rows (rows : list row) : list row :=
  filter (fun r => r_outcome r = ACKED) rows.

(** In the turn of [q] the script delivers a datagram that parses to an
    acknowledgment of [s], with the monotonic reading [a] taken on its
    receipt. *)
Definition delivered `{Builtins} (script : Z → turn) (q s : Z) (a : Q) : Prop :=
  ∃ it p tw, In it (t_iters (script q)) ∧ rx it = RxData p a tw ∧ ack_seq p = Some s.





(** A logged row agrees with the stored times; an ACKED one rests on an
    observation made in its own turn or in an earlier one. *)
Definition row_ok `{Builtins} (script : Z → turn) (c : client) (r : row) : Prop :=
  match r_outcome r with
  | ACKED =>
      r = acked_row (r_seq r) c ∧
      ∃ a q, ack_perf c !! r_seq r = Some a ∧ 1 ≤ q ≤ r_seq r ∧
             delivered script q (r_seq r) a
  | TIMEOUT => r = timeout_row (r_seq r) c
  end.

(** The state between the turns: [m] is the next sequence number. *)
Definition between_turns `{Builtins} (script : Z → turn) (m : Z) (c : client) : Prop :=
  map r_seq (csv c) = range 1 m ∧
  (∀ s, s ∈ finalized c ↔ 1 ≤ s < m) ∧
  (∀ s, s ∈ seen_seqs c ↔ 1 ≤ s < m) ∧
  sent_count c = m - 1 ∧
  ack_count c = Z.of_nat (length (acked_rows (csv c))) ∧
  (∀ s, 1 ≤ s < m →
        send_perf c !! s = Some (t_send_perf (script s)) ∧
        send_wall c !! s = Some (t_send_wall (script s))) ∧
  (∀ s a, ack_perf c !! s = Some a → ∃ q, 1 ≤ q < m ∧ delivered script q s a) ∧
  Forall (row_ok script c) (csv c).






(** The outcome that [--drop-k k] on the server leads to when nothing
    else is lost. *)
Definition expected (k : Z) (r : row) : Prop :=
  r_outcome r = if r_seq r mod k =? 0 then TIMEOUT else ACKED.


(** The sequence numbers carried by the datagrams that parse, in arrival
    order. *)
Definition arrivals `{Builtins} (traffic : list A3.datagram) : list Z :=
  omap (fun d => A3.probe_seq (A3.payload d)) traffic.

(** The drop decisions as a function of the two loss parameters, the
    generator and the arriving sequence numbers. *)
Fixpoint drops_of `{A3.Random} (p : Q) (k : Z) (g : A3.rng) (seqs : list Z) : list Z :=
  match seqs with
  | [] => []
  | seq :: rest =>
      if (0 <? k) && (seq mod k =? 0) then seq :: drops_of p k g rest
      else if Qltb 0 p
      then let '(u, g') := A3.random_random g in
           if Qltb u p then seq :: drops_of p k g' rest else drops_of p k g' rest
      else drops_of p k g rest
  end.

Fixpoint gen_after `{A3.Random} (p : Q) (k : Z) (g : A3.rng) (seqs : list Z) : A3.rng :=
  match seqs with
  | [] => g
  | seq :: rest =>
      if (0 <? k) && (seq mod k =? 0) then gen_after p k g rest
      else if Qltb 0 p then gen_after p k (A3.random_random g).2 rest
      else gen_after p k g rest
  end.


End Spec.

(** ** Concrete environments, for the worked sessions below *)

Module Sessions.

(** [int(s)] on the strings that the sessions use: decimal digits with an
    optional minus sign, and at least one digit. The interpreter also
    accepts blanks around the number, a plus sign and single underscores
    between digits; these are refused here. *)
Definition decimal_builtins : Builtins :=
  {| int_of_str := fun s =>
       if (String.eqb s "" || String.eqb s "-")%bool then None
       else Z.of_int <$> NilEmpty.int_of_string s |}.

(** A linear congruential generator for [random.random()]. *)
Definition lcg : A3.Random :=
  {| A3.rng := Z;
     A3.random_seed := fun sd => sd mod 2147483648;
     A3.random_random := fun s =>
       let s' := (s * 1103515245 + 12345) mod 2147483648 in
       (Qred (inject_Z s' / 2147483648), s') |}.

Definition ack (seq : Z) (server_recv_ts : Q) : json :=
  JObj [("seq", JInt seq); ("server_recv_ts", JFloat server_recv_ts)]%string.

(** Scenario C: the acknowledgment for 3 arrives while the client waits
    for 2, the one for 2 follows; nothing arrives in the turn of 3. *)
Definition reordered (seq : Z) : A3_Client.turn :=
  let t := inject_Z seq in
  if seq =? 1 then
    A3_Client.Turn (1000 + t) t true t
      [A3_Client.Iteration (t + (1 # 100))
         (A3_Client.RxData (Some (ack 1 (1000 + t))) (t + (1 # 50)) (1000 + t + (1 # 50)))]
  else if seq =? 2 then
    A3_Client.Turn (1000 + t) t true t
      [A3_Client.Iteration (t + (1 # 100))
         (A3_Client.RxData (Some (ack 3 (1000 + t))) (t + (1 # 50)) (1000 + t + (1 # 50)));
       A3_Client.Iteration (t + (1 # 40))
         (A3_Client.RxData (Some (ack 2 (1000 + t))) (t + (1 # 25)) (1000 + t + (1 # 25)))]
  else
    A3_Client.Turn (1000 + t) t true t
      [A3_Client.Iteration (t + (1 # 2)) A3_Client.RxTimeout].

Definition three_probes : A3_Client.args := A3_Client.Args 3 1 7 false.




(** The UDP client against the UDP server over a network that loses and
    reorders nothing: the probe of [seq] reaches the server after the
    probes before it, and what the server sends back reaches the client
    [latency] seconds after the probe left, within the turn. When nothing
    comes back the receive call times out. *)
Section ClosedLoop.

Context `{Builtins} `{A3.Random}.
Variables (sa : A3.args) (latency : Q).

Definition wall (seq : Z) : Q := 1000 + inject_Z seq.
Definition perf (seq : Z) : Q := inject_Z seq.

Definition datagram_of (seq : Z) : A3.datagram :=
  A3.Datagram (Some (A3_Client.probe seq (wall seq))) ("client", 40000)%string
    (wall seq + latency / 2).

Definition answers (seq : Z) : list json :=
  let s0 := A3.serve_all sa (map datagram_of (range 1 seq)) (A3.startup sa) in
  A3.acks_sent
    (drop (length (A3.effects s0)) (A3.effects (A3.serve sa (datagram_of seq) s0))).

Definition closed_loop (seq : Z) : A3_Client.turn :=
  A3_Client.Turn (wall seq) (perf seq) true (perf seq)
    match answers seq with
    | [] => [A3_Client.Iteration (perf seq) A3_Client.RxTimeout]
    | acks =>
        map (fun ack =>
               A3_Client.Iteration (perf seq + latency)
                 (A3_Client.RxData (Some ack) (perf seq + latency)
                    (wall seq + latency)))
            acks
    end.

End ClosedLoop.

(** The states between the turns of the reordered session. *)
Definition after_one : A3_Client.client :=
  Spec.state (A3_Client.main_loop (H := decimal_builtins) three_probes [1] reordered
                A3_Client.init).

Definition after_two : A3_Client.client :=
  Spec.state (A3_Client.main_loop (H := decimal_builtins) three_probes [1; 2] reordered
                A3_Client.init).

(** Two servers with the same seed and the same loss probability, and two
    runs of traffic that carry the probes 1, 2, 3 and 4 in this order but
    differ in senders, times, other fields and stray datagrams. *)
Definition bernoulli_a : A3.args := A3.Args "0.0.0.0" 50995 (1 # 2) 0 7 false.
Definition bernoulli_b : A3.args := A3.Args "127.0.0.1" 6000 (1 # 2) 0 7 true.

Definition traffic_a : list A3.datagram :=
  [A3.Datagram (Some (A3_Client.probe 1 1001)) ("10.0.0.1", 40000)%string 1002;
   A3.Datagram None ("10.0.0.9", 1)%string 1003;
   A3.Datagram (Some (A3_Client.probe 2 1004)) ("10.0.0.1", 40000)%string 1005;
   A3.Datagram (Some (A3_Client.probe 3 1006)) ("10.0.0.1", 40000)%string 1007;
   A3.Datagram (Some (A3_Client.probe 4 1008)) ("10.0.0.1", 40000)%string 1009].

Definition traffic_b : list A3.datagram :=
  [A3.Datagram (Some (JObj [("seq", JInt 1)]%string)) ("10.0.0.2", 41000)%string 2002;
   A3.Datagram (Some (JObj [("seq", JInt 2)]%string)) ("10.0.0.2", 41000)%string 2005;
   A3.Datagram (Some (JArr [])) ("10.0.0.2", 41000)%string 2006;
   A3.Datagram (Some (JObj [("seq", JInt 3)]%string)) ("10.0.0.3", 42000)%string 2007;
   A3.Datagram (Some (JObj [("msg", JStr "no number")]%string)) ("10.0.0.3", 42000)%string 2008;
   A3.Datagram (Some (JObj [("seq", JInt 4)]%string)) ("10.0.0.3", 42000)%string 2009].

Definition both_models : A3.args := A3.Args "0.0.0.0" 50995 (1 # 2) 3 7 false.

(** TCP sessions. *)
Definition tcp_clock : A3_TCP_Client.clock :=
  A3_TCP_Client.Clock 0 (1 # 100) (1 # 50) 5.



(** The reply, read a second and a half after the probe was sent, has no
    [server_recv_ts]. *)
Definition no_server_ts (seq : Z) : A3_TCP_Client.turn :=
  A3_TCP_Client.Turn 10
    (A3_TCP_Client.RecvData (Some (JObj [("seq", JInt seq)]%string)) (23 # 2)).

(** The connection is reset while the client waits for the second
    reply. *)
Definition reset_at_two (seq : Z) : A3_TCP_Client.turn :=
  let t := inject_Z seq in
  if seq =? 2 then A3_TCP_Client.Turn t A3_TCP_Client.RecvError
  else A3_TCP_Client.Turn t
         (A3_TCP_Client.RecvData (Some (ack seq (t + (1 # 100)))) (t + (1 # 50))).

Definition drop_every_third : A3.args :=
  A3.Args "0.0.0.0" 50995 0 3 32101211950 false.

Definition ten_probes : A3_Client.args := A3_Client.Args 10 1 32101211950 false.

End Sessions.

(** ** The rest of the four programs, and further vocabulary *)

Module Further.

(** [random.uniform(a, b)] as the standard library computes it,
    [a + (b - a) * random()]. *)
Definition uniform `{A3.Random} (a b : Q) (g : A3.rng) : Q * A3.rng :=
  let '(u, g') := A3.random_random g in ((a + (b - a) * u)%Q, g').

(** [jitter_sleep(interval, jitter)], line 12 of the UDP client: the
    duration handed to [time.sleep], and the generator afterwards. *)
Definition jitter_sleep `{A3.Random} (interval jitter : Q) (g : A3.rng) : Q * A3.rng :=
  let '(x, g') := uniform (- jitter) jitter g in ((interval * (1 + x))%Q, g').

(** The probe that the UDP client puts on the wire for [seq]. *)
Definition probe_of (script : Z → A3_Client.turn) (seq : Z) : json :=
  A3_Client.probe seq (A3_Client.t_send_wall (script seq)).

(** Two client states that differ at most in what was printed. *)
Definition same_but_stdout (c1 c2 : A3_Client.client) : Prop :=
  A3_Client.sent_count c1 = A3_Client.sent_count c2 ∧
  A3_Client.ack_count c1 = A3_Client.ack_count c2 ∧
  A3_Client.seen_seqs c1 = A3_Client.seen_seqs c2 ∧
  A3_Client.send_perf c1 = A3_Client.send_perf c2 ∧
  A3_Client.send_wall c1 = A3_Client.send_wall c2 ∧
  A3_Client.ack_perf c1 = A3_Client.ack_perf c2 ∧
  A3_Client.ack_wall c1 = A3_Client.ack_wall c2 ∧
  A3_Client.finalized c1 = A3_Client.finalized c2 ∧
  A3_Client.csv c1 = A3_Client.csv c2 ∧
  A3_Client.datagrams c1 = A3_Client.datagrams c2.

(** Every stored monotonic observation time has its wall-clock time. *)
Definition paired (c : A3_Client.client) : Prop :=
  ∀ s, is_Some (A3_Client.ack_perf c !! s) → is_Some (A3_Client.ack_wall c !! s).

(** The datagrams that the server sends, with their destinations, in
    order. *)
Definition sends (es : list A3.effect) : list (json * A3.addr) :=
  flat_map (fun e =>
    match e with
    | A3.ESendto ack to => [(ack, to)]
    | _ => []
    end) es.

(** The acknowledgment that answers a datagram, when the datagram parses:
    its sequence number, its receive time, back to its sender. *)
Definition answer_of `{Builtins} (d : A3.datagram) : option (json * A3.addr) :=
  (fun seq => (A3.ack_of seq (A3.recv_ts d), A3.from d)) <$> A3.probe_seq (A3.payload d).

(** One use of the generator. *)
Definition next `{A3.Random} (g : A3.rng) : A3.rng := (A3.random_random g).2.








(** A row of the TCP client agrees with the script: a timeout leaves both
    fields empty, a reply gives the difference between the time it carries
    and the send time. *)
Definition tcp_row_ok (script : Z → A3_TCP_Client.turn) (r : A3_TCP_Client.row) : Prop :=
  A3_TCP_Client.r_send_ts r = A3_TCP_Client.send_ts (script (A3_TCP_Client.r_seq r)) ∧
  ((A3_TCP_Client.r_ack_ts r = None ∧ A3_TCP_Client.r_rtt_ms r = None) ∨
   ∃ ack_ts x,
     A3_TCP_Client.r_ack_ts r = Some ack_ts ∧ to_float ack_ts = Some x ∧
     A3_TCP_Client.r_rtt_ms r = Some ((x - A3_TCP_Client.r_send_ts r) * 1000)%Q).

(** The acknowledgment of the probe of [q] is the first datagram received
    in the turn of [q], before the deadline. *)
Definition prompt `{Builtins} (a : A3_Client.args) (t : A3_Client.turn) (q : Z) : Prop :=
  A3_Client.t_send_ok t = true ∧
  ∃ it rest p tp tw,
    A3_Client.t_iters t = it :: rest ∧
    A3_Client.rx it = A3_Client.RxData p tp tw ∧
    A3_Client.ack_seq p = Some q ∧
    Qle_bool (A3_Client.t_deadline_perf t + A3_Client.timeout a - A3_Client.now_head it) 0
      = false.

(** The loop of lines 53 to 100 with the sleep of line 100: after each
    turn the client draws from the generator and sleeps; [time.sleep]
    raises on a duration that is negative or too long for the clock
    ([accepts_seconds]). *)
Fixpoint main_loop_sleeping `{Builtins} `{A3.Random} (a : A3_Client.args)
    (interval jitter : Q) (seqs : list Z) (script : Z → A3_Client.turn)
    (c : A3_Client.client) (g : A3.rng) : A3_Client.result A3_Client.client * A3.rng :=
  match seqs with
  | [] => (A3_Client.Finished c, g)
  | seq :: rest =>
      match A3_Client.turn_step a seq (script seq) c with
      | A3_Client.Finished c' =>
          let '(d, g') := jitter_sleep interval jitter g in
          if accepts_seconds d
          then main_loop_sleeping a interval jitter rest script c' g'
          else (A3_Client.Crashed c', g')
      | A3_Client.Crashed c' => (A3_Client.Crashed c', g)
      end
  end.

(** Lines 27 to 100: the generator is seeded, [sock.settimeout] raises on
    a timeout that is negative or too long for the clock
    ([accepts_seconds]), then the loop runs. The timeout that the wait
    loop sets again before each receive, a positive remaining time, is
    taken to be accepted. *)
Definition session `{Builtins} `{A3.Random} (a : A3_Client.args) (interval jitter : Q)
    (script : Z → A3_Client.turn) : A3_Client.result A3_Client.client :=
  if accepts_seconds (A3_Client.timeout a)
  then (main_loop_sleeping a interval jitter (range 1 (A3_Client.n a + 1)) script
          A3_Client.init (A3.random_seed (A3_Client.seed a))).1
  else A3_Client.Crashed A3_Client.init.

End Further.

(** ** Further sessions *)

Module Scenarios.

(** The reordered session, with the network unreachable at the second
    probe: [sendto] raises. *)
Definition unreachable_at_two (seq : Z) : A3_Client.turn :=
  let t := Sessions.reordered seq in
  if seq =? 2
  then A3_Client.Turn (A3_Client.t_send_wall t) (A3_Client.t_send_perf t) false
         (A3_Client.t_deadline_perf t) []
  else t.

Definition three_probes_verbose : A3_Client.args := A3_Client.Args 3 1 7 true.

(** Forty probes against a server that drops the fortieth. *)
Definition forty_probes : A3_Client.args := A3_Client.Args 40 1 7 false.
Definition drop_fortieth : A3.args := A3.Args "0.0.0.0" 50995 0 40 7 false.

(** Two probes, acknowledged after 20 ms and after 20.001 ms. *)
Definition two_close_rtts (seq : Z) : A3_Client.turn :=
  let t := inject_Z seq in
  let d := if seq =? 1 then (20 # 1000)%Q else (20001 # 1000000)%Q in
  A3_Client.Turn (1000 + t) t true t
    [A3_Client.Iteration (t + (1 # 100))
       (A3_Client.RxData (Some (Sessions.ack seq (1000 + t))) (t + d) (1000 + t + d))].

(** [--timeout 0] and [--timeout -1] *)
Definition no_budget : A3_Client.args := A3_Client.Args 3 0 7 false.


(** Every acknowledgment is back 20 ms after its probe. *)
Definition answered_at_once (seq : Z) : A3_Client.turn :=
  let t := inject_Z seq in
  A3_Client.Turn (1000 + t) t true t
    [A3_Client.Iteration (t + (1 # 100))
       (A3_Client.RxData (Some (Sessions.ack seq (1000 + t))) (t + (1 # 50))
          (1000 + t + (1 # 50)))].

(** Servers without a loss model, and with a loss probability of 1. *)
Definition no_loss : A3.args := A3.Args "0.0.0.0" 50995 0 0 7 false.
Definition always_lose : A3.args := A3.Args "0.0.0.0" 50995 1 0 7 false.


End Scenarios.

(** ** Python's [range] *)

Section Range.

Lemma range_nil a b : b ≤ a → range a b = [].
Proof.
  intros Hle. unfold range. replace (Z.to_nat (b - a)) with 0%nat by lia. done.
Qed.

Lemma range_cons a b : a < b → range a b = a :: range (a + 1) b.
Proof.
  intros Hlt. unfold range.
  replace (Z.to_nat (b - a)) with (S (Z.to_nat (b - (a + 1)))) by lia.
  cbn [seq map]. f_equal; [lia|].
  rewrite <- seq_shift, map_map. apply map_ext. intros i. lia.
Qed.

Lemma range_snoc a b : a ≤ b → range a (b + 1) = range a b ++ [b].
Proof.
  intros Hle. unfold range.
  replace (Z.to_nat (b + 1 - a)) with (S (Z.to_nat (b - a))) by lia.
  rewrite seq_S, map_app. cbn. do 2 f_equal. lia.
Qed.


Lemma in_range a b x : In x (range a b) ↔ a ≤ x < b.
Proof.
  unfold range. rewrite in_map_iff. split.
  - intros (i & <- & Hi). apply in_seq in Hi. lia.
  - intros Hx. exists (Z.to_nat (x - a)). split; [lia|]. apply in_seq. lia.
Qed.

Lemma length_range a b : length (range a b) = Z.to_nat (b - a).
Proof. unfold range. by rewrite length_map, length_seq. Qed.

End Range.

(** ** Rounding *)

Section Rounding.

Lemma round_half_even_nonneg (x : Q) : (0 <= x)%Q → 0 ≤ round_half_even x.
Proof.
  intros Hx. unfold round_half_even.
  assert (Hf : 0 ≤ Qfloor x).
  { change 0 with (Qfloor 0). by apply Qfloor_resp_le. }
  destruct (Qcompare _ _); [destruct (Z.even _)| |]; lia.
Qed.

Lemma round_dec_nonneg (d : nat) (x : Q) : (0 <= x)%Q → (0 <= round_dec d x)%Q.
Proof.
  intros Hx. unfold round_dec. rewrite Qred_correct.
  assert (Hp : (0 <= inject_Z (10 ^ Z.of_nat d))%Q).
  { change 0%Q with (inject_Z 0). rewrite <- Zle_Qle. apply Z.pow_nonneg. lia. }
  apply Qmult_le_0_compat; [|by apply Qinv_le_0_compat].
  change 0%Q with (inject_Z 0). rewrite <- Zle_Qle.
  apply round_half_even_nonneg. by apply Qmult_le_0_compat.
Qed.


Example round_dec_half_even :
  round_dec 2 (1 # 8) = (3 # 25)%Q ∧ round_dec 2 (3 # 8) = (19 # 50)%Q ∧
  round_dec 3 (- (1 # 3)) = (- (333 # 1000))%Q.
Proof. by vm_compute. Qed.

Example statistics_of_rtts :
  mean [1; 2]%Q = (3 # 2)%Q ∧ min_list [3; 1; 2]%Q = 1%Q ∧ max_list [3; 1; 2]%Q = 3%Q ∧
  median [3; 1; 2; 5]%Q = (5 # 2)%Q ∧ median [3; 1; 2]%Q = 2%Q.
Proof. by vm_compute. Qed.

(** 0.1 and 0.025 are not binary64 numbers; the float of 1/40 is above
    0.025 and rounds to 0.03 at two decimals, where 0.025 itself would
    give 0.02; the mean of the floats of 20.000 and 20.001 is above
    20.0005. *)
Example binary64_values :
  b64 (1 # 10) = (3602879701896397 # 36028797018963968)%Q ∧
  b64 (1 # 2) = (1 # 2)%Q ∧ b64 1500 = 1500%Q ∧
  round_dec 2 (b64 (1 # 40)) = (3 # 100)%Q ∧ round_dec 2 (1 # 40) = (1 # 50)%Q ∧
  round_dec 3 (mean [b64 20; b64 (20001 # 1000)]) = (20001 # 1000)%Q ∧
  to_float (JInt (2 ^ 53 + 1)) = Some (inject_Z (2 ^ 53)) ∧
  to_float (JInt (2 ^ 1024)) = None.
Proof. by vm_compute. Qed.

Example int_of_values :
  @int Sessions.decimal_builtins (JStr "-12") = Some (-12) ∧
  @int Sessions.decimal_builtins (JFloat (- (7 # 2))) = Some (-3) ∧
  @int Sessions.decimal_builtins JNull = None ∧
  range 1 4 = [1; 2; 3] ∧ range 1 0 = [].
Proof. by vm_compute. Qed.

End Rounding.

(** ** Binary64 numbers *)

Section Binary64.

Lemma pow2_pos (e : Z) : (0 < 2 ^ e)%Q.
Proof. by apply Qpower_0_lt. Qed.

Lemma pow2_plus (a b : Z) : (2 ^ (a + b) == 2 ^ a * 2 ^ b)%Q.
Proof. by apply Qpower_plus. Qed.

Lemma pow2_le (a b : Z) : a ≤ b → (2 ^ a <= 2 ^ b)%Q.
Proof. intros Hab. by apply Qpower_le_compat_l. Qed.

Lemma pow2_lt (a b : Z) : a < b → (2 ^ a < 2 ^ b)%Q.
Proof. intros Hab. by apply Qpower_lt_compat_l. Qed.

Lemma pow2_lt_inv (a b : Z) : (2 ^ a < 2 ^ b)%Q → a < b.
Proof. intros Hab. by apply (Qpower_lt_compat_l_inv 2). Qed.

Lemma pow2_Z (a : Z) : 0 ≤ a → (inject_Z (2 ^ a) == 2 ^ a)%Q.
Proof. intros Ha. by rewrite Zpower_Qpower. Qed.

(** Division by a power of 2 *)
Lemma scale_le (x y : Q) (e : Z) : (x <= y)%Q → (x / 2 ^ e <= y / 2 ^ e)%Q.
Proof.
  intros Hxy. unfold Qdiv. apply Qmult_le_compat_r; [done|].
  apply Qlt_le_weak, Qinv_lt_0_compat, pow2_pos.
Qed.

Lemma scale_pow (a e : Z) : (2 ^ a / 2 ^ e == 2 ^ (a - e))%Q.
Proof. symmetry. by apply Qpower_minus. Qed.

Lemma scale_back (x : Q) (e : Z) : (x / 2 ^ e * 2 ^ e == x)%Q.
Proof. field. pose proof (pow2_pos e). lra. Qed.

Lemma Qlog2_spec (x : Q) :
  (0 < x)%Q → (2 ^ Qlog2 x <= x)%Q ∧ (x < 2 ^ (Qlog2 x + 1))%Q.
Proof.
  intros Hx. destruct x as [n d].
  assert (Hn : 0 < n) by (unfold Qlt in Hx; cbn in Hx; lia).
  pose proof (Z.log2_spec n Hn) as [Hn1 Hn2].
  pose proof (Z.log2_spec (Zpos d) ltac:(lia)) as [Hd1 Hd2].
  pose proof (Z.log2_nonneg n) as Ha. pose proof (Z.log2_nonneg (Zpos d)) as Hb.
  unfold Qlog2. cbn [Qnum Qden].
  set (a := Z.log2 n) in *. set (b := Z.log2 (Zpos d)) in *.
  assert (Ex : (n # d == inject_Z n / inject_Z (Zpos d))%Q) by apply Qmake_Qdiv.
  assert (Hdq : (0 < inject_Z (Zpos d))%Q) by (unfold Qlt; cbn; lia).
  assert (Qn1 : (2 ^ a <= inject_Z n)%Q) by (rewrite <- pow2_Z, <- Zle_Qle; done).
  assert (Qn2 : (inject_Z n < 2 ^ (a + 1))%Q).
  { rewrite <- pow2_Z, <- Zlt_Qlt by lia. by rewrite <- Z.add_1_r in Hn2. }
  assert (Qd1 : (2 ^ b <= inject_Z (Zpos d))%Q) by (rewrite <- pow2_Z, <- Zle_Qle; done).
  assert (Qd2 : (inject_Z (Zpos d) < 2 ^ (b + 1))%Q).
  { rewrite <- pow2_Z, <- Zlt_Qlt by lia. by rewrite <- Z.add_1_r in Hd2. }
  assert (Hlow : (2 ^ (a - b - 1) <= n # d)%Q).
  { rewrite Ex. apply Qle_shift_div_l; [done|].
    apply Qle_trans with (2 ^ (a - b - 1) * 2 ^ (b + 1))%Q.
    - apply Qmult_le_l; [apply pow2_pos|by apply Qlt_le_weak].
    - rewrite <- pow2_plus. by replace (a - b - 1 + (b + 1)) with a by lia. }
  assert (Hhigh : (n # d < 2 ^ (a - b + 1))%Q).
  { rewrite Ex. apply Qlt_shift_div_r; [done|].
    apply Qlt_le_trans with (2 ^ (a - b + 1) * 2 ^ b)%Q.
    - rewrite <- pow2_plus. by replace (a - b + 1 + b) with (a + 1) by lia.
    - apply Qmult_le_l; [apply pow2_pos|done]. }
  destruct (Qle_bool (2 ^ (a - b)) (n # d)) eqn:E.
  - apply Qle_bool_iff in E. done.
  - assert (Hlt : (n # d < 2 ^ (a - b))%Q).
    { apply Qnot_le_lt. intros Hle. apply Qle_bool_iff in Hle. congruence. }
    replace (a - b - 1 + 1) with (a - b) by lia. done.
Qed.

Lemma Qlog2_unique (x : Q) (l : Z) :
  (2 ^ l <= x)%Q → (x < 2 ^ (l + 1))%Q → Qlog2 x = l.
Proof.
  intros H1 H2.
  assert (Hx : (0 < x)%Q) by (pose proof (pow2_pos l); lra).
  destruct (Qlog2_spec x Hx) as [S1 S2].
  assert (Qlog2 x < l + 1) by (apply pow2_lt_inv; lra).
  assert (l < Qlog2 x + 1) by (apply pow2_lt_inv; lra).
  lia.
Qed.

Lemma Qlog2_mono (x y : Q) : (0 < x)%Q → (x <= y)%Q → Qlog2 x ≤ Qlog2 y.
Proof.
  intros Hx Hxy. destruct (Qlog2_spec x Hx) as [S1 _].
  destruct (Qlog2_spec y ltac:(lra)) as [_ T2].
  assert (Qlog2 x < Qlog2 y + 1) by (apply pow2_lt_inv; lra). lia.
Qed.


Lemma round_half_even_comp (x y : Q) : (x == y)%Q → round_half_even x = round_half_even y.
Proof.
  intros E. unfold round_half_even. rewrite (Qfloor_comp x y E).
  assert (E2 : (x - inject_Z (Qfloor y) == y - inject_Z (Qfloor y))%Q)
    by (apply Qplus_comp; [exact E|reflexivity]).
  by rewrite (Qcompare_comp _ _ E2 (1 # 2) (1 # 2) (Qeq_refl _)).
Qed.

Lemma round_half_even_Z (z : Z) : round_half_even (inject_Z z) = z.
Proof.
  unfold round_half_even. rewrite Qfloor_Z.
  assert (E : (inject_Z z - inject_Z z == 0)%Q) by ring.
  by rewrite (Qcompare_comp _ _ E (1 # 2) (1 # 2) (Qeq_refl _)).
Qed.

Lemma round_half_even_mono (x y : Q) : (x <= y)%Q → round_half_even x ≤ round_half_even y.
Proof.
  intros Hxy. unfold round_half_even.
  pose proof (Qfloor_resp_le x y Hxy) as Hfg.
  pose proof (Qfloor_le x) as Hx1. pose proof (Qlt_floor x) as Hx2.
  pose proof (Qfloor_le y) as Hy1. pose proof (Qlt_floor y) as Hy2.
  destruct (Z.eq_dec (Qfloor x) (Qfloor y)) as [Heq|Hne].
  - rewrite <- Heq in *.
    destruct (Qcompare_spec (x - inject_Z (Qfloor x)) (1 # 2)) as [E1|E1|E1];
      destruct (Qcompare_spec (y - inject_Z (Qfloor x)) (1 # 2)) as [E2|E2|E2];
      try (destruct (Z.even (Qfloor x))); try lia; exfalso; lra.
  - destruct (Qcompare _ _), (Qcompare _ _);
      try (destruct (Z.even (Qfloor x))); try (destruct (Z.even (Qfloor y))); lia.
Qed.

Lemma round_half_even_upper (x : Q) (z : Z) : (x <= inject_Z z)%Q → round_half_even x ≤ z.
Proof. intros Hx. rewrite <- (round_half_even_Z z). by apply round_half_even_mono. Qed.

Lemma round_half_even_lower (x : Q) (z : Z) : (inject_Z z <= x)%Q → z ≤ round_half_even x.
Proof. intros Hx. rewrite <- (round_half_even_Z z). by apply round_half_even_mono. Qed.

(** [nearest] between the powers of 2 around its argument *)
Lemma ulp_exp_bounds (x : Q) :
  (0 < Qabs x)%Q →
  (Qabs x < 2 ^ (ulp_exp x + 53))%Q ∧
  (-1074 < ulp_exp x → (2 ^ (ulp_exp x + 52) <= Qabs x)%Q).
Proof.
  intros Hx. destruct (Qlog2_spec (Qabs x) Hx) as [S1 S2]. unfold ulp_exp. split.
  - apply Qlt_le_trans with (2 ^ (Qlog2 (Qabs x) + 1))%Q; [done|]. apply pow2_le. lia.
  - intros He. replace (Z.max (-1074) (Qlog2 (Qabs x) - 52) + 52) with (Qlog2 (Qabs x)) by lia.
    done.
Qed.

Lemma ulp_exp_mono (x y : Q) : (0 < Qabs x)%Q → (Qabs x <= Qabs y)%Q → ulp_exp x ≤ ulp_exp y.
Proof.
  intros Hx Hxy. pose proof (Qlog2_mono (Qabs x) (Qabs y) Hx Hxy). unfold ulp_exp. lia.
Qed.

Lemma scaled_int (z : Z) (a e : Z) :
  0 ≤ a → (inject_Z z * 2 ^ (a + e) / 2 ^ e == inject_Z (z * 2 ^ a))%Q.
Proof.
  intros Ha. rewrite inject_Z_mult, pow2_Z, pow2_plus by done.
  field. pose proof (pow2_pos e). lra.
Qed.

Lemma nearest_pos_bounds (x : Q) :
  (0 < x)%Q →
  (0 <= nearest x)%Q ∧ (nearest x <= 2 ^ (ulp_exp x + 53))%Q ∧
  (-1074 < ulp_exp x → (2 ^ (ulp_exp x + 52) <= nearest x)%Q).
Proof.
  intros Hx. assert (Ha : (Qabs x == x)%Q) by (apply Qabs_pos; lra).
  destruct (ulp_exp_bounds x ltac:(rewrite Ha; done)) as [B1 B2]. rewrite Ha in B1, B2.
  unfold nearest. set (e := ulp_exp x) in *. pose proof (pow2_pos e) as He.
  split_and!.
  - apply Qmult_le_0_compat; [|lra]. change 0%Q with (inject_Z 0). rewrite <- Zle_Qle.
    apply round_half_even_lower. change (inject_Z 0) with 0%Q.
    apply Qle_shift_div_l; [done|]. rewrite Qmult_0_l. lra.
  - apply Qle_trans with (inject_Z (2 ^ 53) * 2 ^ e)%Q.
    + apply Qmult_le_compat_r; [|lra]. rewrite <- Zle_Qle. apply round_half_even_upper.
      rewrite pow2_Z by lia. apply Qle_shift_div_r; [done|].
      rewrite <- pow2_plus. replace (53 + e) with (e + 53) by lia. lra.
    + rewrite pow2_Z, <- pow2_plus by lia. replace (53 + e) with (e + 53) by lia.
      apply Qle_refl.
  - intros Hn. specialize (B2 Hn).
    apply Qle_trans with (inject_Z (2 ^ 52) * 2 ^ e)%Q.
    + rewrite pow2_Z, <- pow2_plus by lia. replace (52 + e) with (e + 52) by lia.
      apply Qle_refl.
    + apply Qmult_le_compat_r; [|lra]. rewrite <- Zle_Qle. apply round_half_even_lower.
      rewrite pow2_Z by lia. apply Qle_shift_div_l; [done|].
      rewrite <- pow2_plus. replace (52 + e) with (e + 52) by lia. done.
Qed.

Lemma nearest_neg_bounds (x : Q) :
  (x < 0)%Q →
  (nearest x <= 0)%Q ∧ (- 2 ^ (ulp_exp x + 53) <= nearest x)%Q ∧
  (-1074 < ulp_exp x → (nearest x <= - 2 ^ (ulp_exp x + 52))%Q).
Proof.
  intros Hx. assert (Ha : (Qabs x == - x)%Q) by (apply Qabs_neg; lra).
  destruct (ulp_exp_bounds x ltac:(rewrite Ha; lra)) as [B1 B2]. rewrite Ha in B1, B2.
  unfold nearest. set (e := ulp_exp x) in *. pose proof (pow2_pos e) as He.
  assert (Hopp : ∀ z : Z, (- (inject_Z z * 2 ^ e) == inject_Z (- z) * 2 ^ e)%Q).
  { intros z. rewrite inject_Z_opp. ring. }
  split_and!.
  - apply Qle_trans with (inject_Z 0 * 2 ^ e)%Q; [|rewrite Qmult_0_l; apply Qle_refl].
    apply Qmult_le_compat_r; [|lra]. rewrite <- Zle_Qle. apply round_half_even_upper.
    change (inject_Z 0) with 0%Q. apply Qle_shift_div_r; [done|]. rewrite Qmult_0_l. lra.
  - apply Qle_trans with (inject_Z (- 2 ^ 53) * 2 ^ e)%Q.
    + rewrite <- Hopp, pow2_Z, <- pow2_plus by lia. replace (53 + e) with (e + 53) by lia.
      apply Qle_refl.
    + apply Qmult_le_compat_r; [|lra]. rewrite <- Zle_Qle. apply round_half_even_lower.
      rewrite inject_Z_opp, pow2_Z by lia. apply Qle_shift_div_l; [done|].
      setoid_replace (- 2 ^ 53 * 2 ^ e)%Q with (- (2 ^ 53 * 2 ^ e))%Q using relation Qeq
        by ring.
      rewrite <- pow2_plus. replace (53 + e) with (e + 53) by lia. lra.
  - intros Hn. specialize (B2 Hn).
    apply Qle_trans with (inject_Z (- 2 ^ 52) * 2 ^ e)%Q.
    + apply Qmult_le_compat_r; [|lra]. rewrite <- Zle_Qle. apply round_half_even_upper.
      rewrite inject_Z_opp, pow2_Z by lia. apply Qle_shift_div_r; [done|].
      setoid_replace (- 2 ^ 52 * 2 ^ e)%Q with (- (2 ^ 52 * 2 ^ e))%Q using relation Qeq
        by ring.
      rewrite <- pow2_plus. replace (52 + e) with (e + 52) by lia. lra.
    + rewrite <- Hopp, pow2_Z, <- pow2_plus by lia. replace (52 + e) with (e + 52) by lia.
      apply Qle_refl.
Qed.

Lemma nearest_0 (x : Q) : (x == 0)%Q → (nearest x == 0)%Q.
Proof.
  intros Hx. unfold nearest.
  rewrite (round_half_even_comp (x / 2 ^ ulp_exp x) (inject_Z 0)).
  - rewrite round_half_even_Z. ring.
  - transitivity (0 / 2 ^ ulp_exp x)%Q.
    + apply Qmult_comp; [exact Hx|reflexivity].
    + unfold Qdiv. apply Qmult_0_l.
Qed.

Lemma nearest_same_exp (x y : Q) :
  (x <= y)%Q → ulp_exp x = ulp_exp y → (nearest x <= nearest y)%Q.
Proof.
  intros Hxy He. unfold nearest. rewrite He. pose proof (pow2_pos (ulp_exp y)).
  apply Qmult_le_compat_r; [|lra]. rewrite <- Zle_Qle. apply round_half_even_mono.
  by apply scale_le.
Qed.

Lemma nearest_mono (x y : Q) : (x <= y)%Q → (nearest x <= nearest y)%Q.
Proof.
  intros Hxy.
  destruct (Qlt_le_dec 0 x) as [Hx|Hx]; [|destruct (Qlt_le_dec y 0) as [Hy|Hy]].
  - assert (Hy : (0 < y)%Q) by lra.
    assert (Ex : (Qabs x == x)%Q) by (apply Qabs_pos; lra).
    assert (Ey : (Qabs y == y)%Q) by (apply Qabs_pos; lra).
    pose proof (ulp_exp_mono x y ltac:(rewrite Ex; done) ltac:(rewrite Ex, Ey; done)) as He.
    destruct (Z.eq_dec (ulp_exp x) (ulp_exp y)) as [Heq|Hne];
      [by apply nearest_same_exp|].
    destruct (nearest_pos_bounds x Hx) as (_ & X2 & _).
    destruct (nearest_pos_bounds y Hy) as (_ & _ & Y3).
    assert (-1074 ≤ ulp_exp x) by (unfold ulp_exp; lia).
    specialize (Y3 ltac:(lia)).
    pose proof (pow2_le (ulp_exp x + 53) (ulp_exp y + 52) ltac:(lia)). lra.
  - assert (Hx' : (x < 0)%Q) by lra.
    assert (Ex : (Qabs x == - x)%Q) by (apply Qabs_neg; lra).
    assert (Ey : (Qabs y == - y)%Q) by (apply Qabs_neg; lra).
    pose proof (ulp_exp_mono y x ltac:(rewrite Ey; lra) ltac:(rewrite Ex, Ey; lra)) as He.
    destruct (Z.eq_dec (ulp_exp x) (ulp_exp y)) as [Heq|Hne];
      [by apply nearest_same_exp|].
    destruct (nearest_neg_bounds x Hx') as (_ & _ & X3).
    destruct (nearest_neg_bounds y Hy) as (_ & Y2 & _).
    assert (-1074 ≤ ulp_exp y) by (unfold ulp_exp; lia).
    specialize (X3 ltac:(lia)).
    pose proof (pow2_le (ulp_exp y + 53) (ulp_exp x + 52) ltac:(lia)). lra.
  - assert (Hlow : (nearest x <= 0)%Q).
    { destruct (Qeq_dec x 0) as [E|E]; [rewrite (nearest_0 x E); apply Qle_refl|].
      apply nearest_neg_bounds. apply Qle_lteq in Hx as [Hx|Hx]; [done|contradiction]. }
    assert (Hup : (0 <= nearest y)%Q).
    { destruct (Qeq_dec y 0) as [E|E]; [rewrite (nearest_0 y E); apply Qle_refl|].
      apply nearest_pos_bounds. apply Qle_lteq in Hy as [Hy|Hy]; [done|].
      symmetry in Hy. contradiction. }
    lra.
Qed.

Lemma b64_comp (x y : Q) : (x == y)%Q → b64 x = b64 y.
Proof. intros E. unfold b64. by rewrite (Qred_complete x y E). Qed.

Lemma b64_mono (x y : Q) : (x <= y)%Q → (b64 x <= b64 y)%Q.
Proof.
  intros Hxy.
  assert (H1 : (Qred x <= Qred y)%Q).
  { pose proof (Qred_correct x). pose proof (Qred_correct y). lra. }
  pose proof (nearest_mono _ _ H1).
  pose proof (Qred_correct (nearest (Qred x))).
  pose proof (Qred_correct (nearest (Qred y))). unfold b64. lra.
Qed.


(** Binary64 numbers are left as they are *)
Lemma nearest_int (x : Q) (k : Z) :
  (x / 2 ^ ulp_exp x == inject_Z k)%Q → (nearest x == x)%Q.
Proof.
  intros Hk. unfold nearest. rewrite (round_half_even_comp _ _ Hk), round_half_even_Z.
  transitivity (x / 2 ^ ulp_exp x * 2 ^ ulp_exp x)%Q; [|apply scale_back].
  apply Qmult_comp; [by symmetry|reflexivity].
Qed.

Lemma Qabs_scaled (m e : Z) : (Qabs (inject_Z m * 2 ^ e) == inject_Z (Z.abs m) * 2 ^ e)%Q.
Proof.
  rewrite Qabs_Qmult. apply Qmult_comp.
  - unfold Qabs, inject_Z. reflexivity.
  - apply Qabs_pos, Qlt_le_weak, pow2_pos.
Qed.

Lemma ulp_exp_small (z : Q) (m e : Z) :
  (z == inject_Z m * 2 ^ e)%Q → -1074 ≤ e → 0 < Z.abs m < 2 ^ 53 → ulp_exp z ≤ e.
Proof.
  intros Hz He Hm.
  assert (Ha : (Qabs z == inject_Z (Z.abs m) * 2 ^ e)%Q).
  { transitivity (Qabs (inject_Z m * 2 ^ e)); [by apply Qabs_wd|apply Qabs_scaled]. }
  pose proof (Z.log2_spec (Z.abs m) ltac:(lia)) as [L1 L2].
  pose proof (Z.log2_nonneg (Z.abs m)) as L0.
  assert (L3 : Z.log2 (Z.abs m) < 53) by (apply Z.log2_lt_pow2; lia).
  rewrite <- Z.add_1_r in L2. pose proof (pow2_pos e) as Hp.
  assert (Hlog : Qlog2 (Qabs z) = Z.log2 (Z.abs m) + e).
  { apply Qlog2_unique.
    - rewrite Ha, pow2_plus.
      apply Qmult_le_compat_r; [|lra].
      rewrite <- (pow2_Z (Z.log2 (Z.abs m))) by done. by rewrite <- Zle_Qle.
    - rewrite Ha. replace (Z.log2 (Z.abs m) + e + 1) with (Z.log2 (Z.abs m) + 1 + e) by lia.
      rewrite pow2_plus.
      apply Qmult_lt_compat_r; [done|].
      rewrite <- (pow2_Z (Z.log2 (Z.abs m) + 1)) by lia. by rewrite <- Zlt_Qlt. }
  unfold ulp_exp. rewrite Hlog. lia.
Qed.

Lemma nearest_fixed_strict (z : Q) (m e : Z) :
  (z == inject_Z m * 2 ^ e)%Q → -1074 ≤ e → 0 < Z.abs m < 2 ^ 53 → (nearest z == z)%Q.
Proof.
  intros Hz He Hm. pose proof (ulp_exp_small z m e Hz He Hm) as Hu.
  apply (nearest_int z (m * 2 ^ (e - ulp_exp z))).
  rewrite <- (scaled_int m (e - ulp_exp z) (ulp_exp z)) by lia.
  replace (e - ulp_exp z + ulp_exp z) with e by lia.
  apply Qmult_comp; [done|reflexivity].
Qed.

Lemma nearest_fixed (z : Q) (m e : Z) :
  (z == inject_Z m * 2 ^ e)%Q → -1074 ≤ e → Z.abs m ≤ 2 ^ 53 → (nearest z == z)%Q.
Proof.
  intros Hz He Hm. destruct (Z.eq_dec m 0) as [->|Hne].
  - assert (E : (z == 0)%Q) by (rewrite Hz; ring). rewrite (nearest_0 z E). by symmetry.
  - destruct (Z.eq_dec (Z.abs m) (2 ^ 53)) as [Hmax|Hlt].
    + apply (nearest_fixed_strict z (m / 2) (e + 1)); [|lia|].
      * rewrite Hz, pow2_plus.
        assert (Hm2 : m = m / 2 * 2).
        { assert (m = 2 ^ 53 ∨ m = - 2 ^ 53) as [->| ->] by lia; reflexivity. }
        rewrite Hm2 at 1. rewrite inject_Z_mult. change (2 ^ 1)%Q with 2%Q.
        change (inject_Z 2) with 2%Q. ring.
      * assert (m = 2 ^ 53 ∨ m = - 2 ^ 53) as [->| ->] by lia; done.
    + apply (nearest_fixed_strict z m e); [done|done|lia].
Qed.

Lemma nearest_representable (x : Q) :
  ∃ m, nearest x = (inject_Z m * 2 ^ ulp_exp x)%Q ∧ Z.abs m ≤ 2 ^ 53.
Proof.
  exists (round_half_even (x / 2 ^ ulp_exp x)). split; [done|].
  pose proof (pow2_pos (ulp_exp x)) as Hp.
  destruct (Qeq_dec x 0) as [E|E].
  - rewrite (round_half_even_comp _ (inject_Z 0)), round_half_even_Z; [done|].
    transitivity (0 / 2 ^ ulp_exp x)%Q.
    + apply Qmult_comp; [exact E|reflexivity].
    + unfold Qdiv. apply Qmult_0_l.
  - assert (Ha : (0 < Qabs x)%Q).
    { destruct (Qlt_le_dec 0 x) as [Hx|Hx].
      - rewrite Qabs_pos; lra.
      - rewrite Qabs_neg by done. apply Qle_lteq in Hx as [Hx|Hx]; [lra|contradiction]. }
    destruct (ulp_exp_bounds x Ha) as [B1 _].
    assert (Hscaled : (- inject_Z (2 ^ 53) <= x / 2 ^ ulp_exp x <= inject_Z (2 ^ 53))%Q).
    { rewrite pow2_Z by lia.
      replace (ulp_exp x + 53) with (53 + ulp_exp x) in B1 by lia.
      rewrite pow2_plus in B1.
      split.
      - apply Qle_shift_div_l; [done|]. pose proof (Qle_Qabs (- x)) as Hq.
        rewrite Qabs_opp in Hq. lra.
      - apply Qle_shift_div_r; [done|]. pose proof (Qle_Qabs x). lra. }
    destruct Hscaled as [S1 S2]. rewrite <- inject_Z_opp in S1.
    apply round_half_even_lower in S1. apply round_half_even_upper in S2. lia.
Qed.

Lemma ulp_exp_min (x : Q) : -1074 ≤ ulp_exp x.
Proof. unfold ulp_exp. lia. Qed.


Lemma b64_idem (x : Q) : b64 (b64 x) = b64 x.
Proof.
  unfold b64 at 1. destruct (nearest_representable (Qred x)) as (m & Hm & Hb).
  set (v := b64 x). apply Qred_complete.
  assert (Hv : (Qred v == inject_Z m * 2 ^ ulp_exp (Qred x))%Q).
  { rewrite Qred_correct. unfold v, b64. rewrite Qred_correct, Hm. reflexivity. }
  rewrite (nearest_fixed (Qred v) m (ulp_exp (Qred x)) Hv (ulp_exp_min _) Hb).
  rewrite Hv, Hm. reflexivity.
Qed.

Lemma round_dec_comp (d : nat) (x y : Q) : (x == y)%Q → round_dec d x = round_dec d y.
Proof.
  intros E. unfold round_dec. apply Qred_complete.
  rewrite (round_half_even_comp (x * inject_Z (10 ^ Z.of_nat d))
             (y * inject_Z (10 ^ Z.of_nat d))); [done|].
  apply Qmult_comp; [exact E|reflexivity].
Qed.

Lemma round_dec_0 (d : nat) (x : Q) : (x == 0)%Q → round_dec d x = 0%Q.
Proof.
  intros E. rewrite (round_dec_comp d x 0 E). unfold round_dec.
  transitivity (Qred 0); [|done]. apply Qred_complete.
  rewrite (round_half_even_comp (0 * inject_Z (10 ^ Z.of_nat d)) 0 (Qmult_0_l _)).
  change (round_half_even 0) with 0. apply Qmult_0_l.
Qed.

Lemma b64_between_0_1 (x : Q) : (0 <= x <= 1)%Q → (0 <= b64 x <= 1)%Q.
Proof.
  intros [H0 H1]. split.
  - apply Qle_trans with (b64 0); [by vm_compute|by apply b64_mono].
  - apply Qle_trans with (b64 1); [by apply b64_mono|by vm_compute].
Qed.

Lemma b64_of_0 (x : Q) : (x == 0)%Q → b64 x = 0%Q.
Proof. intros E. by rewrite (b64_comp x 0 E). Qed.

Lemma is_b64_b64 (x : Q) : is_b64 (b64 x).
Proof. unfold is_b64. by rewrite b64_idem. Qed.



End Binary64.

(** ** The UDP client: facts about the state *)

Section ClientFacts.

Context `{Builtins}.
Import A3_Client Spec.

Lemma preserved_refl c : preserved c c.
Proof. unfold preserved; auto 10. Qed.

Lemma preserved_trans c1 c2 c3 :
  preserved c1 c2 → preserved c2 c3 → preserved c1 c3.
Proof.
  unfold preserved.
  intros (A1 & A2 & A3 & A4 & A5 & A6) (B1 & B2 & B3 & B4 & B5 & B6).
  repeat split; try congruence.
  - by apply B6, A6.
  - destruct (A6 _ _ H0) as [P W]. destruct (B6 _ _ P) as [P' W']. congruence.
Qed.

Lemma say_fields v p c :
  sent_count (say v p c) = sent_count c ∧ ack_count (say v p c) = ack_count c ∧
  seen_seqs (say v p c) = seen_seqs c ∧ send_perf (say v p c) = send_perf c ∧
  send_wall (say v p c) = send_wall c ∧ ack_perf (say v p c) = ack_perf c ∧
  ack_wall (say v p c) = ack_wall c ∧ finalized (say v p c) = finalized c ∧
  csv (say v p c) = csv c ∧ datagrams (say v p c) = datagrams c.
Proof. destruct v; cbn; auto 12. Qed.

Lemma say_preserved v p c : preserved c (say v p c).
Proof.
  destruct (say_fields v p c) as (A1 & A2 & A3 & A4 & A5 & A6 & A7 & A8 & A9 & A10).
  unfold preserved. rewrite A1, A3, A4, A5, A6, A7, A10. auto 10.
Qed.

Lemma observe_fields v s tp tw c :
  sent_count (observe v s tp tw c) = sent_count c ∧
  ack_count (observe v s tp tw c) = ack_count c ∧
  finalized (observe v s tp tw c) = finalized c ∧
  csv (observe v s tp tw c) = csv c.
Proof.
  unfold observe. destruct (ack_perf c !! s); [auto|].
  destruct (send_perf c !! s); [|cbn; auto].
  destruct v; cbn; auto.
Qed.

(** Only the first observation of an acknowledgment is stored. *)
Lemma observe_preserved v s tp tw c : preserved c (observe v s tp tw c).
Proof.
  unfold observe. destruct (ack_perf c !! s) eqn:E; [apply preserved_refl|].
  assert (P : preserved c
    (Client (sent_count c) (ack_count c) (seen_seqs c) (send_perf c)
       (send_wall c) (<[s := tp]> (ack_perf c)) (<[s := tw]> (ack_wall c))
       (finalized c) (csv c) (datagrams c) (stdout c))).
  { unfold preserved; cbn. repeat split; auto.
    all: destruct (decide (s = s0)) as [->|Hne]; [congruence|].
    all: by rewrite lookup_insert_ne. }
  destruct (send_perf c !! s); [|exact P].
  eapply preserved_trans; [exact P|apply say_preserved].
Qed.

Lemma observe_stored v s tp tw c : is_Some (ack_perf (observe v s tp tw c) !! s).
Proof.
  unfold observe. destruct (ack_perf c !! s) eqn:E; [by rewrite E|].
  destruct (send_perf c !! s); [destruct v|]; cbn; rewrite lookup_insert_eq; eauto.
Qed.

Lemma finalize_done seq o c : seq ∈ finalized c → finalize seq o c = c.
Proof. intros Hin. unfold finalize. by rewrite decide_True. Qed.

Lemma finalize_acked_fresh seq c :
  seq ∉ finalized c →
  csv (finalize seq ACKED c) = csv c ++ [acked_row seq c] ∧
  finalized (finalize seq ACKED c) = {[seq]} ∪ finalized c.
Proof. intros Hn. unfold finalize. rewrite decide_False by done. cbn. done. Qed.

Lemma finalize_timeout_fresh seq c :
  seq ∉ finalized c →
  csv (finalize seq TIMEOUT c) = csv c ++ [timeout_row seq c] ∧
  finalized (finalize seq TIMEOUT c) = {[seq]} ∪ finalized c.
Proof. intros Hn. unfold finalize. rewrite decide_False by done. cbn. done. Qed.

Lemma finalize_preserved seq o c :
  preserved c (finalize seq o c) ∧ ack_count (finalize seq o c) = ack_count c
  ∧ ack_perf (finalize seq o c) = ack_perf c ∧ ack_wall (finalize seq o c) = ack_wall c.
Proof.
  unfold finalize. destruct (decide (seq ∈ finalized c)).
  - split; [apply preserved_refl|done].
  - cbn. split; [|done]. unfold preserved; cbn. auto 10.
Qed.

Lemma count_ack_preserved c : preserved c (count_ack c).
Proof. unfold preserved; cbn. auto 10. Qed.

Lemma acked_row_ext seq c c' :
  send_perf c' = send_perf c → send_wall c' = send_wall c →
  ack_perf c' = ack_perf c → ack_wall c' = ack_wall c →
  acked_row seq c' = acked_row seq c.
Proof. intros E1 E2 E3 E4. unfold acked_row. by rewrite E1, E2, E3, E4. Qed.

(** The wait loop either finalizes the awaited number as ACKED, from the
    stored observation, or leaves the log alone. *)
Lemma wait_loop_spec v seq dl its : ∀ c c' got,
  wait_loop v seq dl its c = (c', got) →
  preserved c c' ∧
  (if got
   then (seq ∉ finalized c) ∧ is_Some (ack_perf c' !! seq) ∧
        csv c' = csv c ++ [acked_row seq c'] ∧
        finalized c' = {[seq]} ∪ finalized c ∧
        ack_count c' = ack_count c + 1
   else csv c' = csv c ∧ finalized c' = finalized c ∧ ack_count c' = ack_count c).
Proof.
  induction its as [|it rest IH]; intros c c' got; cbn [wait_loop].
  - intros [= <- <-]. split; [apply preserved_refl|done].
  - destruct (Qle_bool (dl - now_head it) 0).
    { intros [= <- <-]. split; [apply preserved_refl|done]. }
    assert (Hskip : wait_loop v seq dl rest (say v PRxError c) = (c', got) →
      preserved c c' ∧
      (if got
       then (seq ∉ finalized c) ∧ is_Some (ack_perf c' !! seq) ∧
            csv c' = csv c ++ [acked_row seq c'] ∧
            finalized c' = {[seq]} ∪ finalized c ∧
            ack_count c' = ack_count c + 1
       else csv c' = csv c ∧ finalized c' = finalized c ∧ ack_count c' = ack_count c)).
    { intros Hw. apply IH in Hw as [P Q].
      destruct (say_fields v PRxError c) as (A1 & A2 & A3 & A4 & A5 & A6 & A7 & A8 & A9 & A10).
      split; [eapply preserved_trans; [apply say_preserved|exact P]|].
      rewrite A2, A8, A9 in Q. exact Q. }
    destruct (rx it) as [payload tp tw| |]; [|intros [= <- <-]; split; [apply preserved_refl|done]|exact Hskip].
    destruct (ack_seq payload) as [s|]; [|exact Hskip].
    destruct (observe_fields v s tp tw c) as (O1 & O2 & O3 & O4).
    pose proof (observe_preserved v s tp tw c) as OP.
    destruct (decide (s = seq ∧ seq ∉ finalized (observe v s tp tw c))) as [[-> Hnf]|Hno].
    + intros [= <- <-].
      set (c1 := observe v seq tp tw c) in *.
      destruct (finalize_preserved seq ACKED (count_ack c1)) as (FP & F1 & F2 & F3).
      destruct (finalize_acked_fresh seq (count_ack c1) Hnf) as [F4 F5].
      split.
      { eapply preserved_trans; [exact OP|].
        eapply preserved_trans; [apply count_ack_preserved|exact FP]. }
      rewrite O3 in Hnf. split; [done|]. split.
      { rewrite F2. cbn. apply observe_stored. }
      rewrite F4, F5, F1. cbn. rewrite O4, O3, O2. split; [|done].
      f_equal. f_equal. symmetry.
      destruct FP as (_ & _ & E1 & E2 & _).
      apply acked_row_ext; [by rewrite E1|by rewrite E2|by rewrite F2|by rewrite F3].
    + intros Hw. apply IH in Hw as [P Q].
      split; [eapply preserved_trans; [exact OP|exact P]|].
      rewrite O2, O3, O4 in Q. exact Q.
Qed.

Lemma timeout_row_ext seq c c' :
  send_wall c' = send_wall c → timeout_row seq c' = timeout_row seq c.
Proof. intros E. unfold timeout_row. by rewrite E. Qed.

(** Lines 92 to 98, after a wait loop that left the log alone. *)
Lemma after_wait_spec v seq c :
  seq ∉ finalized c →
  let c' := after_wait v seq false c in
  preserved c c' ∧ ack_perf c' = ack_perf c ∧
  finalized c' = {[seq]} ∪ finalized c ∧
  match ack_perf c !! seq with
  | Some _ => csv c' = csv c ++ [acked_row seq c'] ∧ ack_count c' = ack_count c + 1
  | None => csv c' = csv c ++ [timeout_row seq c'] ∧ ack_count c' = ack_count c
  end.
Proof.
  intros Hnf. unfold after_wait. rewrite decide_False by done.
  destruct (ack_perf c !! seq) eqn:E.
  - destruct (finalize_preserved seq ACKED (count_ack c)) as (FP & F1 & F2 & F3).
    destruct (finalize_acked_fresh seq (count_ack c) Hnf) as [F4 F5].
    cbn zeta. split; [eapply preserved_trans; [apply count_ack_preserved|exact FP]|].
    rewrite F2, F4, F5, F1. cbn. repeat split; try done.
    f_equal. f_equal. symmetry.
    destruct FP as (_ & _ & E1 & E2 & _).
    apply acked_row_ext; [by rewrite E1|by rewrite E2|by rewrite F2|by rewrite F3].
  - destruct (finalize_preserved seq TIMEOUT c) as (FP & F1 & F2 & F3).
    destruct (finalize_timeout_fresh seq c Hnf) as [F4 F5].
    destruct (say_fields v (PTimeout seq) (finalize seq TIMEOUT c))
      as (A1 & A2 & A3 & A4 & A5 & A6 & A7 & A8 & A9 & A10).
    cbn zeta. split; [eapply preserved_trans; [exact FP|apply say_preserved]|].
    rewrite A6, A8, A9, A2, F2, F4, F5, F1. repeat split; try done.
    f_equal. f_equal. symmetry. apply timeout_row_ext.
    rewrite A5. by destruct FP as (_ & _ & _ & -> & _).
Qed.

(** One turn that gets its probe out: the bookkeeping of the send, and one
    new row for the awaited number, ACKED exactly when an observation
    time for it is stored by the end of the turn. *)
Lemma turn_step_spec a seq t c :
  seq ∉ seen_seqs c → t_send_ok t = true →
  ∃ c', turn_step a seq t c = Finished c' ∧
    sent_count c' = sent_count c + 1 ∧
    seen_seqs c' = {[seq]} ∪ seen_seqs c ∧
    send_perf c' = <[seq := t_send_perf t]> (send_perf c) ∧
    send_wall c' = <[seq := t_send_wall t]> (send_wall c) ∧
    datagrams c' = datagrams c ++ [probe seq (t_send_wall t)] ∧
    (∀ s x, ack_perf c !! s = Some x →
            ack_perf c' !! s = Some x ∧ ack_wall c' !! s = ack_wall c !! s) ∧
    (if decide (seq ∈ finalized c)
     then csv c' = csv c ∧ finalized c' = finalized c ∧ ack_count c' = ack_count c
     else finalized c' = {[seq]} ∪ finalized c ∧
          match ack_perf c' !! seq with
          | Some _ => csv c' = csv c ++ [acked_row seq c'] ∧ ack_count c' = ack_count c + 1
          | None => csv c' = csv c ++ [timeout_row seq c'] ∧ ack_count c' = ack_count c
          end).
Proof.
  intros Hseen Hok. unfold turn_step. rewrite decide_False by done. rewrite Hok. cbn [negb].
  set (c2 := say (verbose a) (PSent seq) (transmitted seq t (record_send seq t c))).
  destruct (say_fields (verbose a) (PSent seq) (transmitted seq t (record_send seq t c)))
    as (A1 & A2 & A3 & A4 & A5 & A6 & A7 & A8 & A9 & A10).
  fold c2 in A1, A2, A3, A4, A5, A6, A7, A8, A9, A10.
  cbn in A1, A2, A3, A4, A5, A6, A7, A8, A9, A10.
  destruct (wait_loop (verbose a) seq (t_deadline_perf t + timeout a)%Q (t_iters t) c2)
    as [c3 got] eqn:W.
  apply wait_loop_spec in W as [(B1 & B2 & B3 & B4 & B5 & B6) Q].
  assert (M : ∀ s x, ack_perf c !! s = Some x →
            ack_perf c3 !! s = Some x ∧ ack_wall c3 !! s = ack_wall c !! s).
  { intros s x Hs. rewrite <- A6 in Hs. rewrite <- A7. by apply B6. }
  destruct got.
  - destruct Q as (Hnf & Hsome & Q1 & Q2 & Q3).
    exists c3. cbn [after_wait]. split; [done|].
    rewrite B1, B2, B3, B4, B5, A1, A3, A4, A5, A10. split_and!; try done.
    rewrite A8 in Hnf. rewrite decide_False by done.
    rewrite Q2, A8. split; [done|].
    destruct Hsome as [x ->]. by rewrite Q1, Q3, A9, A2.
  - destruct Q as (Q1 & Q2 & Q3).
    destruct (decide (seq ∈ finalized c)) as [Hf|Hnf].
    + exists c3. unfold after_wait. rewrite decide_True by (by rewrite Q2, A8).
      split; [done|].
      rewrite B1, B2, B3, B4, B5, A1, A3, A4, A5, A10, Q1, Q2, Q3, A9, A8, A2.
      split_and!; done.
    + assert (Hnf3 : seq ∉ finalized c3) by (by rewrite Q2, A8).
      destruct (after_wait_spec (verbose a) seq c3 Hnf3)
        as ((D1 & D2 & D3 & D4 & D5 & D6) & D8 & D9 & D10).
      eexists. split; [reflexivity|].
      rewrite D1, D2, D3, D4, D5, B1, B2, B3, B4, B5, A1, A3, A4, A5, A10.
      split_and!; try done.
      * intros s x Hs. destruct (M _ _ Hs) as [M1 M2].
        destruct (D6 _ _ M1) as [D61 D62]. split; congruence.
      * by rewrite D9, Q2, A8.
      * rewrite D8.
        destruct (ack_perf c3 !! seq); by rewrite Q1, Q3, A9, A2 in D10.
Qed.

Lemma observe_origin v s tp tw c s' a :
  ack_perf (observe v s tp tw c) !! s' = Some a →
  ack_perf c !! s' = Some a ∨ (s' = s ∧ a = tp).
Proof.
  unfold observe. destruct (ack_perf c !! s) eqn:E; [auto|].
  assert (G : (<[s := tp]> (ack_perf c)) !! s' = Some a →
              ack_perf c !! s' = Some a ∨ (s' = s ∧ a = tp)).
  { destruct (decide (s = s')) as [->|Hne].
    - rewrite lookup_insert_eq. intros [= ->]. auto.
    - rewrite lookup_insert_ne by done. auto. }
  destruct (send_perf c !! s); [destruct v|]; exact G.
Qed.

(** A stored observation time is the monotonic reading taken on receipt
    of a datagram that acknowledges the number. *)
Lemma wait_loop_origin v seq dl its : ∀ c c' got s a,
  wait_loop v seq dl its c = (c', got) →
  ack_perf c' !! s = Some a →
  ack_perf c !! s = Some a ∨
  ∃ it p tw, In it its ∧ rx it = RxData p a tw ∧ ack_seq p = Some s.
Proof.
  induction its as [|it rest IH]; intros c c' got s a; cbn [wait_loop].
  - intros [= <- <-]. auto.
  - destruct (Qle_bool (dl - now_head it) 0); [intros [= <- <-]; auto|].
    assert (Hskip : wait_loop v seq dl rest (say v PRxError c) = (c', got) →
      ack_perf c' !! s = Some a →
      ack_perf c !! s = Some a ∨
      ∃ it0 p tw, In it0 (it :: rest) ∧ rx it0 = RxData p a tw ∧ ack_seq p = Some s).
    { intros Hw Ha. destruct (IH _ _ _ _ _ Hw Ha) as [Hold|(it0 & p & tw & Hin & Hrx & Hp)].
      - left. destruct (say_fields v PRxError c) as (_ & _ & _ & _ & _ & A6 & _).
        by rewrite A6 in Hold.
      - right. exists it0, p, tw. split; [by right|done]. }
    destruct (rx it) as [payload tp tw| |] eqn:Erx; [|intros [= <- <-]; auto|exact Hskip].
    destruct (ack_seq payload) as [s0|] eqn:Es; [|exact Hskip].
    assert (Hobs : ack_perf (observe v s0 tp tw c) !! s = Some a →
      ack_perf c !! s = Some a ∨
      ∃ it0 p tw0, In it0 (it :: rest) ∧ rx it0 = RxData p a tw0 ∧ ack_seq p = Some s).
    { intros Ho. destruct (observe_origin _ _ _ _ _ _ _ Ho) as [Hold|[-> ->]]; [auto|].
      right. exists it, payload, tw. split; [by left|done]. }
    destruct (decide (s0 = seq ∧ seq ∉ finalized (observe v s0 tp tw c))) as [[-> Hnf]|Hno].
    + intros [= <- <-].
      destruct (finalize_preserved seq ACKED (count_ack (observe v seq tp tw c)))
        as (_ & _ & F2 & _).
      rewrite F2. cbn. exact Hobs.
    + intros Hw Ha. destruct (IH _ _ _ _ _ Hw Ha) as [Hold|(it0 & p & tw0 & Hin & Hrx & Hp)].
      * by apply Hobs.
      * right. exists it0, p, tw0. split; [by right|done].
Qed.

Lemma turn_step_origin a seq t c c' s x :
  turn_step a seq t c = Finished c' →
  ack_perf c' !! s = Some x →
  ack_perf c !! s = Some x ∨
  ∃ it p tw, In it (t_iters t) ∧ rx it = RxData p x tw ∧ ack_seq p = Some s.
Proof.
  unfold turn_step. destruct (decide (seq ∈ seen_seqs c)); [done|].
  destruct (negb (t_send_ok t)); [done|].
  set (c2 := say (verbose a) (PSent seq) (transmitted seq t (record_send seq t c))).
  destruct (say_fields (verbose a) (PSent seq) (transmitted seq t (record_send seq t c)))
    as (_ & _ & _ & _ & _ & A6 & _).
  fold c2 in A6. cbn in A6.
  destruct (wait_loop (verbose a) seq (t_deadline_perf t + timeout a)%Q (t_iters t) c2)
    as [c3 got] eqn:W.
  intros [= <-] Hx.
  assert (H3 : ack_perf c3 !! s = Some x).
  { destruct got; [exact Hx|]. unfold after_wait in Hx.
    destruct (decide (seq ∈ finalized c3)); [exact Hx|].
    destruct (ack_perf c3 !! seq).
    - destruct (finalize_preserved seq ACKED (count_ack c3)) as (_ & _ & F2 & _).
      by rewrite F2 in Hx.
    - destruct (finalize_preserved seq TIMEOUT c3) as (_ & _ & F2 & _).
      destruct (say_fields (verbose a) (PTimeout seq) (finalize seq TIMEOUT c3))
        as (_ & _ & _ & _ & _ & B6 & _).
      by rewrite B6, F2 in Hx. }
  destruct (wait_loop_origin _ _ _ _ _ _ _ _ _ W H3) as [Hold|Hnew]; [|by right].
  left. by rewrite A6 in Hold.
Qed.

Lemma acked_rows_snoc rows r :
  acked_rows (rows ++ [r]) =
  acked_rows rows ++ (if decide (r_outcome r = ACKED) then [r] else []).
Proof. unfold acked_rows. rewrite filter_app. cbn. by destruct (decide _). Qed.

Lemma init_between_turns script : between_turns script 1 init.
Proof.
  unfold between_turns, init; cbn. split_and!; try done.
  - intros s. split; [set_solver|lia].
  - intros s. split; [set_solver|lia].
  - intros s Hs. lia.
Qed.

(** A turn that gets its probe out carries the invariant to the next
    sequence number. *)
Lemma turn_step_between_turns a script m c :
  1 ≤ m → between_turns script m c → t_send_ok (script m) = true →
  ∃ c', turn_step a m (script m) c = Finished c' ∧ between_turns script (m + 1) c'.
Proof.
  intros Hm (I1 & I2 & I3 & I4 & I5 & I6 & I7 & I8) Hok.
  assert (Hseen : m ∉ seen_seqs c) by (rewrite I3; lia).
  assert (Hnf : m ∉ finalized c) by (rewrite I2; lia).
  destruct (turn_step_spec a m (script m) c Hseen Hok)
    as (c' & Hc' & S1 & S2 & S3 & S4 & S5 & S6 & S7).
  rewrite decide_False in S7 by done. destruct S7 as [S7 S8].
  exists c'. split; [done|].
  assert (Hold : ∀ r, In r (csv c) → row_ok script c r → row_ok script c' r).
  { intros r Hin Hr.
    assert (Hlt : 1 ≤ r_seq r < m).
    { apply in_range. rewrite <- I1. by apply in_map. }
    assert (E1 : send_perf c' !! r_seq r = send_perf c !! r_seq r)
      by (rewrite S3, lookup_insert_ne by lia; done).
    assert (E2 : send_wall c' !! r_seq r = send_wall c !! r_seq r)
      by (rewrite S4, lookup_insert_ne by lia; done).
    unfold row_ok in *. destruct (r_outcome r).
    - destruct Hr as (Hr & x & q & Hx & Hq & Hd).
      destruct (S6 _ _ Hx) as [P1 P2]. split.
      + rewrite Hr at 1. unfold acked_row. rewrite E1, E2, P1, P2, Hx. done.
      + exists x, q. done.
    - rewrite Hr at 1. unfold timeout_row. by rewrite E2. }
  assert (Hnew : ∀ x, ack_perf c' !! m = Some x →
            ∃ q, 1 ≤ q ≤ m ∧ delivered script q m x).
  { intros x Hx. destruct (turn_step_origin _ _ _ _ _ _ _ Hc' Hx) as [Ho|Hn].
    - destruct (I7 _ _ Ho) as (q & Hq & Hd). exists q. split; [lia|done].
    - exists m. split; [lia|exact Hn]. }
  assert (Hrows : ∃ r, csv c' = csv c ++ [r] ∧ r_seq r = m ∧ row_ok script c' r ∧
            ack_count c' = ack_count c
              + (if decide (r_outcome r = ACKED) then 1 else 0)).
  { destruct (ack_perf c' !! m) as [x|] eqn:Ex; destruct S8 as [S8 S9].
    - exists (acked_row m c'). split_and!; try done.
      unfold row_ok; cbn. split; [done|].
      destruct (Hnew x eq_refl) as (q & Hq & Hd). exists x, q. done.
    - exists (timeout_row m c'). split_and!; try done.
      rewrite decide_False by done. lia. }
  destruct Hrows as (r & R1 & R2 & R3 & R4).
  unfold between_turns. split_and!.
  - rewrite R1, map_app, I1, range_snoc by lia. cbn. by rewrite R2.
  - intros s. rewrite S7, elem_of_union, elem_of_singleton, I2. lia.
  - intros s. rewrite S2, elem_of_union, elem_of_singleton, I3. lia.
  - lia.
  - rewrite R4, R1, acked_rows_snoc, length_app, I5.
    destruct (decide (r_outcome r = ACKED)); cbn; lia.
  - intros s Hs. rewrite S3, S4. destruct (decide (m = s)) as [->|Hne].
    + by rewrite !lookup_insert_eq.
    + rewrite !lookup_insert_ne by done. apply I6. lia.
  - intros s x Hx. destruct (turn_step_origin _ _ _ _ _ _ _ Hc' Hx) as [Ho|Hn].
    + destruct (I7 _ _ Ho) as (q & Hq & Hd). exists q. split; [lia|done].
    + exists m. split; [lia|exact Hn].
  - rewrite R1. apply Forall_app. split; [|by constructor].
    rewrite Forall_forall in I8. apply Forall_forall.
    intros r' Hin. apply Hold; [by apply list_elem_of_In|by apply I8].
Qed.

Lemma turn_step_send_fails a seq t c :
  seq ∉ seen_seqs c → t_send_ok t = false →
  turn_step a seq t c = Crashed (record_send seq t c).
Proof.
  intros Hseen Hok. unfold turn_step. rewrite decide_False by done. by rewrite Hok.
Qed.

(** The whole loop from sequence number [m] on: it ends between two turns,
    or it stops at the first probe that cannot be sent. *)
Lemma main_loop_range a script (k : nat) : ∀ m c,
  1 ≤ m → between_turns script m c →
  match main_loop a (range m (m + Z.of_nat k)) script c with
  | Finished c' => between_turns script (m + Z.of_nat k) c'
  | Crashed c' =>
      ∃ q cq, m ≤ q < m + Z.of_nat k ∧ between_turns script q cq ∧
              t_send_ok (script q) = false ∧ c' = record_send q (script q) cq
  end.
Proof.
  induction k as [|k IH]; intros m c Hm Hinv.
  - rewrite range_nil by lia. cbn. by rewrite Z.add_0_r.
  - rewrite range_cons by lia. cbn [main_loop].
    destruct (t_send_ok (script m)) eqn:Hok.
    + destruct (turn_step_between_turns a script m c Hm Hinv Hok) as (c' & -> & Hinv').
      specialize (IH (m + 1) c' ltac:(lia) Hinv').
      replace (m + 1 + Z.of_nat k) with (m + Z.of_nat (S k)) in IH by lia.
      destruct (main_loop a (range (m + 1) (m + Z.of_nat (S k))) script c'); [done|].
      destruct IH as (q & cq & Hq & Hrest). exists q, cq. split; [lia|done].
    + rewrite turn_step_send_fails; [|destruct Hinv as (_ & _ & I3 & _); rewrite I3; lia|done].
      exists m, c. split; [lia|done].
Qed.

Lemma run_spec a script :
  match run a script with
  | Finished c' => between_turns script (Z.max 1 (n a + 1)) c'
  | Crashed c' =>
      ∃ q cq, 1 ≤ q ≤ n a ∧ between_turns script q cq ∧
              t_send_ok (script q) = false ∧ c' = record_send q (script q) cq
  end.
Proof.
  unfold run. destruct (Z_le_gt_dec (n a + 1) 1) as [Hle|Hgt].
  - rewrite range_nil by done. cbn. rewrite Z.max_l by lia. apply init_between_turns.
  - pose proof (main_loop_range a script (Z.to_nat (n a)) 1 init ltac:(lia)
                  (init_between_turns script)) as Hloop.
    replace (1 + Z.of_nat (Z.to_nat (n a))) with (n a + 1) in Hloop by lia.
    destruct (main_loop a (range 1 (n a + 1)) script init).
    + by rewrite Z.max_r by lia.
    + destruct Hloop as (q & cq & Hq & Hrest). exists q, cq. split; [lia|done].
Qed.

Lemma grows_refl c : grows c c.
Proof.
  split_and!; [done| |done]. exists []. by rewrite app_nil_r.
Qed.

Lemma grows_trans c1 c2 c3 : grows c1 c2 → grows c2 c3 → grows c1 c3.
Proof.
  intros (A1 & (n1 & A2 & A3) & A4) (B1 & (n2 & B2 & B3) & B4). split_and!.
  - by transitivity (finalized c2).
  - exists (n1 ++ n2). rewrite B2, A2, app_assoc. split; [done|].
    apply Forall_app. split; [done|].
    eapply Forall_impl; [exact B3|]. cbn. intros r Hr Hin. apply Hr. by apply A1.
  - intros s x Hx. destruct (A4 _ _ Hx) as [P1 P2].
    destruct (B4 _ _ P1) as [P3 P4]. split; congruence.
Qed.

Lemma wait_loop_grows v seq dl its c :
  grows c (wait_loop v seq dl its c).1.
Proof.
  destruct (wait_loop v seq dl its c) as [c' got] eqn:W.
  apply wait_loop_spec in W as [(_ & _ & _ & _ & _ & B6) Q]. cbn.
  split_and!; [| |exact B6].
  - destruct got; [destruct Q as (_ & _ & _ & -> & _); apply union_subseteq_r|].
    by destruct Q as (_ & -> & _).
  - destruct got.
    + destruct Q as (Hnf & _ & -> & _). eexists. split; [done|]. by repeat constructor.
    + destruct Q as (-> & _). exists []. by rewrite app_nil_r.
Qed.

Lemma turn_step_grows a seq t c : grows c (state (turn_step a seq t c)).
Proof.
  destruct (decide (seq ∈ seen_seqs c)) as [Hs|Hs].
  { unfold turn_step. rewrite decide_True by done. apply grows_refl. }
  destruct (t_send_ok t) eqn:Hok.
  - destruct (turn_step_spec a seq t c Hs Hok) as (c' & -> & _ & _ & _ & _ & _ & S6 & S7).
    cbn. split_and!; [| |exact S6].
    + destruct (decide (seq ∈ finalized c)); [by destruct S7 as (_ & -> & _)|].
      destruct S7 as [-> _]. apply union_subseteq_r.
    + destruct (decide (seq ∈ finalized c)) as [Hf|Hf].
      * destruct S7 as (-> & _). exists []. by rewrite app_nil_r.
      * destruct S7 as [_ S8].
        destruct (ack_perf c' !! seq); destruct S8 as [-> _];
          (eexists; split; [done|]; by repeat constructor).
  - rewrite turn_step_send_fails by done. cbn.
    split_and!; [done| |done]. exists []. by rewrite app_nil_r.
Qed.

Lemma main_loop_grows a script seqs : ∀ c,
  grows c (state (main_loop a seqs script c)).
Proof.
  induction seqs as [|seq rest IH]; intros c; cbn [main_loop].
  - apply grows_refl.
  - pose proof (turn_step_grows a seq (script seq) c) as G.
    destruct (turn_step a seq (script seq) c) as [c'|c']; cbn in G.
    + eapply grows_trans; [exact G|apply IH].
    + exact G.
Qed.

(** Once a number is finalized, its record stays as it is. *)
Lemma grows_record_of c c' seq :
  grows c c' → seq ∈ finalized c →
  seq ∈ finalized c' ∧ record_of seq (csv c') = record_of seq (csv c).
Proof.
  intros (G1 & (new & -> & G2) & _) Hf. split; [set_solver|].
  unfold record_of. rewrite filter_app.
  assert (E : filter (λ r, r_seq r = seq) new = []).
  { induction G2 as [|r new Hr _ IH]; [done|].
    rewrite filter_cons, decide_False; [exact IH|]. intros <-. done. }
  by rewrite E, app_nil_r.
Qed.









Lemma record_of_range rows : ∀ lo hi seq,
  map r_seq rows = range lo hi → lo ≤ seq < hi →
  ∃ r, record_of seq rows = [r] ∧ r_seq r = seq.
Proof.
  induction rows as [|r rest IH]; intros lo hi seq Hmap Hseq.
  - rewrite range_cons in Hmap by lia. done.
  - rewrite range_cons in Hmap by lia. cbn in Hmap.
    injection Hmap as Hr Hrest. unfold record_of. rewrite filter_cons.
    destruct (decide (r_seq r = seq)) as [Heq|Hne].
    + exists r. split; [|done]. f_equal.
      assert (E : ∀ x, In x rest → r_seq x ≠ seq).
      { intros x Hx. apply (in_map r_seq) in Hx. rewrite Hrest in Hx.
        apply in_range in Hx. lia. }
      clear -E. induction rest as [|y rest IH]; [done|].
      rewrite filter_cons, decide_False by (apply E; by left).
      apply IH. intros x Hx. apply E. by right.
    + apply (IH (lo + 1) hi); [done|lia].
Qed.

(** A datagram received first in a turn and before the deadline is
    observed. *)
Lemma wait_loop_observed v seq dl it rest p tp tw s c :
  rx it = RxData p tp tw → ack_seq p = Some s →
  Qle_bool (dl - now_head it) 0 = false →
  is_Some (ack_perf (wait_loop v seq dl (it :: rest) c).1 !! s).
Proof.
  intros Hrx Hs Hdl. cbn [wait_loop]. rewrite Hdl, Hrx, Hs.
  pose proof (observe_stored v s tp tw c) as [x Hx].
  destruct (decide (s = seq ∧ seq ∉ finalized (observe v s tp tw c))) as [[-> Hnf]|Hno].
  - cbn. destruct (finalize_preserved seq ACKED (count_ack (observe v seq tp tw c)))
      as (_ & _ & F2 & _).
    rewrite F2. cbn. eauto.
  - destruct (wait_loop v seq dl rest (observe v s tp tw c)) as [c' got] eqn:W.
    apply wait_loop_spec in W as [(_ & _ & _ & _ & _ & B6) _]. cbn.
    destruct (B6 _ _ Hx) as [P _]. eauto.
Qed.

Lemma turn_step_observed a seq t it rest p tp tw s c c' :
  t_iters t = it :: rest → rx it = RxData p tp tw → ack_seq p = Some s →
  Qle_bool (t_deadline_perf t + timeout a - now_head it) 0 = false →
  turn_step a seq t c = Finished c' →
  is_Some (ack_perf c' !! s).
Proof.
  intros Hits Hrx Hs Hdl. unfold turn_step.
  destruct (decide (seq ∈ seen_seqs c)); [done|].
  destruct (negb (t_send_ok t)); [done|].
  set (c2 := say (verbose a) (PSent seq) (transmitted seq t (record_send seq t c))).
  rewrite Hits.
  pose proof (wait_loop_observed (verbose a) seq (t_deadline_perf t + timeout a)%Q
                it rest p tp tw s c2 Hrx Hs Hdl) as [x Hx].
  destruct (wait_loop (verbose a) seq (t_deadline_perf t + timeout a)%Q (it :: rest) c2)
    as [c3 got] eqn:W.
  cbn in Hx. intros [= <-].
  destruct got; [eauto|]. unfold after_wait.
  destruct (decide (seq ∈ finalized c3)); [eauto|].
  destruct (ack_perf c3 !! seq).
  - destruct (finalize_preserved seq ACKED (count_ack c3)) as (_ & _ & F2 & _).
    rewrite F2. cbn. eauto.
  - destruct (finalize_preserved seq TIMEOUT c3) as (_ & _ & F2 & _).
    destruct (say_fields (verbose a) (PTimeout seq) (finalize seq TIMEOUT c3))
      as (_ & _ & _ & _ & _ & B6 & _).
    rewrite B6, F2. eauto.
Qed.

Lemma acked_rows_have_rtt script m c :
  between_turns script m c →
  Forall (λ r, r_outcome r = ACKED → is_Some (r_rtt_ms r)) (csv c).
Proof.
  intros (I1 & _ & _ & _ & _ & I6 & _ & I8).
  rewrite Forall_forall in I8. apply Forall_forall. intros r Hin Hack.
  specialize (I8 r Hin). unfold row_ok in I8. rewrite Hack in I8.
  destruct I8 as (Hr & x & q & Hx & _).
  assert (Hrange : 1 ≤ r_seq r < m).
  { apply in_range. rewrite <- I1. apply in_map. by apply list_elem_of_In. }
  destruct (I6 _ Hrange) as [Hs _].
  rewrite Hr. cbn. rewrite Hs, Hx. eauto.
Qed.

Lemma logged_rtts_acked_rows rows :
  Forall (λ r, r_outcome r = ACKED → is_Some (r_rtt_ms r)) rows →
  map r_rtt_ms (acked_rows rows) = map Some (logged_rtts rows).
Proof.
  induction 1 as [|r rows Hr _ IH]; [done|].
  unfold acked_rows in *. rewrite filter_cons. cbn [logged_rtts flat_map].
  fold (logged_rtts rows).
  destruct (decide (r_outcome r = ACKED)) as [Hack|Hno].
  - destruct (Hr Hack) as [x Hx]. rewrite Hack, Hx. cbn. by rewrite IH, Hx.
  - destruct (r_outcome r); [done|]. cbn. exact IH.
Qed.

(** *** The first acknowledgment read for a number *)












End ClientFacts.

(** C1. In a session that runs to its end, every sequence number from 1 to N
    has exactly one row in the log, in order, and the finalized numbers are
    exactly these. Once a number is finalized, in any state: a further call
    of [finalize] for it changes nothing; a wait loop, whatever it receives
    and for whatever awaited number, and all the turns that follow, leave
    the number finalized and its rows as they are. *)
Theorem finalize_exactly_once `{Builtins} (a : A3_Client.args) (script : Z → A3_Client.turn) :
  (∀ c, A3_Client.run a script = A3_Client.Finished c →
        map A3_Client.r_seq (A3_Client.csv c) = range 1 (A3_Client.n a + 1) ∧
        (∀ seq, seq ∈ A3_Client.finalized c ↔ 1 ≤ seq ≤ A3_Client.n a) ∧
        (∀ seq, 1 ≤ seq ≤ A3_Client.n a →
                ∃ r, Spec.record_of seq (A3_Client.csv c) = [r] ∧ A3_Client.r_seq r = seq)) ∧
  (∀ seq c, seq ∈ A3_Client.finalized c →
     (∀ o, A3_Client.finalize seq o c = c) ∧
     (∀ cur deadline its,
        let c' := (A3_Client.wait_loop (A3_Client.verbose a) cur deadline its c).1 in
        seq ∈ A3_Client.finalized c' ∧
        Spec.record_of seq (A3_Client.csv c') = Spec.record_of seq (A3_Client.csv c)) ∧
     (∀ seqs,
        let c' := Spec.state (A3_Client.main_loop a seqs script c) in
        seq ∈ A3_Client.finalized c' ∧
        Spec.record_of seq (A3_Client.csv c') = Spec.record_of seq (A3_Client.csv c))).
Proof.
  split.
  - intros c Hrun. pose proof (run_spec a script) as R. rewrite Hrun in R.
    destruct R as (I1 & I2 & _).
    assert (E : range 1 (Z.max 1 (A3_Client.n a + 1)) = range 1 (A3_Client.n a + 1)).
    { destruct (Z_le_gt_dec (A3_Client.n a + 1) 1).
      - rewrite Z.max_l by lia. by rewrite !range_nil by lia.
      - by rewrite Z.max_r by lia. }
    rewrite E in I1. split_and!.
    + exact I1.
    + intros seq. rewrite I2. lia.
    + intros seq Hseq. apply (record_of_range _ 1 (A3_Client.n a + 1)); [done|lia].
  - intros seq c Hf. split_and!.
    + intros o. by apply finalize_done.
    + intros cur deadline its. apply grows_record_of; [apply wait_loop_grows|done].
    + intros seqs. apply grows_record_of; [apply main_loop_grows|done].
Qed.


(** C2. While the client waits for [cur], a datagram that acknowledges a
    different, not yet observed number [seq] stores its two receive times
    and finalizes nothing for [seq]. When the turn of [seq] comes with such
    a stored observation, the turn ends with the row ACKED for [seq] built
    from the stored times, whatever arrives during the turn; and no turn
    changes a stored observation: only the first one is kept. *)
Theorem first_observation_is_used `{Builtins} (a : A3_Client.args) :
  (∀ cur seq deadline it rest payload tp tw c,
     A3_Client.rx it = A3_Client.RxData payload tp tw →
     A3_Client.ack_seq payload = Some seq → seq ≠ cur →
     Qle_bool (deadline - A3_Client.now_head it) 0 = false →
     A3_Client.ack_perf c !! seq = None → seq ∉ A3_Client.finalized c →
     let c' := (A3_Client.wait_loop (A3_Client.verbose a) cur deadline (it :: rest) c).1 in
     A3_Client.ack_perf c' !! seq = Some tp ∧ A3_Client.ack_wall c' !! seq = Some tw ∧
     seq ∉ A3_Client.finalized c') ∧
  (∀ seq t c tp tw,
     seq ∉ A3_Client.seen_seqs c → seq ∉ A3_Client.finalized c →
     A3_Client.t_send_ok t = true →
     A3_Client.ack_perf c !! seq = Some tp → A3_Client.ack_wall c !! seq = Some tw →
     ∃ c', A3_Client.turn_step a seq t c = A3_Client.Finished c' ∧
       A3_Client.csv c' = A3_Client.csv c ++
         [A3_Client.Row seq (Some (round_dec 6 (A3_Client.t_send_wall t)))
            (Some (round_dec 6 tw))
            (Some (round_dec 3 ((tp - A3_Client.t_send_perf t) * 1000)))
            A3_Client.ACKED] ∧
       A3_Client.ack_count c' = A3_Client.ack_count c + 1) ∧
  (∀ seq t c s x,
     A3_Client.ack_perf c !! s = Some x →
     let c' := Spec.state (A3_Client.turn_step a seq t c) in
     A3_Client.ack_perf c' !! s = Some x ∧
     A3_Client.ack_wall c' !! s = A3_Client.ack_wall c !! s).
Proof.
  split_and!.
  - intros cur seq deadline it rest payload tp tw c Hrx Hseq Hne Hdl Hnone Hnf.
    cbn [A3_Client.wait_loop]. rewrite Hdl, Hrx, Hseq.
    rewrite decide_False by (intros [? _]; done).
    set (c1 := A3_Client.observe (A3_Client.verbose a) seq tp tw c).
    assert (O1 : A3_Client.ack_perf c1 !! seq = Some tp ∧
                 A3_Client.ack_wall c1 !! seq = Some tw ∧
                 A3_Client.finalized c1 = A3_Client.finalized c).
    { unfold c1, A3_Client.observe. rewrite Hnone.
      destruct (A3_Client.send_perf c !! seq); [destruct (A3_Client.verbose a)|];
        cbn; by rewrite !lookup_insert_eq. }
    destruct O1 as (O1 & O2 & O3).
    destruct (A3_Client.wait_loop (A3_Client.verbose a) cur deadline rest c1)
      as [c' got] eqn:W.
    apply wait_loop_spec in W as [(_ & _ & _ & _ & _ & B6) Q]. cbn.
    destruct (B6 _ _ O1) as [P1 P2]. split_and!; [done|congruence|].
    destruct got.
    + destruct Q as (_ & _ & _ & -> & _).
      rewrite O3, not_elem_of_union, not_elem_of_singleton. done.
    + destruct Q as (_ & -> & _). by rewrite O3.
  - intros seq t c tp tw Hseen Hnf Hok Hp Hw.
    destruct (turn_step_spec a seq t c Hseen Hok)
      as (c' & Hc' & _ & _ & S3 & S4 & _ & S6 & S7).
    rewrite decide_False in S7 by done. destruct S7 as [_ S8].
    destruct (S6 _ _ Hp) as [P1 P2]. rewrite P1 in S8. destruct S8 as [S8 S9].
    exists c'. split_and!; [done| |done].
    rewrite S8. do 2 f_equal. unfold Spec.acked_row.
    by rewrite S3, S4, P1, P2, Hw, !lookup_insert_eq.
  - intros seq t c s x Hx. by apply turn_step_grows.
Qed.

(** ** The UDP server *)

Section ServerFacts.

Context `{Builtins} `{A3.Random}.
Import A3 Spec.

Lemma Qltb_lt (x y : Q) : Qltb x y = true ↔ (x < y)%Q.
Proof.
  unfold Qltb. rewrite negb_true_iff. split.
  - intros Hb. apply Qnot_le_lt. intros Hle. apply Qle_bool_iff in Hle. congruence.
  - intros Hlt. destruct (Qle_bool y x) eqn:E; [|done].
    apply Qle_bool_iff in E. by apply Qle_not_lt in E.
Qed.

Lemma dropped_snoc ds d :
  dropped (ds ++ [d]) =
  dropped ds ++ match d with DroppedK seq | DroppedProb seq => [seq] | _ => [] end.
Proof. unfold dropped. rewrite flat_map_app. cbn. by rewrite app_nil_r. Qed.

(** One datagram that parses: what the loss models decide. *)
Lemma serve_decision a d s seq :
  probe_seq (payload d) = Some seq →
  gen (serve a d s) = gen_after (loss_prob a) (drop_k a) (gen s) [seq] ∧
  dropped (decisions (serve a d s)) =
    dropped (decisions s) ++ drops_of (loss_prob a) (drop_k a) (gen s) [seq].
Proof.
  intros Hseq. unfold serve, emit. rewrite Hseq. cbn [gen_after drops_of gen].
  destruct ((0 <? drop_k a) && (seq mod drop_k a =? 0)).
  - cbn [gen decisions]. by rewrite dropped_snoc.
  - destruct (Qltb 0 (loss_prob a)).
    + destruct (random_random (gen s)) as [u g]. cbn [snd].
      destruct (Qltb u (loss_prob a)); cbn [gen decisions]; by rewrite dropped_snoc.
    + cbn [gen decisions]. by rewrite dropped_snoc.
Qed.

Lemma serve_malformed a d s :
  probe_seq (payload d) = None →
  serve a d s =
    Server (recv_count s + 1) (gen s) (effects s) (decisions s ++ [Malformed]).
Proof. intros Hseq. unfold serve, emit. rewrite Hseq. cbn. by rewrite app_nil_r. Qed.

Lemma gen_after_app p k g l1 l2 :
  gen_after p k g (l1 ++ l2) = gen_after p k (gen_after p k g l1) l2.
Proof.
  revert g. induction l1 as [|seq l1 IH]; intros g; cbn; [done|].
  destruct ((0 <? k) && (seq mod k =? 0)); [by rewrite IH|].
  destruct (Qltb 0 p); by rewrite IH.
Qed.

Lemma drops_of_app p k g l1 l2 :
  drops_of p k g (l1 ++ l2) = drops_of p k g l1 ++ drops_of p k (gen_after p k g l1) l2.
Proof.
  revert g. induction l1 as [|seq l1 IH]; intros g; cbn; [done|].
  destruct ((0 <? k) && (seq mod k =? 0)); [by rewrite IH|].
  destruct (Qltb 0 p); [|by rewrite IH].
  destruct (random_random g) as [u g']. cbn. destruct (Qltb u p); by rewrite IH.
Qed.

Lemma arrivals_cons d rest :
  arrivals (d :: rest) =
  match probe_seq (payload d) with
  | Some seq => [seq] ++ arrivals rest
  | None => arrivals rest
  end.
Proof. reflexivity. Qed.

(** The drops of a whole run are a function of the loss parameters, the
    generator and the sequence numbers that arrive; nothing else of the
    traffic or of the arguments enters. *)
Lemma serve_all_drops a traffic : ∀ s,
  gen (serve_all a traffic s) =
    gen_after (loss_prob a) (drop_k a) (gen s) (arrivals traffic) ∧
  dropped (decisions (serve_all a traffic s)) =
    dropped (decisions s)
    ++ drops_of (loss_prob a) (drop_k a) (gen s) (arrivals traffic).
Proof.
  unfold serve_all.
  induction traffic as [|d rest IH]; intros s; cbn [fold_left].
  - cbn. by rewrite app_nil_r.
  - destruct (IH (serve a d s)) as [IH1 IH2]. rewrite IH1, IH2, arrivals_cons.
    destruct (probe_seq (payload d)) as [seq|] eqn:E.
    + destruct (serve_decision a d s seq E) as [-> ->].
      by rewrite gen_after_app, drops_of_app, <- app_assoc.
    + rewrite (serve_malformed a d s E). cbn [gen decisions].
      by rewrite dropped_snoc, app_nil_r.
Qed.

Lemma probe_seq_probe seq w :
  probe_seq (Some (A3_Client.probe seq w)) = Some seq.
Proof. reflexivity. Qed.

Lemma ack_seq_ack_of seq ts :
  A3_Client.ack_seq (Some (ack_of seq ts)) = Some seq.
Proof. reflexivity. Qed.

(** With [--drop-k] alone the answer to a probe depends on its number
    only. *)
Lemma serve_drop_k a d s seq :
  0 < drop_k a → Qltb 0 (loss_prob a) = false →
  probe_seq (payload d) = Some seq →
  effects (serve a d s) =
    effects s ++
    (if seq mod drop_k a =? 0
     then when (verbose a) (EStdout (PDropK seq))
     else ESendto (ack_of seq (recv_ts d)) (from d)
            :: when (verbose a) (EStdout (PAck seq (recv_count s + 1)))) ∧
  decisions (serve a d s) =
    decisions s ++ [if seq mod drop_k a =? 0 then DroppedK seq else Acked seq].
Proof.
  intros Hk Hp Hseq. unfold serve, emit. rewrite Hseq, Hp.
  apply Z.ltb_lt in Hk. rewrite Hk. cbn [andb].
  by destruct (seq mod drop_k a =? 0).
Qed.

Lemma Qltb_off (p : Q) : (p <= 0)%Q → Qltb 0 p = false.
Proof. intros Hle. unfold Qltb. apply Qle_bool_iff in Hle. by rewrite Hle. Qed.

Lemma acks_sent_when b p : acks_sent (when b (EStdout p)) = [].
Proof. by destruct b. Qed.

Lemma drops_of_drop_k p k g seqs :
  Qltb 0 p = false →
  drops_of p k g seqs = List.filter (λ s, (0 <? k) && (s mod k =? 0)) seqs.
Proof.
  intros Hp. induction seqs as [|seq rest IH]; cbn; [done|].
  rewrite Hp, IH. by destruct ((0 <? k) && (seq mod k =? 0)).
Qed.

End ServerFacts.

(** C5. With a positive loss probability and a positive [--drop-k] the
    server does exactly two things, whatever the traffic: it writes the
    message to standard error and exits with status 1. No socket is
    created or bound and nothing is received or sent. *)
Theorem loss_model_conflict_fails_fast `{Builtins} `{A3.Random}
    (a : A3.args) (traffic : list A3.datagram) :
  (0 < A3.loss_prob a)%Q → 0 < A3.drop_k a →
  A3.main a traffic = [A3.EStderr A3.conflict_message; A3.EExit 1].
Proof.
  intros Hp Hk. unfold A3.main.
  apply Qltb_lt in Hp. apply Z.ltb_lt in Hk. by rewrite Hp, Hk.
Qed.

(** C6. Two runs of the server with the same seed, the same loss
    probability and the same [--drop-k], in which the same sequence numbers
    arrive in the same order, drop the same sequence numbers, in the same
    order. The runs may differ in everything else: senders, receive times,
    other fields of the probes, datagrams that do not parse, host, port and
    verbosity. *)
Theorem drops_are_reproducible `{Builtins} `{A3.Random}
    (a1 a2 : A3.args) (traffic1 traffic2 : list A3.datagram) :
  A3.seed a1 = A3.seed a2 → A3.loss_prob a1 = A3.loss_prob a2 →
  A3.drop_k a1 = A3.drop_k a2 →
  Spec.arrivals traffic1 = Spec.arrivals traffic2 →
  A3.dropped (A3.decisions (A3.serve_all a1 traffic1 (A3.startup a1))) =
  A3.dropped (A3.decisions (A3.serve_all a2 traffic2 (A3.startup a2))).
Proof.
  intros Hseed Hp Hk Harr.
  destruct (serve_all_drops a1 traffic1 (A3.startup a1)) as [_ ->].
  destruct (serve_all_drops a2 traffic2 (A3.startup a2)) as [_ ->].
  cbn. by rewrite Hseed, Hp, Hk, Harr.
Qed.

(** ** The UDP client against the UDP server *)

Section ClosedLoopFacts.

Context `{Builtins} `{A3.Random}.
Variables (sa : A3.args) (ca : A3_Client.args) (latency : Q).
Hypothesis drop_k_on : 0 < A3.drop_k sa.
Hypothesis loss_prob_off : Qltb 0 (A3.loss_prob sa) = false.
Hypothesis in_time : (latency < A3_Client.timeout ca)%Q.

Import A3_Client Spec Sessions.

Abbreviation script := (closed_loop sa latency).
Abbreviation k := (A3.drop_k sa).
Abbreviation expected := (Spec.expected (A3.drop_k sa)).

Lemma answers_drop_k seq :
  answers sa latency seq =
  if seq mod k =? 0 then [] else [A3.ack_of seq (wall seq + latency / 2)].
Proof.
  unfold answers.
  destruct (serve_drop_k sa (datagram_of latency seq)
              (A3.serve_all sa (map (datagram_of latency) (range 1 seq)) (A3.startup sa))
              seq drop_k_on loss_prob_off (probe_seq_probe _ _)) as [-> _].
  rewrite drop_app_length. destruct (seq mod k =? 0).
  - apply acks_sent_when.
  - cbn [A3.acks_sent flat_map]. fold (A3.acks_sent). by rewrite acks_sent_when.
Qed.

Lemma closed_loop_iters seq :
  t_iters (script seq) =
  if seq mod k =? 0
  then [Iteration (perf seq) RxTimeout]
  else [Iteration (perf seq + latency)
          (RxData (Some (A3.ack_of seq (wall seq + latency / 2)))
             (perf seq + latency) (wall seq + latency))].
Proof.
  unfold closed_loop. cbn [t_iters]. rewrite answers_drop_k.
  by destruct (seq mod k =? 0).
Qed.

(** Over this network the only acknowledgment delivered in a turn is the
    one of the turn's own probe, and only when the server did not drop
    it. *)
Lemma closed_loop_delivered q s x :
  delivered script q s x → s = q ∧ (q mod k =? 0) = false.
Proof.
  intros (it & p & tw & Hin & Hrx & Hs). rewrite closed_loop_iters in Hin.
  destruct (q mod k =? 0).
  - destruct Hin as [<-|[]]. done.
  - destruct Hin as [<-|[]]. cbn in Hrx. injection Hrx as <- _ _.
    rewrite ack_seq_ack_of in Hs. by injection Hs as ->.
Qed.

Lemma deadline_open seq :
  Qle_bool (t_deadline_perf (script seq) + timeout ca - (perf seq + latency)) 0 = false.
Proof.
  cbn [closed_loop t_deadline_perf].
  destruct (Qle_bool _ _) eqn:E; [|done].
  apply Qle_bool_iff in E.
  assert (Heq : (perf seq + timeout ca - (perf seq + latency) == timeout ca - latency)%Q)
    by ring.
  rewrite Heq in E. apply Qlt_minus_iff in in_time.
  by apply Qle_not_lt in E.
Qed.

Lemma closed_loop_turn m c :
  1 ≤ m → between_turns script m c → Forall expected (csv c) →
  ∃ c', turn_step ca m (script m) c = Finished c' ∧
        between_turns script (m + 1) c' ∧ Forall expected (csv c').
Proof.
  intros Hm Hinv Hexp.
  destruct (turn_step_between_turns ca script m c Hm Hinv eq_refl) as (c' & Hc' & Hinv').
  exists c'. split_and!; try done.
  destruct Hinv as (_ & I2 & I3 & _ & _ & _ & I7 & _).
  assert (Hseen : m ∉ seen_seqs c) by (rewrite I3; lia).
  assert (Hnf : m ∉ finalized c) by (rewrite I2; lia).
  assert (Hnone : ack_perf c !! m = None).
  { destruct (ack_perf c !! m) as [x|] eqn:E; [|done].
    destruct (I7 _ _ E) as (q & Hq & Hd).
    apply closed_loop_delivered in Hd as [-> _]. lia. }
  destruct (turn_step_spec ca m (script m) c Hseen eq_refl)
    as (c'' & Hc'' & _ & _ & _ & _ & _ & _ & S7).
  rewrite Hc' in Hc''. injection Hc'' as <-.
  rewrite decide_False in S7 by done. destruct S7 as [_ S8].
  assert (Hrow : ∃ r, csv c' = csv c ++ [r] ∧ expected r).
  { destruct (m mod k =? 0) eqn:Emod.
    - destruct (ack_perf c' !! m) as [x|] eqn:E.
      + destruct (turn_step_origin _ _ _ _ _ _ _ Hc' E) as [Ho|Hn]; [congruence|].
        apply closed_loop_delivered in Hn as [_ Hn]. congruence.
      + destruct S8 as [-> _]. eexists. split; [done|].
        unfold Spec.expected. cbn. by rewrite Emod.
    - pose proof (closed_loop_iters m) as Hits. rewrite Emod in Hits.
      destruct (turn_step_observed ca m (script m) _ _ _ _ _ m c c' Hits eq_refl
                  (ack_seq_ack_of _ _) (deadline_open m) Hc') as [x Hx].
      rewrite Hx in S8. destruct S8 as [-> _]. eexists. split; [done|].
      unfold Spec.expected. cbn. by rewrite Emod. }
  destruct Hrow as (r & -> & Hr). apply Forall_app. split; [done|by constructor].
Qed.

Lemma closed_loop_range (len : nat) : ∀ m c,
  1 ≤ m → between_turns script m c → Forall expected (csv c) →
  ∃ c', main_loop ca (range m (m + Z.of_nat len)) script c = Finished c' ∧
        between_turns script (m + Z.of_nat len) c' ∧ Forall expected (csv c').
Proof.
  induction len as [|len IH]; intros m c Hm Hinv Hexp.
  - rewrite range_nil by lia. exists c. by rewrite Z.add_0_r.
  - rewrite range_cons by lia. cbn [main_loop].
    destruct (closed_loop_turn m c Hm Hinv Hexp) as (c1 & -> & Hinv1 & Hexp1).
    destruct (IH (m + 1) c1 ltac:(lia) Hinv1 Hexp1) as (c' & Hc' & Hinv' & Hexp').
    replace (m + 1 + Z.of_nat len) with (m + Z.of_nat (S len)) in * by lia.
    by exists c'.
Qed.

Lemma outcomes_expected rows :
  Forall expected rows →
  map (λ r, (r_seq r, r_outcome r)) rows =
  map (λ s, (s, if s mod k =? 0 then TIMEOUT else ACKED)) (map r_seq rows).
Proof.
  induction 1 as [|r rows Hr _ IH]; cbn; [done|]. by rewrite IH, Hr.
Qed.

Lemma closed_loop_run :
  ∃ c, run ca script = Finished c ∧
       map (λ r, (r_seq r, r_outcome r)) (csv c) =
       map (λ s, (s, if s mod k =? 0 then TIMEOUT else ACKED)) (range 1 (n ca + 1)).
Proof.
  unfold run. destruct (Z_le_gt_dec (n ca + 1) 1) as [Hle|Hgt].
  - rewrite range_nil by done. by exists init.
  - destruct (closed_loop_range (Z.to_nat (n ca)) 1 init ltac:(lia)
                (init_between_turns script) ltac:(constructor)) as (c & Hc & Hinv & Hexp).
    replace (1 + Z.of_nat (Z.to_nat (n ca))) with (n ca + 1) in * by lia.
    exists c. split; [done|]. rewrite (outcomes_expected _ Hexp).
    by destruct Hinv as (-> & _).
Qed.

Lemma arrivals_datagrams seqs :
  arrivals (map (datagram_of latency) seqs) = seqs.
Proof.
  induction seqs as [|seq rest IH]; [done|].
  cbn [map]. rewrite arrivals_cons. cbn. by rewrite IH.
Qed.

Lemma closed_loop_server_drops hi :
  A3.dropped (A3.decisions
    (A3.serve_all sa (map (datagram_of latency) (range 1 hi)) (A3.startup sa))) =
  List.filter (λ s, s mod k =? 0) (range 1 hi).
Proof.
  destruct (serve_all_drops sa (map (datagram_of latency) (range 1 hi)) (A3.startup sa))
    as [_ ->].
  cbn [A3.startup A3.decisions A3.dropped flat_map app].
  rewrite arrivals_datagrams, drops_of_drop_k by done.
  apply Z.ltb_lt in drop_k_on. by rewrite drop_k_on.
Qed.

End ClosedLoopFacts.

(** C4. A server started with [--drop-k k], [k] positive, and no loss
    probability answers a probe that parses exactly when its sequence
    number is not a multiple of [k]: for a multiple it sends nothing and
    records a drop, otherwise it sends the one acknowledgment. Against such
    a server, over a network that loses nothing else and with the
    acknowledgment back before the timeout, the client logs TIMEOUT for the
    multiples of [k] and ACKED for every other number from 1 to N. For
    [k = 3] and [N = 10] the server drops 3, 6 and 9, the client logs these
    three as TIMEOUT and the other seven as ACKED. *)
Theorem drop_k_drops_multiples `{Builtins} `{A3.Random} (sa : A3.args) :
  0 < A3.drop_k sa → (A3.loss_prob sa <= 0)%Q →
  (∀ d s seq,
     A3.probe_seq (A3.payload d) = Some seq →
     A3.acks_sent (drop (length (A3.effects s)) (A3.effects (A3.serve sa d s))) =
       (if seq mod A3.drop_k sa =? 0 then [] else [A3.ack_of seq (A3.recv_ts d)]) ∧
     A3.decisions (A3.serve sa d s) =
       A3.decisions s ++
       [if seq mod A3.drop_k sa =? 0 then A3.DroppedK seq else A3.Acked seq]) ∧
  (∀ ca latency,
     (latency < A3_Client.timeout ca)%Q →
     ∃ c, A3_Client.run ca (Sessions.closed_loop sa latency) = A3_Client.Finished c ∧
       map (λ r, (A3_Client.r_seq r, A3_Client.r_outcome r)) (A3_Client.csv c) =
       map (λ s, (s, if s mod A3.drop_k sa =? 0
                     then A3_Client.TIMEOUT else A3_Client.ACKED))
           (range 1 (A3_Client.n ca + 1)) ∧
       A3.dropped (A3.decisions
         (A3.serve_all sa
            (map (Sessions.datagram_of latency) (range 1 (A3_Client.n ca + 1)))
            (A3.startup sa))) =
       List.filter (λ s, s mod A3.drop_k sa =? 0) (range 1 (A3_Client.n ca + 1))) ∧
  (∀ ca latency,
     A3.drop_k sa = 3 → A3_Client.n ca = 10 →
     (latency < A3_Client.timeout ca)%Q →
     ∃ c, A3_Client.run ca (Sessions.closed_loop sa latency) = A3_Client.Finished c ∧
       map (λ r, (A3_Client.r_seq r, A3_Client.r_outcome r)) (A3_Client.csv c) =
         [(1, A3_Client.ACKED); (2, A3_Client.ACKED); (3, A3_Client.TIMEOUT);
          (4, A3_Client.ACKED); (5, A3_Client.ACKED); (6, A3_Client.TIMEOUT);
          (7, A3_Client.ACKED); (8, A3_Client.ACKED); (9, A3_Client.TIMEOUT);
          (10, A3_Client.ACKED)] ∧
       A3.dropped (A3.decisions
         (A3.serve_all sa (map (Sessions.datagram_of latency) (range 1 11))
            (A3.startup sa))) = [3; 6; 9]).
Proof.
  intros Hk Hp. apply Qltb_off in Hp.
  assert (Hloop : ∀ ca latency,
     (latency < A3_Client.timeout ca)%Q →
     ∃ c, A3_Client.run ca (Sessions.closed_loop sa latency) = A3_Client.Finished c ∧
       map (λ r, (A3_Client.r_seq r, A3_Client.r_outcome r)) (A3_Client.csv c) =
       map (λ s, (s, if s mod A3.drop_k sa =? 0
                     then A3_Client.TIMEOUT else A3_Client.ACKED))
           (range 1 (A3_Client.n ca + 1)) ∧
       A3.dropped (A3.decisions
         (A3.serve_all sa
            (map (Sessions.datagram_of latency) (range 1 (A3_Client.n ca + 1)))
            (A3.startup sa))) =
       List.filter (λ s, s mod A3.drop_k sa =? 0) (range 1 (A3_Client.n ca + 1))).
  { intros ca latency Hlat.
    destruct (closed_loop_run sa ca latency Hk Hp Hlat) as (c & Hc & Hout).
    exists c. split_and!; [exact Hc|exact Hout|]. by apply closed_loop_server_drops. }
  split_and!.
  - intros d s seq Hseq. destruct (serve_drop_k sa d s seq Hk Hp Hseq) as [-> ->].
    split; [|done]. rewrite drop_app_length. destruct (seq mod A3.drop_k sa =? 0).
    + apply acks_sent_when.
    + cbn [A3.acks_sent flat_map]. fold (A3.acks_sent). by rewrite acks_sent_when.
  - exact Hloop.
  - intros ca latency Hk3 Hn Hlat. destruct (Hloop ca latency Hlat) as (c & Hc & Hout & Hdrop).
    exists c. rewrite Hk3, Hn in *. split_and!; [done|exact Hout|exact Hdrop].
Qed.

(** ** The TCP client *)

Section TcpClientFacts.

Import A3_TCP_Client.

(** The loop only appends: to the rows, to the RTT values and to the list
    of probes handed to [sendall]. *)
Lemma loop_appends v script seqs : ∀ c,
  ∃ rows values calls,
    results (loop v seqs script c) = results c ++ rows ∧
    rtts (loop v seqs script c) = rtts c ++ values ∧
    sendall_calls (loop v seqs script c) = sendall_calls c ++ calls ∧
    values = omap r_rtt_ms rows.
Proof.
  induction seqs as [|seq rest IH]; intros c; cbn [loop].
  - exists [], [], []. by rewrite !app_nil_r.
  - destruct (try_probe (script seq)) as [ack_ts rtt_ms| |].
    + destruct (IH (Client (results c ++ [Row seq (send_ts (script seq))
                                            (Some ack_ts) (Some rtt_ms)])
                      (rtts c ++ [rtt_ms]) (sendall_calls c ++ [seq])
                      (stdout c ++ when v (PAck seq rtt_ms))))
        as (rows & values & calls & -> & -> & -> & ->). cbn.
      eexists (_ :: rows), (_ :: omap r_rtt_ms rows), (_ :: calls).
      by rewrite <- !app_assoc.
    + destruct (IH (Client (results c ++ [Row seq (send_ts (script seq)) None None])
                      (rtts c) (sendall_calls c ++ [seq])
                      (stdout c ++ when v (PTimeout seq))))
        as (rows & values & calls & -> & -> & -> & ->). cbn.
      eexists (_ :: rows), (omap r_rtt_ms rows), (_ :: calls).
      by rewrite <- !app_assoc.
    + cbn. exists [], [], [seq]. by rewrite !app_nil_r.
Qed.

(** As long as nothing but timeouts goes wrong, every number gets its
    probe and its row. *)
Lemma loop_clean v script (len : nat) : ∀ lo c,
  (∀ q, lo ≤ q < lo + Z.of_nat len → try_probe (script q) ≠ Raised) →
  map r_seq (results (loop v (range lo (lo + Z.of_nat len)) script c)) =
    map r_seq (results c) ++ range lo (lo + Z.of_nat len) ∧
  sendall_calls (loop v (range lo (lo + Z.of_nat len)) script c) =
    sendall_calls c ++ range lo (lo + Z.of_nat len).
Proof.
  induction len as [|len IH]; intros lo c Hclean.
  - rewrite range_nil by lia. cbn. by rewrite !app_nil_r.
  - rewrite range_cons by lia. cbn [loop].
    replace (lo + Z.of_nat (S len)) with (lo + 1 + Z.of_nat len) in * by lia.
    assert (Hrest : ∀ q, lo + 1 ≤ q < lo + 1 + Z.of_nat len →
                         try_probe (script q) ≠ Raised)
      by (intros q Hq; apply Hclean; lia).
    destruct (try_probe (script lo)) as [ack_ts rtt_ms| |] eqn:E.
    + destruct (IH (lo + 1) (Client (results c ++ [Row lo (send_ts (script lo))
                                                     (Some ack_ts) (Some rtt_ms)])
                      (rtts c ++ [rtt_ms]) (sendall_calls c ++ [lo])
                      (stdout c ++ when v (PAck lo rtt_ms))) Hrest) as [-> ->].
      cbn. by rewrite map_app, <- !app_assoc.
    + destruct (IH (lo + 1) (Client (results c ++ [Row lo (send_ts (script lo)) None None])
                      (rtts c) (sendall_calls c ++ [lo])
                      (stdout c ++ when v (PTimeout lo))) Hrest) as [-> ->].
      cbn. by rewrite map_app, <- !app_assoc.
    + exfalso. apply (Hclean lo); [lia|done].
Qed.

(** The first exception that is not a timeout ends the loop. *)
Lemma loop_raised v script (len : nat) : ∀ lo hi c,
  lo + Z.of_nat len < hi →
  (∀ q, lo ≤ q < lo + Z.of_nat len → try_probe (script q) ≠ Raised) →
  try_probe (script (lo + Z.of_nat len)) = Raised →
  map r_seq (results (loop v (range lo hi) script c)) =
    map r_seq (results c) ++ range lo (lo + Z.of_nat len) ∧
  sendall_calls (loop v (range lo hi) script c) =
    sendall_calls c ++ range lo (lo + Z.of_nat len + 1).
Proof.
  induction len as [|len IH]; intros lo hi c Hhi Hclean Hraise.
  - rewrite Z.add_0_r in *. rewrite (range_cons lo hi) by lia. cbn [loop].
    rewrite Hraise. cbn. rewrite range_nil by lia.
    rewrite (range_cons lo (lo + 1)) by lia. rewrite (range_nil (lo + 1)) by lia.
    by rewrite app_nil_r.
  - rewrite (range_cons lo hi) by lia. cbn [loop].
    rewrite (range_cons lo (lo + Z.of_nat (S len))) by lia.
    rewrite (range_cons lo (lo + Z.of_nat (S len) + 1)) by lia.
    replace (lo + Z.of_nat (S len)) with (lo + 1 + Z.of_nat len) in * by lia.
    assert (Hrest : ∀ q, lo + 1 ≤ q < lo + 1 + Z.of_nat len →
                         try_probe (script q) ≠ Raised)
      by (intros q Hq; apply Hclean; lia).
    destruct (try_probe (script lo)) as [ack_ts rtt_ms| |] eqn:E.
    + destruct (IH (lo + 1) hi (Client (results c ++ [Row lo (send_ts (script lo))
                                                     (Some ack_ts) (Some rtt_ms)])
                      (rtts c ++ [rtt_ms]) (sendall_calls c ++ [lo])
                      (stdout c ++ when v (PAck lo rtt_ms))) Hhi Hrest Hraise)
        as [-> ->].
      cbn. by rewrite map_app, <- !app_assoc.
    + destruct (IH (lo + 1) hi (Client (results c ++ [Row lo (send_ts (script lo)) None None])
                      (rtts c) (sendall_calls c ++ [lo])
                      (stdout c ++ when v (PTimeout lo))) Hhi Hrest Hraise)
        as [-> ->].
      cbn. by rewrite map_app, <- !app_assoc.
    + exfalso. apply (Hclean lo); [lia|done].
Qed.






Lemma summary_sent a k c : field "sent" (summary a k c) = Some (JInt (n a)).
Proof. unfold summary. by destruct (rtts c). Qed.

End TcpClientFacts.


(** C9. In a TCP session in which the probes before [m] meet nothing worse
    than a timeout and the probe of [m] meets another exception (from
    [sendall], from [recv], or from reading the reply), the probes handed
    to [sendall] are those of 1 to [m] and no later one, the rows are those
    of 1 to [m - 1], so that no number from [m] to N has a row, and the
    summary still gives [sent] as N. *)
Theorem tcp_error_ends_session
    (a : A3_TCP_Client.args) (k : A3_TCP_Client.clock)
    (script : Z → A3_TCP_Client.turn) (m : Z) :
  1 ≤ m ≤ A3_TCP_Client.n a →
  (∀ q, 1 ≤ q < m → A3_TCP_Client.try_probe (script q) ≠ A3_TCP_Client.Raised) →
  A3_TCP_Client.try_probe (script m) = A3_TCP_Client.Raised →
  let c := (A3_TCP_Client.main a k script).1 in
  let s := (A3_TCP_Client.main a k script).2 in
  A3_TCP_Client.sendall_calls c = range 1 (m + 1) ∧
  map A3_TCP_Client.r_seq (A3_TCP_Client.results c) = range 1 m ∧
  (∀ r, In r (A3_TCP_Client.results c) → A3_TCP_Client.r_seq r < m) ∧
  field "sent" s = Some (JInt (A3_TCP_Client.n a)).
Proof.
  intros Hm Hclean Hraise. cbn zeta. unfold A3_TCP_Client.main. cbn [fst snd].
  unfold A3_TCP_Client.run.
  destruct (loop_raised (A3_TCP_Client.verbose a) script (Z.to_nat (m - 1)) 1
              (A3_TCP_Client.n a + 1) A3_TCP_Client.init) as [Hrows Hcalls].
  - lia.
  - intros q Hq. apply Hclean. lia.
  - by replace (1 + Z.of_nat (Z.to_nat (m - 1))) with m by lia.
  - replace (1 + Z.of_nat (Z.to_nat (m - 1))) with m in * by lia.
    cbn in Hrows, Hcalls. split_and!; try done.
    + intros r Hr. apply (in_map A3_TCP_Client.r_seq) in Hr. rewrite Hrows in Hr.
      apply in_range in Hr. lia.
    + apply summary_sent.
Qed.

(** C10, as the code has it. A reply that parses to a JSON object without
    the key [server_recv_ts] is not discarded: the client takes its own
    wall-clock reading, made after the reply came in, for the missing time,
    appends the row and the RTT, and goes on with the next number. The RTT
    so recorded is the client's wall-clock time from sending the probe to
    reading the reply, times 1000; it stays in the list that the statistics
    are computed from. *)
Theorem tcp_reply_without_server_ts
    (v : bool) (seq : Z) (rest : list Z) (script : Z → A3_TCP_Client.turn)
    (c : A3_TCP_Client.client) (items : list (string * json)) (t_now : Q) :
  A3_TCP_Client.net (script seq) = A3_TCP_Client.RecvData (Some (JObj items)) t_now →
  assoc "server_recv_ts" items = None →
  let rtt_ms := ((t_now - A3_TCP_Client.send_ts (script seq)) * 1000)%Q in
  let r := A3_TCP_Client.Row seq (A3_TCP_Client.send_ts (script seq))
             (Some (JFloat t_now)) (Some rtt_ms) in
  A3_TCP_Client.loop v (seq :: rest) script c =
    A3_TCP_Client.loop v rest script
      (A3_TCP_Client.Client (A3_TCP_Client.results c ++ [r])
         (A3_TCP_Client.rtts c ++ [rtt_ms])
         (A3_TCP_Client.sendall_calls c ++ [seq])
         (A3_TCP_Client.stdout c
            ++ A3_TCP_Client.when v (A3_TCP_Client.PAck seq rtt_ms))) ∧
  In r (A3_TCP_Client.results (A3_TCP_Client.loop v (seq :: rest) script c)) ∧
  In rtt_ms (A3_TCP_Client.rtts (A3_TCP_Client.loop v (seq :: rest) script c)).
Proof.
  intros Hnet Hkey. cbn zeta.
  assert (E : A3_TCP_Client.try_probe (script seq) =
    A3_TCP_Client.Acked (JFloat t_now)
      ((t_now - A3_TCP_Client.send_ts (script seq)) * 1000)).
  { unfold A3_TCP_Client.try_probe. rewrite Hnet. cbn. by rewrite Hkey. }
  cbn [A3_TCP_Client.loop]. rewrite E. split; [done|].
  match goal with |- context [A3_TCP_Client.loop v rest script ?c1] =>
    destruct (loop_appends v script rest c1) as (rows & values & calls & -> & -> & _)
  end.
  cbn. split; apply in_or_app; left; apply in_or_app; right; by left.
Qed.


(** C8, as the code has it. At the end of a UDP session of N probes, N not
    negative, the summary gives [sent] as N, [acked] as the number of ACKED
    rows, [loss_ratio] as the float of (sent - acked) / sent rounded to 2
    decimals (the integer 0 for an empty session), and the average,
    minimum and maximum of the RTT values logged in the ACKED rows, read
    back as floats, each rounded to 3 decimals; every ACKED row has such a
    value, and the three are null when no row is ACKED. With 39 of 40
    probes acknowledged the loss ratio is 0.03, and the average of the
    logged values 20.000 and 20.001 is 20.001. The summary of a TCP
    session gives [sent] as N, [acked] as the number of rows with an RTT,
    null for [rtt_ms] when there is none and otherwise average, minimum,
    maximum and median; it has no [loss_ratio]. *)
Theorem summaries_report `{Builtins} :
  (∀ a script c,
     0 ≤ A3_Client.n a → A3_Client.run a script = A3_Client.Finished c →
     let s := A3_Client.summary a c in
     let acked := Z.of_nat (length (Spec.acked_rows (A3_Client.csv c))) in
     let logged := A3_Client.logged_rtts (A3_Client.csv c) in
     let rtts := map b64 logged in
     field "sent" s = Some (JInt (A3_Client.n a)) ∧
     field "acked" s = Some (JInt acked) ∧
     field "loss_ratio" s =
       Some (if decide (A3_Client.n a = 0) then JInt 0
             else JFloat (round_dec 2 (b64 (inject_Z (A3_Client.n a - acked)
                                            / inject_Z (A3_Client.n a))))) ∧
     map A3_Client.r_rtt_ms (Spec.acked_rows (A3_Client.csv c)) = map Some logged ∧
     field "rtt_ms" s =
       Some (match rtts with
             | [] => JObj [("avg", JNull); ("min", JNull); ("max", JNull)]
             | _ => JObj [("avg", JFloat (round_dec 3 (mean rtts)));
                          ("min", JFloat (round_dec 3 (min_list rtts)));
                          ("max", JFloat (round_dec 3 (max_list rtts)))]
             end)%string) ∧
  (∀ a c,
     A3_Client.sent_count c = 40 → A3_Client.ack_count c = 39 →
     field "loss_ratio" (A3_Client.summary a c) = Some (JFloat (3 # 100))) ∧
  (∀ a c,
     A3_Client.logged_rtts (A3_Client.csv c) = [20%Q; (20001 # 1000)%Q] →
     ∃ mn mx,
       field "rtt_ms" (A3_Client.summary a c) =
         Some (JObj [("avg", JFloat (20001 # 1000)); ("min", mn); ("max", mx)]%string)) ∧
  (∀ a k script,
     let c := A3_TCP_Client.run a script in
     let s := A3_TCP_Client.summary a k c in
     let rtts := A3_TCP_Client.rtts c in
     field "sent" s = Some (JInt (A3_TCP_Client.n a)) ∧
     field "acked" s = Some (JInt (Z.of_nat (length rtts))) ∧
     rtts = omap A3_TCP_Client.r_rtt_ms (A3_TCP_Client.results c) ∧
     field "loss_ratio" s = None ∧
     field "rtt_ms" s =
       Some (match rtts with
             | [] => JNull
             | _ => JObj [("avg", JFloat (round_dec 3 (mean rtts)));
                          ("min", JFloat (round_dec 3 (min_list rtts)));
                          ("max", JFloat (round_dec 3 (max_list rtts)));
                          ("median", JFloat (round_dec 3 (median rtts)))]
             end)%string).
Proof.
  split_and!.
  - intros a script c Hn Hrun. pose proof (run_spec a script) as R. rewrite Hrun in R.
    pose proof (acked_rows_have_rtt _ _ _ R) as Hrtt.
    destruct R as (_ & _ & _ & I4 & I5 & _).
    rewrite Z.max_r in I4 by lia.
    cbn zeta. unfold A3_Client.summary. rewrite I4, I5.
    replace (A3_Client.n a + 1 - 1) with (A3_Client.n a) by lia.
    split_and!; try done.
    + by apply logged_rtts_acked_rows.
    + cbn. by destruct (A3_Client.logged_rtts (A3_Client.csv c)).
  - intros a c Hsent Hack. unfold A3_Client.summary. rewrite Hsent, Hack. reflexivity.
  - intros a c Hlog. unfold A3_Client.summary. rewrite Hlog. eexists _, _.
    cbn [field assoc String.eqb Ascii.eqb Bool.eqb]. do 3 f_equal.
  - intros a k script. cbn zeta. unfold A3_TCP_Client.summary.
    destruct (loop_appends (A3_TCP_Client.verbose a) script
                (range 1 (A3_TCP_Client.n a + 1)) A3_TCP_Client.init)
      as (rows & values & calls & Hrows & Hvalues & _ & ->).
    fold (A3_TCP_Client.run a script) in Hrows, Hvalues. cbn in Hrows, Hvalues.
    rewrite Hrows. rewrite Hvalues.
    by destruct (omap A3_TCP_Client.r_rtt_ms rows).
Qed.
(** ** Further properties of the UDP client *)

Section MoreClientFacts.

Context `{Builtins}.
Import A3_Client Spec Further.

Lemma round_half_even_le (x : Q) (z : Z) : (x <= inject_Z z)%Q → round_half_even x ≤ z.
Proof.
  intros Hx. unfold round_half_even.
  assert (Hf : Qfloor x ≤ z).
  { rewrite <- (Qfloor_Z z). by apply Qfloor_resp_le. }
  destruct (Z.eq_dec (Qfloor x) z) as [Heq|Hne].
  - assert (Hfrac : (x - inject_Z (Qfloor x) <= 0)%Q).
    { rewrite Heq. lra. }
    destruct (Qcompare_spec (x - inject_Z (Qfloor x)) (1 # 2)) as [E|E|E]; try lia.
    + rewrite E in Hfrac. lra.
    + lra.
  - destruct (Qcompare _ _); [destruct (Z.even _)| |]; lia.
Qed.

Lemma round_dec_le_1 (d : nat) (x : Q) : (x <= 1)%Q → (round_dec d x <= 1)%Q.
Proof.
  intros Hx. unfold round_dec. rewrite Qred_correct.
  assert (Hp : (0 < 10 ^ Z.of_nat d)) by (apply Z.pow_pos_nonneg; lia).
  assert (Hq : (0 < inject_Z (10 ^ Z.of_nat d))%Q).
  { change 0%Q with (inject_Z 0). by rewrite <- Zlt_Qlt. }
  apply Qle_shift_div_r; [done|]. rewrite Qmult_1_l, <- Zle_Qle.
  apply round_half_even_le.
  rewrite <- (Qmult_1_l (inject_Z (10 ^ Z.of_nat d))) at 2.
  apply Qmult_le_compat_r; [done|]. by apply Qlt_le_weak.
Qed.

Lemma loss_in_unit_interval (sent acked : Z) :
  0 ≤ acked ≤ sent → 0 < sent →
  (0 <= inject_Z (sent - acked) / inject_Z sent <= 1)%Q.
Proof.
  intros Hacked Hsent.
  assert (Hq : (0 < inject_Z sent)%Q).
  { change 0%Q with (inject_Z 0). by rewrite <- Zlt_Qlt. }
  split.
  - apply Qle_shift_div_l; [done|]. rewrite Qmult_0_l.
    change 0%Q with (inject_Z 0). rewrite <- Zle_Qle. lia.
  - apply Qle_shift_div_r; [done|]. rewrite Qmult_1_l, <- Zle_Qle. lia.
Qed.

Lemma paired_say v p c : paired c → paired (say v p c).
Proof.
  destruct (say_fields v p c) as (_ & _ & _ & _ & _ & A6 & A7 & _).
  unfold paired. by rewrite A6, A7.
Qed.

Lemma paired_observe v s tp tw c : paired c → paired (observe v s tp tw c).
Proof.
  intros Hp. unfold observe. destruct (ack_perf c !! s) eqn:E; [done|].
  assert (P : paired
    (Client (sent_count c) (ack_count c) (seen_seqs c) (send_perf c)
       (send_wall c) (<[s := tp]> (ack_perf c)) (<[s := tw]> (ack_wall c))
       (finalized c) (csv c) (datagrams c) (stdout c))).
  { unfold paired; cbn. intros s'. destruct (decide (s = s')) as [->|Hne].
    - rewrite !lookup_insert_eq. eauto.
    - rewrite !lookup_insert_ne by done. apply Hp. }
  destruct (send_perf c !! s); [by apply paired_say|done].
Qed.

Lemma paired_finalize seq o c : paired c → paired (finalize seq o c).
Proof.
  destruct (finalize_preserved seq o c) as (_ & _ & F2 & F3).
  unfold paired. by rewrite F2, F3.
Qed.

Lemma paired_wait_loop v seq dl its : ∀ c,
  paired c → paired (wait_loop v seq dl its c).1.
Proof.
  induction its as [|it rest IH]; intros c Hp; cbn [wait_loop]; [done|].
  destruct (Qle_bool (dl - now_head it) 0); [done|].
  destruct (rx it) as [p tp tw| |]; [|done|by apply IH, paired_say].
  destruct (ack_seq p) as [s|]; [|by apply IH, paired_say].
  destruct (decide (s = seq ∧ seq ∉ finalized (observe v s tp tw c))).
  - cbn. by apply paired_finalize, paired_observe.
  - by apply IH, paired_observe.
Qed.

Lemma paired_after_wait v seq got c : paired c → paired (after_wait v seq got c).
Proof.
  intros Hp. unfold after_wait. destruct got; [done|].
  destruct (decide (seq ∈ finalized c)); [done|].
  destruct (ack_perf c !! seq).
  - by apply paired_finalize.
  - by apply paired_say, paired_finalize.
Qed.

Lemma paired_turn_step a seq t c : paired c → paired (state (turn_step a seq t c)).
Proof.
  intros Hp. unfold turn_step. destruct (decide (seq ∈ seen_seqs c)); [done|].
  destruct (negb (t_send_ok t)); [done|].
  assert (Hp2 : paired (transmitted seq t (record_send seq t c))) by exact Hp.
  pose proof (paired_wait_loop (verbose a) seq (t_deadline_perf t + timeout a)%Q (t_iters t)
                (say (verbose a) (PSent seq) (transmitted seq t (record_send seq t c)))
                (paired_say _ _ _ Hp2)) as Hw.
  destruct (wait_loop _ _ _ _ _) as [c3 got]. cbn in *. by apply paired_after_wait.
Qed.

Lemma paired_main_loop a script seqs : ∀ c,
  paired c → paired (state (main_loop a seqs script c)).
Proof.
  induction seqs as [|seq rest IH]; intros c Hp; cbn [main_loop]; [done|].
  pose proof (paired_turn_step a seq (script seq) c Hp) as Ht.
  destruct (turn_step a seq (script seq) c); cbn in Ht; [by apply IH|done].
Qed.

(** The loop from [m] on while every probe can be sent. *)
Lemma main_loop_all_sent a script (len : nat) : ∀ m c,
  1 ≤ m → between_turns script m c →
  (∀ s, m ≤ s < m + Z.of_nat len → t_send_ok (script s) = true) →
  ∃ c', main_loop a (range m (m + Z.of_nat len)) script c = Finished c' ∧
        between_turns script (m + Z.of_nat len) c' ∧
        datagrams c' = datagrams c ++ map (probe_of script) (range m (m + Z.of_nat len)).
Proof.
  induction len as [|len IH]; intros m c Hm Hinv Hok.
  - rewrite range_nil by lia. exists c. cbn. by rewrite Z.add_0_r, app_nil_r.
  - rewrite range_cons by lia. cbn [main_loop map].
    assert (Hokm : t_send_ok (script m) = true) by (apply Hok; lia).
    destruct (turn_step_between_turns a script m c Hm Hinv Hokm) as (c1 & Hc1 & Hinv1).
    destruct (turn_step_spec a m (script m) c) as (c1' & Hc1' & _ & _ & _ & _ & D & _).
    { destruct Hinv as (_ & _ & I3 & _). rewrite I3. lia. }
    { done. }
    rewrite Hc1 in Hc1'. injection Hc1' as <-. rewrite Hc1.
    destruct (IH (m + 1) c1 ltac:(lia) Hinv1) as (c' & Hc' & Hinv' & D').
    { intros s Hs. apply Hok. lia. }
    replace (m + 1 + Z.of_nat len) with (m + Z.of_nat (S len)) in * by lia.
    exists c'. split_and!; [done|done|]. rewrite D', D, <- app_assoc. done.
Qed.

(** The loop from [m] on when the probe of [m + len] is the first that
    cannot be sent. *)
Lemma main_loop_send_fails a script (len : nat) : ∀ m hi c,
  1 ≤ m → m + Z.of_nat len < hi → between_turns script m c →
  (∀ s, m ≤ s < m + Z.of_nat len → t_send_ok (script s) = true) →
  t_send_ok (script (m + Z.of_nat len)) = false →
  ∃ cq, main_loop a (range m hi) script c =
          Crashed (record_send (m + Z.of_nat len) (script (m + Z.of_nat len)) cq) ∧
        between_turns script (m + Z.of_nat len) cq ∧
        datagrams cq = datagrams c ++ map (probe_of script) (range m (m + Z.of_nat len)).
Proof.
  induction len as [|len IH]; intros m hi c Hm Hhi Hinv Hok Hfail.
  - rewrite Z.add_0_r in *. rewrite (range_cons m hi) by lia. cbn [main_loop].
    rewrite turn_step_send_fails; [|destruct Hinv as (_ & _ & I3 & _); rewrite I3; lia|done].
    exists c. rewrite range_nil by lia. cbn. by rewrite app_nil_r.
  - rewrite (range_cons m hi) by lia. cbn [main_loop].
    assert (Hokm : t_send_ok (script m) = true) by (apply Hok; lia).
    destruct (turn_step_between_turns a script m c Hm Hinv Hokm) as (c1 & Hc1 & Hinv1).
    destruct (turn_step_spec a m (script m) c) as (c1' & Hc1' & _ & _ & _ & _ & D & _).
    { destruct Hinv as (_ & _ & I3 & _). rewrite I3. lia. }
    { done. }
    rewrite Hc1 in Hc1'. injection Hc1' as <-. rewrite Hc1.
    replace (m + Z.of_nat (S len)) with (m + 1 + Z.of_nat len) in * by lia.
    destruct (IH (m + 1) hi c1 ltac:(lia) Hhi Hinv1) as (cq & Hcq & Hinvq & Dq); [|done|].
    { intros s Hs. apply Hok. lia. }
    exists cq. split_and!; [done|done|].
    rewrite (range_cons m (m + 1 + Z.of_nat len)) by lia. cbn [map].
    rewrite Dq, D, <- app_assoc. done.
Qed.

Lemma acked_rows_length (rows : list row) :
  (length (acked_rows rows) ≤ length rows)%nat.
Proof. unfold acked_rows. apply length_filter. Qed.

End MoreClientFacts.

(** X1. At the end of a UDP session of N probes, N not negative: N probes
    were counted as sent, the log has N rows, the acknowledged count lies
    between 0 and the sent count, and the loss ratio of the summary is the
    integer 0 or a number between 0 and 1. *)
Theorem udp_counts_bounded `{Builtins}
    (a : A3_Client.args) (script : Z → A3_Client.turn) (c : A3_Client.client) :
  0 ≤ A3_Client.n a → A3_Client.run a script = A3_Client.Finished c →
  A3_Client.sent_count c = A3_Client.n a ∧
  Z.of_nat (length (A3_Client.csv c)) = A3_Client.n a ∧
  0 ≤ A3_Client.ack_count c ≤ A3_Client.sent_count c ∧
  ∃ v, field "loss_ratio" (A3_Client.summary a c) = Some v ∧
       (v = JInt 0 ∨ ∃ q, v = JFloat q ∧ (0 <= q <= 1)%Q).
Proof.
  intros Hn Hrun. pose proof (run_spec a script) as R. rewrite Hrun in R.
  destruct R as (I1 & _ & _ & I4 & I5 & _).
  rewrite Z.max_r in I1, I4 by lia.
  assert (Hlen : Z.of_nat (length (A3_Client.csv c)) = A3_Client.n a).
  { rewrite <- (length_map A3_Client.r_seq), I1, length_range. lia. }
  assert (Hack : 0 ≤ A3_Client.ack_count c ≤ A3_Client.sent_count c).
  { rewrite I5, I4. pose proof (acked_rows_length (A3_Client.csv c)). lia. }
  split_and!; try lia.
  unfold A3_Client.summary. cbn.
  destruct (decide (A3_Client.sent_count c = 0)); [eauto|].
  eexists. split; [done|]. right. eexists. split; [done|].
  destruct (b64_between_0_1 _
              (loss_in_unit_interval (A3_Client.sent_count c) (A3_Client.ack_count c)
                 ltac:(lia) ltac:(lia))) as [Hlo Hhi].
  split; [by apply round_dec_nonneg|by apply round_dec_le_1].
Qed.

(** X2. In the log of a UDP session that ran to its end every row carries
    the send time of its probe, rounded to 6 decimals; a TIMEOUT row has
    neither an acknowledgment time nor an RTT, an ACKED row has both. *)
Theorem udp_rows_well_formed `{Builtins}
    (a : A3_Client.args) (script : Z → A3_Client.turn) (c : A3_Client.client)
    (r : A3_Client.row) :
  A3_Client.run a script = A3_Client.Finished c → In r (A3_Client.csv c) →
  1 ≤ A3_Client.r_seq r ≤ A3_Client.n a ∧
  A3_Client.r_send_ts r =
    Some (round_dec 6 (A3_Client.t_send_wall (script (A3_Client.r_seq r)))) ∧
  match A3_Client.r_outcome r with
  | A3_Client.TIMEOUT => A3_Client.r_ack_ts r = None ∧ A3_Client.r_rtt_ms r = None
  | A3_Client.ACKED => is_Some (A3_Client.r_ack_ts r) ∧ is_Some (A3_Client.r_rtt_ms r)
  end.
Proof.
  intros Hrun Hin. pose proof (run_spec a script) as R. rewrite Hrun in R.
  assert (Hp : Further.paired c).
  { pose proof (paired_main_loop a script (range 1 (A3_Client.n a + 1)) A3_Client.init) as P.
    fold (A3_Client.run a script) in P. rewrite Hrun in P. apply P.
    intros s [x Hx]. cbn in Hx. by rewrite lookup_empty in Hx. }
  destruct R as (I1 & _ & _ & _ & _ & I6 & _ & I8).
  rewrite Forall_forall in I8. specialize (I8 r (proj2 (list_elem_of_In _ _) Hin)).
  assert (Hrange : 1 ≤ A3_Client.r_seq r < Z.max 1 (A3_Client.n a + 1)).
  { apply in_range. rewrite <- I1. by apply in_map. }
  destruct (I6 _ Hrange) as [Hs Hw].
  split; [lia|]. unfold Spec.row_ok in I8.
  destruct (A3_Client.r_outcome r) eqn:Eo.
  - destruct I8 as (Hr & x & q & Hx & _).
    destruct (Hp (A3_Client.r_seq r)) as [w Hw']; [by rewrite Hx|].
    rewrite Hr. cbn. rewrite Hw, Hs, Hx, Hw'. cbn. eauto.
  - rewrite I8. cbn. by rewrite Hw.
Qed.

(** X3. A UDP session in which every probe can be sent runs to its end, and
    what it has put on the wire is one probe for each of 1 to N, in this
    order, each carrying its number, its wall-clock send time and the text
    [Hello] with the number; the server reads these numbers back from
    them. *)
Theorem udp_probes_on_the_wire `{Builtins}
    (a : A3_Client.args) (script : Z → A3_Client.turn) :
  (∀ s, 1 ≤ s ≤ A3_Client.n a → A3_Client.t_send_ok (script s) = true) →
  ∃ c, A3_Client.run a script = A3_Client.Finished c ∧
    A3_Client.datagrams c =
      map (λ s, JObj [("seq", JInt s);
                      ("send_ts", JFloat (A3_Client.t_send_wall (script s)));
                      ("msg", JStr ("Hello " +:+ pretty s))]%string)
          (range 1 (A3_Client.n a + 1)) ∧
    omap (λ j, A3.probe_seq (Some j)) (A3_Client.datagrams c) = range 1 (A3_Client.n a + 1).
Proof.
  intros Hok. unfold A3_Client.run.
  destruct (Z_le_gt_dec (A3_Client.n a + 1) 1) as [Hle|Hgt].
  - rewrite range_nil by done. by exists A3_Client.init.
  - destruct (main_loop_all_sent a script (Z.to_nat (A3_Client.n a)) 1 A3_Client.init
                ltac:(lia) (init_between_turns script)) as (c & Hc & _ & D).
    { intros s Hs. apply Hok. lia. }
    replace (1 + Z.of_nat (Z.to_nat (A3_Client.n a))) with (A3_Client.n a + 1) in * by lia.
    exists c. cbn in D. split_and!; [done|done|].
    rewrite D. clear. induction (range 1 (A3_Client.n a + 1)) as [|s l IH]; [done|].
    cbn [map]. rewrite <- IH at 2. done.
Qed.

(** X4. When the probe of [q] is the first that cannot be sent, the UDP
    session ends there by the exception: the log holds the rows of 1 to
    [q - 1], these probes and no other went out, [q] is marked as seen with
    its send time stored but is not finalized, and no summary is printed. *)
Theorem udp_send_failure_ends_run `{Builtins}
    (a : A3_Client.args) (script : Z → A3_Client.turn) (q : Z) :
  1 ≤ q ≤ A3_Client.n a →
  (∀ s, 1 ≤ s < q → A3_Client.t_send_ok (script s) = true) →
  A3_Client.t_send_ok (script q) = false →
  ∃ c, A3_Client.run a script = A3_Client.Crashed c ∧
    A3_Client.main a script = A3_Client.Crashed (c, JNull) ∧
    map A3_Client.r_seq (A3_Client.csv c) = range 1 q ∧
    A3_Client.sent_count c = q - 1 ∧
    A3_Client.datagrams c = map (Further.probe_of script) (range 1 q) ∧
    q ∈ A3_Client.seen_seqs c ∧ (q ∉ A3_Client.finalized c) ∧
    A3_Client.send_perf c !! q = Some (A3_Client.t_send_perf (script q)).
Proof.
  intros Hq Hok Hfail. unfold A3_Client.main, A3_Client.run.
  destruct (main_loop_send_fails a script (Z.to_nat (q - 1)) 1 (A3_Client.n a + 1)
              A3_Client.init ltac:(lia)) as (cq & Hcq & Hinv & D).
  - lia.
  - apply init_between_turns.
  - intros s Hs. apply Hok. lia.
  - by replace (1 + Z.of_nat (Z.to_nat (q - 1))) with q by lia.
  - replace (1 + Z.of_nat (Z.to_nat (q - 1))) with q in * by lia.
    eexists. rewrite Hcq. split_and!; try done; cbn.
    + by destruct Hinv as (-> & _).
    + by destruct Hinv as (_ & _ & _ & -> & _).
    + apply elem_of_union_l, elem_of_singleton. done.
    + destruct Hinv as (_ & I2 & _). rewrite I2. lia.
    + by rewrite lookup_insert_eq.
Qed.

(** ** Verbosity and the timeout of the UDP client *)

Section VerboseClientFacts.

Context `{Builtins}.
Import A3_Client Spec Further.

Lemma same_but_stdout_say v1 v2 p1 p2 c1 c2 :
  same_but_stdout c1 c2 → same_but_stdout (say v1 p1 c1) (say v2 p2 c2).
Proof.
  intros (E1 & E2 & E3 & E4 & E5 & E6 & E7 & E8 & E9 & E10).
  destruct v1, v2; unfold same_but_stdout; cbn; by split_and!.
Qed.

Lemma same_but_stdout_observe v1 v2 s tp tw c1 c2 :
  same_but_stdout c1 c2 →
  same_but_stdout (observe v1 s tp tw c1) (observe v2 s tp tw c2).
Proof.
  intros Hc. pose proof Hc as (E1 & E2 & E3 & E4 & E5 & E6 & E7 & E8 & E9 & E10).
  unfold observe.
  replace (ack_perf c1 !! s) with (ack_perf c2 !! s) by (by rewrite E6).
  replace (send_perf c1 !! s) with (send_perf c2 !! s) by (by rewrite E4).
  destruct (ack_perf c2 !! s); [done|].
  assert (P : same_but_stdout
    (Client (sent_count c1) (ack_count c1) (seen_seqs c1) (send_perf c1)
       (send_wall c1) (<[s := tp]> (ack_perf c1)) (<[s := tw]> (ack_wall c1))
       (finalized c1) (csv c1) (datagrams c1) (stdout c1))
    (Client (sent_count c2) (ack_count c2) (seen_seqs c2) (send_perf c2)
       (send_wall c2) (<[s := tp]> (ack_perf c2)) (<[s := tw]> (ack_wall c2))
       (finalized c2) (csv c2) (datagrams c2) (stdout c2))).
  { unfold same_but_stdout; cbn. rewrite ?E6, ?E7. by split_and!. }
  destruct (send_perf c2 !! s); [by apply same_but_stdout_say|done].
Qed.

Lemma same_but_stdout_count_ack c1 c2 :
  same_but_stdout c1 c2 → same_but_stdout (count_ack c1) (count_ack c2).
Proof.
  intros (E1 & E2 & E3 & E4 & E5 & E6 & E7 & E8 & E9 & E10).
  unfold same_but_stdout; cbn. rewrite ?E2. by split_and!.
Qed.

Lemma same_but_stdout_finalize seq o c1 c2 :
  same_but_stdout c1 c2 → same_but_stdout (finalize seq o c1) (finalize seq o c2).
Proof.
  intros Hc. pose proof Hc as (E1 & E2 & E3 & E4 & E5 & E6 & E7 & E8 & E9 & E10).
  unfold finalize. rewrite E8. destruct (decide (seq ∈ finalized c2)); [done|].
  unfold same_but_stdout; cbn. rewrite ?E4, ?E5, ?E6, ?E7, ?E8, ?E9. by split_and!.
Qed.

Lemma same_but_stdout_wait_loop v1 v2 seq dl its : ∀ c1 c2,
  same_but_stdout c1 c2 →
  same_but_stdout (wait_loop v1 seq dl its c1).1 (wait_loop v2 seq dl its c2).1 ∧
  (wait_loop v1 seq dl its c1).2 = (wait_loop v2 seq dl its c2).2.
Proof.
  induction its as [|it rest IH]; intros c1 c2 Hc; cbn [wait_loop]; [done|].
  destruct (Qle_bool (dl - now_head it) 0); [done|].
  destruct (rx it) as [p tp tw| |]; [|done|by apply IH, same_but_stdout_say].
  destruct (ack_seq p) as [s|]; [|by apply IH, same_but_stdout_say].
  pose proof (same_but_stdout_observe v1 v2 s tp tw c1 c2 Hc) as Ho.
  assert (Ef : finalized (observe v1 s tp tw c1) = finalized (observe v2 s tp tw c2))
    by (by destruct Ho as (_ & _ & _ & _ & _ & _ & _ & -> & _)).
  rewrite Ef. destruct (decide (s = seq ∧ seq ∉ finalized (observe v2 s tp tw c2))).
  - cbn. split; [|done]. by apply same_but_stdout_finalize, same_but_stdout_count_ack.
  - by apply IH.
Qed.

Lemma same_but_stdout_after_wait v1 v2 seq got c1 c2 :
  same_but_stdout c1 c2 →
  same_but_stdout (after_wait v1 seq got c1) (after_wait v2 seq got c2).
Proof.
  intros Hc. unfold after_wait. destruct got; [done|].
  pose proof Hc as (_ & _ & _ & _ & _ & E6 & _ & E8 & _). rewrite E6, E8.
  destruct (decide (seq ∈ finalized c2)); [done|].
  destruct (ack_perf c2 !! seq).
  - by apply same_but_stdout_finalize, same_but_stdout_count_ack.
  - by apply same_but_stdout_say, same_but_stdout_finalize.
Qed.

Lemma same_but_stdout_turn_step a1 a2 seq t c1 c2 :
  timeout a1 = timeout a2 → same_but_stdout c1 c2 →
  match turn_step a1 seq t c1, turn_step a2 seq t c2 with
  | Finished c1', Finished c2' => same_but_stdout c1' c2'
  | Crashed c1', Crashed c2' => same_but_stdout c1' c2'
  | _, _ => False
  end.
Proof.
  intros Ht Hc. pose proof Hc as (E1 & E2 & E3 & E4 & E5 & E6 & E7 & E8 & E9 & E10).
  unfold turn_step. rewrite E3, Ht.
  destruct (decide (seq ∈ seen_seqs c2)); [done|].
  assert (Hsend : same_but_stdout (record_send seq t c1) (record_send seq t c2)).
  { unfold same_but_stdout; cbn. rewrite ?E3, ?E4, ?E5. by split_and!. }
  destruct (negb (t_send_ok t)); [done|].
  assert (Hsent : same_but_stdout
    (say (verbose a1) (PSent seq) (transmitted seq t (record_send seq t c1)))
    (say (verbose a2) (PSent seq) (transmitted seq t (record_send seq t c2)))).
  { apply same_but_stdout_say.
    unfold same_but_stdout; cbn. rewrite ?E1, ?E3, ?E4, ?E5, ?E10. by split_and!. }
  destruct (same_but_stdout_wait_loop (verbose a1) (verbose a2) seq
              (t_deadline_perf t + timeout a2)%Q (t_iters t) _ _ Hsent) as [Hw Hgot].
  destruct (wait_loop (verbose a1) _ _ _ _) as [c3 got1].
  destruct (wait_loop (verbose a2) _ _ _ _) as [c3' got2].
  cbn in Hw, Hgot. subst got2. by apply same_but_stdout_after_wait.
Qed.

Lemma same_but_stdout_main_loop a1 a2 script seqs : ∀ c1 c2,
  timeout a1 = timeout a2 → same_but_stdout c1 c2 →
  match main_loop a1 seqs script c1, main_loop a2 seqs script c2 with
  | Finished c1', Finished c2' => same_but_stdout c1' c2'
  | Crashed c1', Crashed c2' => same_but_stdout c1' c2'
  | _, _ => False
  end.
Proof.
  induction seqs as [|seq rest IH]; intros c1 c2 Ht Hc; cbn [main_loop]; [done|].
  pose proof (same_but_stdout_turn_step a1 a2 seq (script seq) c1 c2 Ht Hc) as Hs.
  destruct (turn_step a1 seq (script seq) c1), (turn_step a2 seq (script seq) c2);
    try done. by apply IH.
Qed.

(** With a timeout that is not positive the wait loop receives nothing. *)
Lemma wait_loop_no_budget v seq dl its c :
  (∀ it rest, its = it :: rest → (dl <= now_head it)%Q) →
  wait_loop v seq dl its c = (c, false).
Proof.
  intros Hlate. destruct its as [|it rest]; [done|]. cbn [wait_loop].
  assert (E : Qle_bool (dl - now_head it) 0 = true).
  { apply Qle_bool_iff. specialize (Hlate it rest eq_refl). lra. }
  by rewrite E.
Qed.

Lemma no_budget_turn a script m c :
  (timeout a <= 0)%Q →
  (∀ it rest, t_iters (script m) = it :: rest →
              (t_deadline_perf (script m) <= now_head it)%Q) →
  1 ≤ m → between_turns script m c → ack_perf c = ∅ →
  Forall (λ r, r_outcome r = TIMEOUT) (csv c) →
  t_send_ok (script m) = true →
  ∃ c', turn_step a m (script m) c = Finished c' ∧ between_turns script (m + 1) c' ∧
        ack_perf c' = ∅ ∧ Forall (λ r, r_outcome r = TIMEOUT) (csv c').
Proof.
  intros Hto Hclock Hm Hinv Hempty Hrows Hok.
  destruct (turn_step_between_turns a script m c Hm Hinv Hok) as (c' & Hc' & Hinv').
  assert (Hseen : m ∉ seen_seqs c) by (destruct Hinv as (_ & _ & I3 & _); rewrite I3; lia).
  assert (Hnf : m ∉ finalized c) by (destruct Hinv as (_ & I2 & _); rewrite I2; lia).
  set (c2 := say (verbose a) (PSent m) (transmitted m (script m) (record_send m (script m) c))).
  destruct (say_fields (verbose a) (PSent m)
              (transmitted m (script m) (record_send m (script m) c)))
    as (_ & _ & _ & _ & _ & A6 & _ & A8 & _).
  fold c2 in A6, A8. cbn in A6, A8.
  assert (Hstep : turn_step a m (script m) c = Finished (after_wait (verbose a) m false c2)).
  { unfold turn_step. rewrite decide_False by done. rewrite Hok. cbn [negb].
    fold c2. rewrite wait_loop_no_budget; [done|].
    intros it rest Hits. specialize (Hclock it rest Hits). lra. }
  assert (E' : ack_perf c' = ∅).
  { assert (Ec : c' = after_wait (verbose a) m false c2) by congruence.
    rewrite Ec. destruct (after_wait_spec (verbose a) m c2) as (_ & -> & _); [by rewrite A8|].
    by rewrite A6. }
  exists c'. split_and!; [done|done|done|].
  destruct (turn_step_spec a m (script m) c Hseen Hok)
    as (c'' & Hc'' & _ & _ & _ & _ & _ & _ & S7).
  assert (c'' = c') as -> by congruence.
  rewrite decide_False in S7 by done. destruct S7 as [_ S8].
  rewrite E', lookup_empty in S8. destruct S8 as [-> _].
  apply Forall_app. split; [done|]. by repeat constructor.
Qed.

Lemma no_budget_range a script (len : nat) : ∀ m c,
  (timeout a <= 0)%Q →
  (∀ s it rest, t_iters (script s) = it :: rest →
                (t_deadline_perf (script s) <= now_head it)%Q) →
  (∀ s, m ≤ s < m + Z.of_nat len → t_send_ok (script s) = true) →
  1 ≤ m → between_turns script m c → ack_perf c = ∅ →
  Forall (λ r, r_outcome r = TIMEOUT) (csv c) →
  ∃ c', main_loop a (range m (m + Z.of_nat len)) script c = Finished c' ∧
        between_turns script (m + Z.of_nat len) c' ∧
        ack_perf c' = ∅ ∧ Forall (λ r, r_outcome r = TIMEOUT) (csv c').
Proof.
  induction len as [|len IH]; intros m c Hto Hclock Hok Hm Hinv Hempty Hrows.
  - rewrite range_nil by lia. exists c. by rewrite Z.add_0_r.
  - rewrite range_cons by lia. cbn [main_loop].
    destruct (no_budget_turn a script m c Hto (Hclock m) Hm Hinv Hempty Hrows)
      as (c1 & -> & Hinv1 & Hempty1 & Hrows1); [apply Hok; lia|].
    destruct (IH (m + 1) c1 Hto Hclock) as (c' & Hc' & Hrest); try done; try lia.
    { intros s Hs. apply Hok. lia. }
    replace (m + 1 + Z.of_nat len) with (m + Z.of_nat (S len)) in * by lia.
    by exists c'.
Qed.

End VerboseClientFacts.

(** X5. [--verbose] changes only what the UDP client prints: two runs on
    the same environment that differ in verbosity alone end the same way
    (both to the end, or both by the same exception), with the same log,
    counters, stored times and probes sent, and print the same summary. *)
Theorem udp_verbose_changes_prints_only `{Builtins}
    (a1 a2 : A3_Client.args) (script : Z → A3_Client.turn) :
  A3_Client.n a1 = A3_Client.n a2 → A3_Client.timeout a1 = A3_Client.timeout a2 →
  A3_Client.seed a1 = A3_Client.seed a2 →
  match A3_Client.main a1 script, A3_Client.main a2 script with
  | A3_Client.Finished (c1, s1), A3_Client.Finished (c2, s2) =>
      Further.same_but_stdout c1 c2 ∧ s1 = s2
  | A3_Client.Crashed (c1, s1), A3_Client.Crashed (c2, s2) =>
      Further.same_but_stdout c1 c2 ∧ s1 = s2
  | _, _ => False
  end.
Proof.
  intros Hn Ht Hs. unfold A3_Client.main, A3_Client.run. rewrite Hn.
  pose proof (same_but_stdout_main_loop a1 a2 script (range 1 (A3_Client.n a2 + 1))
                A3_Client.init A3_Client.init Ht) as Hloop.
  destruct (A3_Client.main_loop a1 _ script _) as [c1|c1],
           (A3_Client.main_loop a2 _ script _) as [c2|c2];
    try (by apply Hloop); try (split; [by apply Hloop|done]).
  assert (Hc : Further.same_but_stdout c1 c2) by (by apply Hloop).
  split; [done|].
  destruct Hc as (E1 & E2 & _ & _ & _ & _ & _ & _ & E9 & _).
  unfold A3_Client.summary. by rewrite E1, E2, E9, Hs.
Qed.

(** X6. With a timeout of 0 and a monotonic clock that
    does not run backwards between reading the deadline and the first
    check of it, the UDP client receives nothing: if every probe can be
    sent, the session runs to its end with every row TIMEOUT, no
    acknowledgment counted and no observation stored. *)
Theorem udp_no_timeout_budget `{Builtins}
    (a : A3_Client.args) (script : Z → A3_Client.turn) :
  (A3_Client.timeout a == 0)%Q →
  (∀ s it rest, A3_Client.t_iters (script s) = it :: rest →
                (A3_Client.t_deadline_perf (script s) <= A3_Client.now_head it)%Q) →
  (∀ s, 1 ≤ s ≤ A3_Client.n a → A3_Client.t_send_ok (script s) = true) →
  ∃ c, A3_Client.run a script = A3_Client.Finished c ∧
    map (λ r, (A3_Client.r_seq r, A3_Client.r_outcome r)) (A3_Client.csv c) =
      map (λ s, (s, A3_Client.TIMEOUT)) (range 1 (A3_Client.n a + 1)) ∧
    A3_Client.ack_count c = 0 ∧ A3_Client.ack_perf c = ∅ ∧
    A3_Client.logged_rtts (A3_Client.csv c) = [].
Proof.
  intros Hzero Hclock Hok.
  assert (Hto : (A3_Client.timeout a <= 0)%Q) by (rewrite Hzero; apply Qle_refl).
  assert (Hall : ∀ rows : list A3_Client.row,
    Forall (λ r, A3_Client.r_outcome r = A3_Client.TIMEOUT) rows →
    map (λ r, (A3_Client.r_seq r, A3_Client.r_outcome r)) rows =
      map (λ s, (s, A3_Client.TIMEOUT)) (map A3_Client.r_seq rows) ∧
    Spec.acked_rows rows = [] ∧ A3_Client.logged_rtts rows = []).
  { induction 1 as [|r rows Hr _ (IH1 & IH2 & IH3)]; [done|].
    cbn [map A3_Client.logged_rtts flat_map]. fold (A3_Client.logged_rtts rows).
    rewrite IH1, IH3, Hr. split_and!; try done.
    unfold Spec.acked_rows in *. rewrite filter_cons, Hr, IH2. done. }
  unfold A3_Client.run. destruct (Z_le_gt_dec (A3_Client.n a + 1) 1) as [Hle|Hgt].
  - rewrite range_nil by done. by exists A3_Client.init.
  - destruct (no_budget_range a script (Z.to_nat (A3_Client.n a)) 1 A3_Client.init Hto Hclock)
      as (c & Hc & Hinv & Hempty & Hrows); try done.
    { intros s Hs. apply Hok. lia. }
    { apply init_between_turns. }
    replace (1 + Z.of_nat (Z.to_nat (A3_Client.n a))) with (A3_Client.n a + 1) in * by lia.
    destruct (Hall _ Hrows) as (H1 & H2 & H3).
    exists c. destruct Hinv as (I1 & _ & _ & _ & I5 & _).
    split_and!; try done.
    + by rewrite H1, I1.
    + by rewrite I5, H2.
Qed.

(** ** Further properties of the UDP server *)

Section MoreServerFacts.

Context `{Builtins} `{A3.Random}.
Import A3 Spec Further.

Lemma sends_app es1 es2 : sends (es1 ++ es2) = sends es1 ++ sends es2.
Proof. unfold sends. apply flat_map_app. Qed.

Lemma sends_when b p : sends (when b (EStdout p)) = [].
Proof. by destruct b. Qed.

(** One datagram: it is counted, gets one decision, and is answered by at
    most one acknowledgment, which is then the one of [answer_of]. *)
Lemma serve_step a d s :
  recv_count (serve a d s) = recv_count s + 1 ∧
  ∃ dec,
    decisions (serve a d s) = decisions s ++ [dec] ∧
    match dec with
    | Acked seq =>
        answer_of d = Some (ack_of seq (recv_ts d), from d) ∧
        sends (effects (serve a d s)) =
          sends (effects s) ++ [(ack_of seq (recv_ts d), from d)]
    | _ => sends (effects (serve a d s)) = sends (effects s)
    end.
Proof.
  unfold serve, emit, answer_of. destruct (probe_seq (payload d)) as [seq|].
  - destruct ((0 <? drop_k a) && (seq mod drop_k a =? 0)).
    { cbn. split; [done|]. exists (DroppedK seq). split; [done|].
      by rewrite sends_app, sends_when, app_nil_r. }
    destruct (Qltb 0 (loss_prob a)).
    + cbn [gen]. destruct (random_random (gen s)) as [u g].
      destruct (Qltb u (loss_prob a)); cbn; (split; [done|]).
      * exists (DroppedProb seq). split; [done|].
        by rewrite sends_app, sends_when, app_nil_r.
      * exists (Acked seq). split; [done|]. split; [done|].
        rewrite sends_app. cbn. by rewrite sends_when.
    + cbn. split; [done|]. exists (Acked seq). split; [done|]. split; [done|].
      rewrite sends_app. cbn. by rewrite sends_when.
  - cbn. split; [done|]. exists Malformed. by rewrite app_nil_r.
Qed.

Lemma serve_all_cons a d rest s :
  serve_all a (d :: rest) s = serve_all a rest (serve a d s).
Proof. reflexivity. Qed.

Lemma serve_all_step a traffic : ∀ s,
  recv_count (serve_all a traffic s) = recv_count s + Z.of_nat (length traffic) ∧
  length (decisions (serve_all a traffic s)) =
    (length (decisions s) + length traffic)%nat ∧
  ∃ new, sends (effects (serve_all a traffic s)) = sends (effects s) ++ new ∧
         new `sublist_of` omap answer_of traffic.
Proof.
  induction traffic as [|d rest IH]; intros s.
  - cbn. split_and!; [lia|lia|]. exists []. by rewrite app_nil_r.
  - rewrite serve_all_cons. destruct (IH (serve a d s)) as (-> & -> & new & -> & Hsub).
    destruct (serve_step a d s) as (-> & dec & -> & Hdec).
    rewrite length_app. cbn [length]. split_and!; [lia|lia|].
    destruct dec as [|seq|seq|seq].
    + rewrite Hdec. exists new. split; [done|].
      cbn [omap list_omap]. destruct (answer_of d); [by constructor|done].
    + rewrite Hdec. exists new. split; [done|].
      cbn [omap list_omap]. destruct (answer_of d); [by constructor|done].
    + rewrite Hdec. exists new. split; [done|].
      cbn [omap list_omap]. destruct (answer_of d); [by constructor|done].
    + destruct Hdec as [Hans ->]. eexists (_ :: new). rewrite <- app_assoc.
      split; [done|]. cbn [omap list_omap]. rewrite Hans. by constructor.
Qed.

(** Without a loss model every datagram that parses is answered and the
    generator is left alone. *)
Lemma serve_all_no_loss a traffic : ∀ s,
  drop_k a ≤ 0 → Qltb 0 (loss_prob a) = false →
  sends (effects (serve_all a traffic s)) = sends (effects s) ++ omap answer_of traffic ∧
  gen (serve_all a traffic s) = gen s ∧
  dropped (decisions (serve_all a traffic s)) = dropped (decisions s).
Proof.
  intros s Hk Hp. revert s. induction traffic as [|d rest IH]; intros s.
  - cbn. by rewrite app_nil_r.
  - rewrite serve_all_cons. destruct (IH (serve a d s)) as (-> & -> & ->).
    assert (Hkb : (0 <? drop_k a) = false) by (apply Z.ltb_ge; lia).
    unfold serve, emit, answer_of. cbn [omap list_omap]. unfold answer_of.
    destruct (probe_seq (payload d)) as [seq|]; rewrite ?Hkb, ?Hp; cbn.
    + rewrite sends_app, dropped_snoc, app_nil_r, <- app_assoc. cbn.
      by rewrite sends_when.
    + by rewrite dropped_snoc, !app_nil_r.
Qed.

(** With a loss probability of 1 or more and a generator that stays below
    1, nothing is ever sent. *)
Lemma serve_all_certain_loss a traffic : ∀ s,
  drop_k a ≤ 0 → (1 <= loss_prob a)%Q →
  (∀ g, ((random_random g).1 < 1)%Q) →
  sends (effects (serve_all a traffic s)) = sends (effects s) ∧
  dropped (decisions (serve_all a traffic s)) = dropped (decisions s) ++ arrivals traffic.
Proof.
  intros s Hk Hp Hunit. revert s. induction traffic as [|d rest IH]; intros s.
  - cbn. by rewrite app_nil_r.
  - rewrite serve_all_cons, arrivals_cons. destruct (IH (serve a d s)) as (-> & ->).
    assert (Hkb : (0 <? drop_k a) = false) by (apply Z.ltb_ge; lia).
    assert (Hpb : Qltb 0 (loss_prob a) = true) by (apply Qltb_lt; lra).
    unfold serve, emit. destruct (probe_seq (payload d)) as [seq|]; rewrite ?Hkb, ?Hpb; cbn.
    + specialize (Hunit (gen s)). destruct (random_random (gen s)) as [u g]. cbn in Hunit.
      assert (Hu : Qltb u (loss_prob a) = true) by (apply Qltb_lt; lra).
      rewrite Hu. cbn. rewrite sends_app, sends_when, app_nil_r, dropped_snoc, <- app_assoc.
      done.
    + by rewrite dropped_snoc, !app_nil_r.
Qed.

(** How often the generator is used. *)
Lemma gen_after_bernoulli p k g seqs :
  k ≤ 0 → Qltb 0 p = true →
  gen_after p k g seqs = Nat.iter (length seqs) next g.
Proof.
  intros Hk Hp. assert (Hkb : (0 <? k) = false) by (apply Z.ltb_ge; lia).
  revert g. induction seqs as [|seq rest IH]; intros g; [done|].
  cbn [gen_after length]. rewrite Hkb, Hp. cbn [andb]. rewrite IH.
  unfold next. by rewrite Nat.iter_succ_r.
Qed.

Lemma gen_after_no_bernoulli p k g seqs :
  Qltb 0 p = false → gen_after p k g seqs = g.
Proof.
  intros Hp. revert g. induction seqs as [|seq rest IH]; intros g; [done|].
  cbn [gen_after]. rewrite Hp. by destruct ((0 <? k) && (seq mod k =? 0)).
Qed.

(** Two servers with the same loss parameters, started from states with
    the same count and generator, treat any traffic alike but for what
    they print. *)
Lemma serve_but_prints a1 a2 d s1 s2 :
  loss_prob a1 = loss_prob a2 → drop_k a1 = drop_k a2 →
  recv_count s1 = recv_count s2 → gen s1 = gen s2 →
  decisions s1 = decisions s2 → sends (effects s1) = sends (effects s2) →
  recv_count (serve a1 d s1) = recv_count (serve a2 d s2) ∧
  gen (serve a1 d s1) = gen (serve a2 d s2) ∧
  decisions (serve a1 d s1) = decisions (serve a2 d s2) ∧
  sends (effects (serve a1 d s1)) = sends (effects (serve a2 d s2)).
Proof.
  intros Hp Hk Hc Hg Hd Hs. unfold serve, emit. rewrite Hp, Hk, Hc, Hg, Hd.
  destruct (probe_seq (payload d)) as [seq|].
  - destruct ((0 <? drop_k a2) && (seq mod drop_k a2 =? 0)).
    { cbn. by rewrite !sends_app, !sends_when, Hs. }
    cbn [gen]. destruct (Qltb 0 (loss_prob a2)).
    + destruct (random_random (gen s2)) as [u g]. destruct (Qltb u (loss_prob a2)); cbn.
      * by rewrite !sends_app, !sends_when, Hs.
      * rewrite !sends_app. cbn. by rewrite !sends_when, Hs.
    + cbn. rewrite !sends_app. cbn. by rewrite !sends_when, Hs.
  - cbn. by rewrite !app_nil_r.
Qed.

Lemma serve_all_but_prints a1 a2 traffic : ∀ s1 s2,
  loss_prob a1 = loss_prob a2 → drop_k a1 = drop_k a2 →
  recv_count s1 = recv_count s2 → gen s1 = gen s2 →
  decisions s1 = decisions s2 → sends (effects s1) = sends (effects s2) →
  recv_count (serve_all a1 traffic s1) = recv_count (serve_all a2 traffic s2) ∧
  gen (serve_all a1 traffic s1) = gen (serve_all a2 traffic s2) ∧
  decisions (serve_all a1 traffic s1) = decisions (serve_all a2 traffic s2) ∧
  sends (effects (serve_all a1 traffic s1)) = sends (effects (serve_all a2 traffic s2)).
Proof.
  intros s1 s2 Hp Hk. revert s1 s2.
  induction traffic as [|d rest IH]; intros s1 s2 Hc Hg Hd Hs; [done|].
  rewrite !serve_all_cons.
  destruct (serve_but_prints a1 a2 d s1 s2 Hp Hk Hc Hg Hd Hs) as (E1 & E2 & E3 & E4).
  by apply IH.
Qed.

End MoreServerFacts.

(** X7. The UDP server counts every datagram it receives, whether it
    parses, is dropped or is answered, and decides on each exactly once.
    When the two loss options do not conflict, [main] first creates,
    configures and binds the socket, and on the interrupt prints a summary
    with this count and the loss model in force and exits with status 0. *)
Theorem server_counts_every_datagram `{Builtins} `{A3.Random}
    (a : A3.args) (traffic : list A3.datagram) :
  (∀ s, A3.recv_count (A3.serve_all a traffic s) =
          A3.recv_count s + Z.of_nat (length traffic) ∧
        length (A3.decisions (A3.serve_all a traffic s)) =
          (length (A3.decisions s) + length traffic)%nat) ∧
  (Qltb 0 (A3.loss_prob a) && (0 <? A3.drop_k a) = false →
   ∃ body, A3.main a traffic =
     [A3.ESocket; A3.ESetsockopt; A3.EBind (A3.host a) (A3.port a)] ++ body ++
     [A3.EStdout (A3.PSummary (Z.of_nat (length traffic)) (A3.model_of a)
                    (A3.drop_k a) (A3.loss_prob a) (A3.seed a));
      A3.EExit 0]).
Proof.
  split.
  - intros s. by destruct (serve_all_step a traffic s) as (-> & -> & _).
  - intros Hno. unfold A3.main. rewrite Hno.
    destruct (serve_all_step a traffic (A3.startup a)) as (-> & _).
    assert (Heff : ∀ l s, ∃ more, A3.effects (A3.serve_all a l s) = A3.effects s ++ more).
    { clear. induction l as [|d rest IH]; intros s.
      - exists []. cbn. by rewrite app_nil_r.
      - rewrite serve_all_cons. destruct (IH (A3.serve a d s)) as (more & ->).
        assert (∃ m1, A3.effects (A3.serve a d s) = A3.effects s ++ m1) as (m1 & ->).
        { unfold A3.serve, A3.emit. destruct (A3.probe_seq (A3.payload d)) as [seq|];
            [|by eexists].
          destruct ((0 <? A3.drop_k a) && (seq mod A3.drop_k a =? 0)); [by eexists|].
          cbn [A3.gen]. destruct (Qltb 0 (A3.loss_prob a)); [|by eexists].
          destruct (A3.random_random (A3.gen s)) as [u g].
          destruct (Qltb u (A3.loss_prob a)); by eexists. }
        exists (m1 ++ more). by rewrite app_assoc. }
    destruct (Heff traffic (A3.startup a)) as (more & ->).
    exists (A3.when (A3.verbose a)
              (A3.EStdout (A3.PListening (A3.host a) (A3.port a) (A3.loss_prob a)
                             (A3.drop_k a) (A3.seed a))) ++ more).
    cbn. by rewrite <- !app_assoc.
Qed.

(** X8. Every acknowledgment the UDP server sends answers one received
    datagram that parses: it carries that datagram's sequence number and
    receive time and goes to its sender. The acknowledgments leave in
    arrival order and no datagram is answered twice. *)
Theorem server_acks_answer_datagrams `{Builtins} `{A3.Random}
    (a : A3.args) (traffic : list A3.datagram) (s : A3.server) :
  ∃ new,
    Further.sends (A3.effects (A3.serve_all a traffic s)) =
      Further.sends (A3.effects s) ++ new ∧
    new `sublist_of` omap Further.answer_of traffic ∧
    (length new ≤ length traffic)%nat ∧
    (∀ ack to, In (ack, to) new →
       ∃ d seq, In d traffic ∧ A3.probe_seq (A3.payload d) = Some seq ∧
                ack = A3.ack_of seq (A3.recv_ts d) ∧ to = A3.from d).
Proof.
  destruct (serve_all_step a traffic s) as (_ & _ & new & Hnew & Hsub).
  exists new. split_and!; [done|done| |].
  - apply sublist_length in Hsub. etrans; [exact Hsub|].
    clear. induction traffic as [|d rest IH]; [done|].
    cbn. destruct (Further.answer_of d); cbn; lia.
  - intros ack to Hin.
    assert (Hin' : (ack, to) ∈ omap Further.answer_of traffic).
    { apply (sublist_subseteq _ _ Hsub). by apply list_elem_of_In. }
    apply list_elem_of_omap in Hin' as (d & Hd & Hans).
    unfold Further.answer_of in Hans.
    destruct (A3.probe_seq (A3.payload d)) as [seq|] eqn:E; [|done].
    injection Hans as <- <-. exists d, seq. split; [by apply list_elem_of_In|done].
Qed.

(** X9. A UDP server without a loss model (no positive [--drop-k], no
    positive loss probability) answers every datagram that parses, drops
    nothing, and never consults the random generator. *)
Theorem server_without_loss_model `{Builtins} `{A3.Random}
    (a : A3.args) (traffic : list A3.datagram) (s : A3.server) :
  A3.drop_k a ≤ 0 → (A3.loss_prob a <= 0)%Q →
  Further.sends (A3.effects (A3.serve_all a traffic s)) =
    Further.sends (A3.effects s) ++ omap Further.answer_of traffic ∧
  A3.gen (A3.serve_all a traffic s) = A3.gen s ∧
  A3.dropped (A3.decisions (A3.serve_all a traffic s)) = A3.dropped (A3.decisions s).
Proof.
  intros Hk Hp. apply serve_all_no_loss; [done|by apply Qltb_off].
Qed.

(** X10. With a loss probability of 1 or more, and a generator whose
    draws stay below 1 as those of [random.random()] do, the UDP server
    never sends anything: every datagram that parses is dropped. *)
Theorem server_certain_loss `{Builtins} `{A3.Random}
    (a : A3.args) (traffic : list A3.datagram) (s : A3.server) :
  A3.drop_k a ≤ 0 → (1 <= A3.loss_prob a)%Q →
  (∀ g, ((A3.random_random g).1 < 1)%Q) →
  Further.sends (A3.effects (A3.serve_all a traffic s)) = Further.sends (A3.effects s) ∧
  A3.dropped (A3.decisions (A3.serve_all a traffic s)) =
    A3.dropped (A3.decisions s) ++ Spec.arrivals traffic.
Proof. intros Hk Hp Hunit. by apply serve_all_certain_loss. Qed.

(** X11. The UDP server consults the random generator exactly once for
    each datagram that parses when only the loss probability is set, and
    never when the loss probability is not positive; datagrams that do not
    parse never cost a draw. *)
Theorem server_generator_use `{Builtins} `{A3.Random}
    (a : A3.args) (traffic : list A3.datagram) (s : A3.server) :
  (A3.drop_k a ≤ 0 → (0 < A3.loss_prob a)%Q →
   A3.gen (A3.serve_all a traffic s) =
     Nat.iter (length (Spec.arrivals traffic)) Further.next (A3.gen s)) ∧
  ((A3.loss_prob a <= 0)%Q → A3.gen (A3.serve_all a traffic s) = A3.gen s).
Proof.
  destruct (serve_all_drops a traffic s) as [-> _]. split.
  - intros Hk Hp. apply gen_after_bernoulli; [done|by apply Qltb_lt].
  - intros Hp. apply gen_after_no_bernoulli. by apply Qltb_off.
Qed.

(** X12. Host, port and verbosity do not change what the UDP server does
    to the traffic: two servers with the same seed, loss probability and
    [--drop-k] count, decide and answer alike; only the printed lines
    differ. *)
Theorem server_verbose_changes_prints_only `{Builtins} `{A3.Random}
    (a1 a2 : A3.args) (traffic : list A3.datagram) :
  A3.seed a1 = A3.seed a2 → A3.loss_prob a1 = A3.loss_prob a2 →
  A3.drop_k a1 = A3.drop_k a2 →
  let s1 := A3.serve_all a1 traffic (A3.startup a1) in
  let s2 := A3.serve_all a2 traffic (A3.startup a2) in
  A3.recv_count s1 = A3.recv_count s2 ∧ A3.gen s1 = A3.gen s2 ∧
  A3.decisions s1 = A3.decisions s2 ∧
  Further.sends (A3.effects s1) = Further.sends (A3.effects s2).
Proof.
  intros Hs Hp Hk. cbn zeta. apply serve_all_but_prints; try done.
  - cbn. by rewrite Hs.
  - unfold A3.startup. cbn [A3.effects]. by rewrite !sends_app, !sends_when.
Qed.

(** ** The TCP server and the TCP client *)

Section MoreTcpFacts.

Context `{Builtins}.
Import Further.








Import A3_TCP_Client.


(** Every row agrees with the script, whatever happens. *)
Lemma loop_rows_ok v script seqs : ∀ c,
  Forall (tcp_row_ok script) (results c) →
  Forall (tcp_row_ok script) (results (loop v seqs script c)).
Proof.
  induction seqs as [|seq rest IH]; intros c Hc; cbn [loop]; [done|].
  destruct (try_probe (script seq)) as [ack_ts rtt_ms| |] eqn:E; [| |done].
  - apply IH. cbn. apply Forall_app. split; [done|]. constructor; [|done].
    unfold tcp_row_ok; cbn. split; [done|]. right.
    unfold try_probe in E. destruct (net (script seq)) as [| | | |p t_now]; try done.
    destruct p as [ack|]; [|done].
    destruct (dict_get_default ack "server_recv_ts" (JFloat t_now)) as [j|]; [|done].
    destruct (to_float j) as [x|] eqn:Ex; [|done]. injection E as <- <-. eauto.
  - apply IH. cbn. apply Forall_app. split; [done|]. constructor; [|done].
    unfold tcp_row_ok; cbn. auto.
Qed.

(** The rows and the probes of a session, whatever happens: all of them
    up to the first exception that is not a timeout. *)
Lemma loop_until v script (len : nat) : ∀ lo c,
  ∃ k : nat, (k ≤ len)%nat ∧
    (∀ q, lo ≤ q < lo + Z.of_nat k → try_probe (script q) ≠ Raised) ∧
    map r_seq (results (loop v (range lo (lo + Z.of_nat len)) script c)) =
      map r_seq (results c) ++ range lo (lo + Z.of_nat k) ∧
    ((k = len ∧
      sendall_calls (loop v (range lo (lo + Z.of_nat len)) script c) =
        sendall_calls c ++ range lo (lo + Z.of_nat k)) ∨
     ((k < len)%nat ∧ try_probe (script (lo + Z.of_nat k)) = Raised ∧
      sendall_calls (loop v (range lo (lo + Z.of_nat len)) script c) =
        sendall_calls c ++ range lo (lo + Z.of_nat k + 1))).
Proof.
  induction len as [|len IH]; intros lo c.
  - exists 0%nat. rewrite !Z.add_0_r, range_nil by lia. cbn. rewrite !app_nil_r.
    split_and!; [lia|intros q Hq; lia|done|by left].
  - rewrite range_cons by lia. cbn [loop].
    replace (lo + Z.of_nat (S len)) with (lo + 1 + Z.of_nat len) by lia.
    destruct (try_probe (script lo)) as [ack_ts rtt_ms| |] eqn:E.
    + destruct (IH (lo + 1)
                  (Client (results c ++ [Row lo (send_ts (script lo)) (Some ack_ts)
                                           (Some rtt_ms)])
                     (rtts c ++ [rtt_ms]) (sendall_calls c ++ [lo])
                     (stdout c ++ when v (PAck lo rtt_ms))))
        as (k & Hk & Hclean & Hrows & Hcalls).
      exists (S k). replace (lo + Z.of_nat (S k)) with (lo + 1 + Z.of_nat k) by lia.
      rewrite (range_cons lo (lo + 1 + Z.of_nat k)) by lia.
      split_and!; [lia| | |].
      * intros q Hq. destruct (Z.eq_dec q lo) as [->|Hne]; [by rewrite E|].
        apply Hclean. lia.
      * rewrite Hrows. cbn. by rewrite map_app, <- app_assoc.
      * destruct Hcalls as [[-> Hc]|(Hlt & Hr & Hc)].
        -- left. split; [done|]. rewrite Hc. cbn. by rewrite <- app_assoc.
        -- right. split_and!; [lia|done|]. rewrite Hc. cbn.
           rewrite (range_cons lo (lo + 1 + Z.of_nat k + 1)) by lia.
           by rewrite <- app_assoc.
    + destruct (IH (lo + 1)
                  (Client (results c ++ [Row lo (send_ts (script lo)) None None])
                     (rtts c) (sendall_calls c ++ [lo])
                     (stdout c ++ when v (PTimeout lo))))
        as (k & Hk & Hclean & Hrows & Hcalls).
      exists (S k). replace (lo + Z.of_nat (S k)) with (lo + 1 + Z.of_nat k) by lia.
      rewrite (range_cons lo (lo + 1 + Z.of_nat k)) by lia.
      split_and!; [lia| | |].
      * intros q Hq. destruct (Z.eq_dec q lo) as [->|Hne]; [by rewrite E|].
        apply Hclean. lia.
      * rewrite Hrows. cbn. by rewrite map_app, <- app_assoc.
      * destruct Hcalls as [[-> Hc]|(Hlt & Hr & Hc)].
        -- left. split; [done|]. rewrite Hc. cbn. by rewrite <- app_assoc.
        -- right. split_and!; [lia|done|]. rewrite Hc. cbn.
           rewrite (range_cons lo (lo + 1 + Z.of_nat k + 1)) by lia.
           by rewrite <- app_assoc.
    + exists 0%nat. rewrite !Z.add_0_r. cbn. rewrite range_nil by lia.
      rewrite (range_cons lo (lo + 1)) by lia. rewrite (range_nil (lo + 1)) by lia.
      rewrite app_nil_r. split_and!; [lia|intros q Hq; lia|done|].
      right. split_and!; [lia|done|done].
Qed.


End MoreTcpFacts.


(** X14. Whatever happens in a TCP session, the rows are those of 1 up to
    some [m], in order, the probes before [m] met nothing worse than a
    timeout, and either [m] is past N and exactly the probes of 1 to N were
    handed to [sendall], or the probe of [m] met an exception that is not a
    timeout and was the last one handed to [sendall]. *)
Theorem tcp_rows_are_a_prefix
    (a : A3_TCP_Client.args) (script : Z → A3_TCP_Client.turn) :
  let c := A3_TCP_Client.run a script in
  ∃ m, 1 ≤ m ≤ Z.max 1 (A3_TCP_Client.n a + 1) ∧
    map A3_TCP_Client.r_seq (A3_TCP_Client.results c) = range 1 m ∧
    (∀ q, 1 ≤ q < m → A3_TCP_Client.try_probe (script q) ≠ A3_TCP_Client.Raised) ∧
    ((m = Z.max 1 (A3_TCP_Client.n a + 1) ∧
      A3_TCP_Client.sendall_calls c = range 1 m) ∨
     (m ≤ A3_TCP_Client.n a ∧
      A3_TCP_Client.try_probe (script m) = A3_TCP_Client.Raised ∧
      A3_TCP_Client.sendall_calls c = range 1 (m + 1))).
Proof.
  cbn zeta. unfold A3_TCP_Client.run.
  destruct (Z_le_gt_dec (A3_TCP_Client.n a + 1) 1) as [Hle|Hgt].
  - rewrite (range_nil 1 (A3_TCP_Client.n a + 1)) by done. exists 1.
    rewrite Z.max_l by lia. cbn.
    split; [lia|]. split; [by rewrite range_nil by lia|].
    split; [intros q Hq; lia|]. left. split; [done|]. by rewrite range_nil by lia.
  - destruct (loop_until (A3_TCP_Client.verbose a) script (Z.to_nat (A3_TCP_Client.n a)) 1
                A3_TCP_Client.init) as (k & Hk & Hclean & Hrows & Hcalls).
    replace (1 + Z.of_nat (Z.to_nat (A3_TCP_Client.n a))) with (A3_TCP_Client.n a + 1)
      in * by lia.
    exists (1 + Z.of_nat k). rewrite Z.max_r by lia. cbn in Hrows.
    split; [lia|]. split; [done|]. split; [done|].
    destruct Hcalls as [[-> Hc]|(Hlt & Hr & Hc)].
    + left. split; [lia|done].
    + right. split_and!; [lia|done|done].
Qed.

(** X15. In any TCP session every row carries the wall-clock send time of
    its probe; a row written on a timeout has neither an acknowledgment
    time nor an RTT; a row written on a reply has the time the reply
    carries (or the substituted one) and as RTT that time minus the send
    time, times 1000. The RTT values that the statistics use are exactly
    those of the rows, in order, so they are never more than the rows. *)
Theorem tcp_rows_agree_with_script
    (a : A3_TCP_Client.args) (script : Z → A3_TCP_Client.turn) :
  let c := A3_TCP_Client.run a script in
  Forall (Further.tcp_row_ok script) (A3_TCP_Client.results c) ∧
  A3_TCP_Client.rtts c = omap A3_TCP_Client.r_rtt_ms (A3_TCP_Client.results c) ∧
  (length (A3_TCP_Client.rtts c) ≤ length (A3_TCP_Client.results c))%nat.
Proof.
  cbn zeta. unfold A3_TCP_Client.run.
  destruct (loop_appends (A3_TCP_Client.verbose a) script
              (range 1 (A3_TCP_Client.n a + 1)) A3_TCP_Client.init)
    as (rows & values & calls & Hrows & Hvalues & _ & ->).
  cbn in Hrows, Hvalues. split_and!.
  - by apply loop_rows_ok.
  - by rewrite Hrows, Hvalues.
  - rewrite Hrows, Hvalues. clear. induction rows as [|r rows IH]; [done|].
    cbn. destruct (A3_TCP_Client.r_rtt_ms r); cbn; lia.
Qed.


(** ** The sleep between two probes *)


(** ** Sessions in which every acknowledgment comes back at once *)

Section PromptFacts.

Context `{Builtins}.
Import A3_Client Spec Further.

Lemma acked_rows_all (rows : list row) :
  Forall (λ r, r_outcome r = ACKED) rows → acked_rows rows = rows.
Proof.
  induction 1 as [|r rows Hr _ IH]; [done|].
  unfold acked_rows in *. rewrite filter_cons, decide_True by done. by rewrite IH.
Qed.

Lemma prompt_turn a script m c :
  1 ≤ m → between_turns script m c → Forall (λ r, r_outcome r = ACKED) (csv c) →
  prompt a (script m) m →
  ∃ c', turn_step a m (script m) c = Finished c' ∧
        between_turns script (m + 1) c' ∧ Forall (λ r, r_outcome r = ACKED) (csv c').
Proof.
  intros Hm Hinv Hall (Hok & it & rest & p & tp & tw & Hits & Hrx & Hs & Hdl).
  destruct (turn_step_between_turns a script m c Hm Hinv Hok) as (c' & Hc' & Hinv').
  exists c'. split; [done|]. split; [done|].
  destruct Hinv as (_ & I2 & I3 & _).
  assert (Hseen : m ∉ seen_seqs c) by (rewrite I3; lia).
  assert (Hnf : m ∉ finalized c) by (rewrite I2; lia).
  destruct (turn_step_spec a m (script m) c Hseen Hok)
    as (c'' & Hc'' & _ & _ & _ & _ & _ & _ & S7).
  assert (c'' = c') as -> by congruence.
  rewrite decide_False in S7 by done. destruct S7 as [_ S8].
  destruct (turn_step_observed a m (script m) it rest p tp tw m c c' Hits Hrx Hs Hdl Hc')
    as [x Hx].
  rewrite Hx in S8. destruct S8 as [-> _].
  apply Forall_app. split; [done|]. by constructor.
Qed.

Lemma prompt_range a script (len : nat) : ∀ m c,
  1 ≤ m → between_turns script m c → Forall (λ r, r_outcome r = ACKED) (csv c) →
  (∀ q, m ≤ q < m + Z.of_nat len → prompt a (script q) q) →
  ∃ c', main_loop a (range m (m + Z.of_nat len)) script c = Finished c' ∧
        between_turns script (m + Z.of_nat len) c' ∧
        Forall (λ r, r_outcome r = ACKED) (csv c').
Proof.
  induction len as [|len IH]; intros m c Hm Hinv Hall Hp.
  - rewrite range_nil by lia. exists c. by rewrite Z.add_0_r.
  - rewrite range_cons by lia. cbn [main_loop].
    destruct (prompt_turn a script m c Hm Hinv Hall ltac:(apply Hp; lia))
      as (c1 & -> & Hinv1 & Hall1).
    destruct (IH (m + 1) c1 ltac:(lia) Hinv1 Hall1) as (c' & Hc' & Hinv' & Hall').
    { intros q Hq. apply Hp. lia. }
    replace (m + 1 + Z.of_nat len) with (m + Z.of_nat (S len)) in * by lia.
    by exists c'.
Qed.

Lemma prompt_run a script :
  (∀ q, 1 ≤ q ≤ n a → prompt a (script q) q) →
  ∃ c, run a script = Finished c ∧
       map (λ r, (r_seq r, r_outcome r)) (csv c) =
         map (λ s, (s, ACKED)) (range 1 (n a + 1)) ∧
       sent_count c = Z.max 0 (n a) ∧ ack_count c = Z.max 0 (n a) ∧
       between_turns script (Z.max 1 (n a + 1)) c.
Proof.
  intros Hp. unfold run. destruct (Z_le_gt_dec (n a + 1) 1) as [Hle|Hgt].
  - rewrite range_nil by done. exists init.
    replace (Z.max 1 (n a + 1)) with 1 by lia.
    split; [done|]. split; [done|]. split; [cbn; lia|]. split; [cbn; lia|].
    apply init_between_turns.
  - destruct (prompt_range a script (Z.to_nat (n a)) 1 init ltac:(lia)
                (init_between_turns script) ltac:(constructor)) as (c & Hc & Hinv & Hall).
    { intros q Hq. apply Hp. lia. }
    replace (1 + Z.of_nat (Z.to_nat (n a))) with (n a + 1) in * by lia.
    exists c. split; [done|].
    replace (Z.max 1 (n a + 1)) with (n a + 1) by lia.
    pose proof Hinv as (I1 & _ & _ & I4 & I5 & _).
    assert (Hlen : length (csv c) = Z.to_nat (n a)).
    { rewrite <- (length_map r_seq), I1, length_range. lia. }
    split; [|split; [|split]]; [| | |done].
    + rewrite <- I1. clear - Hall. induction Hall as [|r rows Hr _ IH]; [done|].
      cbn. by rewrite Hr, IH.
    + lia.
    + rewrite I5, acked_rows_all, Hlen by done. lia.
Qed.

End PromptFacts.

(** X18. When every probe is handed to the network and its acknowledgment
    is the first datagram received in its own turn, before the deadline,
    the session ends normally with every row ACKED, as many
    acknowledgments counted as probes sent, and, for a positive N, a loss
    ratio of 0.0 in the summary. *)
Theorem udp_prompt_acks_all_acked `{Builtins}
    (a : A3_Client.args) (script : Z → A3_Client.turn) :
  (∀ q, 1 ≤ q ≤ A3_Client.n a → Further.prompt a (script q) q) →
  ∃ c, A3_Client.run a script = A3_Client.Finished c ∧
    map (λ r, (A3_Client.r_seq r, A3_Client.r_outcome r)) (A3_Client.csv c) =
      map (λ s, (s, A3_Client.ACKED)) (range 1 (A3_Client.n a + 1)) ∧
    A3_Client.sent_count c = Z.max 0 (A3_Client.n a) ∧
    A3_Client.ack_count c = A3_Client.sent_count c ∧
    (0 < A3_Client.n a →
     field "loss_ratio" (A3_Client.summary a c) = Some (JFloat 0)).
Proof.
  intros Hp. destruct (prompt_run a script Hp) as (c & Hc & Hrows & Hsent & Hack & _).
  exists c. split_and!; [done|done|done|congruence|].
  intros Hn. unfold A3_Client.summary. cbn.
  rewrite decide_False by lia. do 2 f_equal. apply round_dec_0.
  rewrite b64_of_0; [reflexivity|].
  rewrite Hsent, Hack, Z.sub_diag. apply Qmult_0_l.
Qed.

(** ** The UDP client against a server without a loss model *)

Section LosslessLoopFacts.

Context `{Builtins} `{A3.Random}.
Variables (sa : A3.args) (ca : A3_Client.args) (latency : Q).
Hypothesis drop_k_off : A3.drop_k sa ≤ 0.
Hypothesis loss_prob_off : Qltb 0 (A3.loss_prob sa) = false.
Hypothesis in_time : (latency < A3_Client.timeout ca)%Q.

Import A3_Client Spec Sessions Further.








End LosslessLoopFacts.


(** ** The statistics of the two summaries *)

Section StatsFacts.

Lemma round_dec_mono (d : nat) (x y : Q) : (x <= y)%Q → (round_dec d x <= round_dec d y)%Q.
Proof.
  intros Hxy. unfold round_dec. rewrite !Qred_correct.
  assert (Hp : (0 < 10 ^ Z.of_nat d)) by (apply Z.pow_pos_nonneg; lia).
  assert (Hq : (0 < inject_Z (10 ^ Z.of_nat d))%Q).
  { change 0%Q with (inject_Z 0). by rewrite <- Zlt_Qlt. }
  unfold Qdiv. apply Qmult_le_compat_r; [|by apply Qinv_le_0_compat, Qlt_le_weak].
  rewrite <- Zle_Qle. apply round_half_even_mono.
  apply Qmult_le_compat_r; [done|by apply Qlt_le_weak].
Qed.

Lemma Qmin'_le (x y : Q) : (Qmin' x y <= x)%Q ∧ (Qmin' x y <= y)%Q.
Proof.
  unfold Qmin'. destruct (Qle_bool x y) eqn:E.
  - apply Qle_bool_iff in E. split; [apply Qle_refl|done].
  - assert (Hlt : (y < x)%Q).
    { apply Qnot_le_lt. intros Hle. apply Qle_bool_iff in Hle. congruence. }
    split; [by apply Qlt_le_weak|apply Qle_refl].
Qed.

Lemma Qmax'_ge (x y : Q) : (x <= Qmax' x y)%Q ∧ (y <= Qmax' x y)%Q.
Proof.
  unfold Qmax'. destruct (Qle_bool x y) eqn:E.
  - apply Qle_bool_iff in E. split; [done|apply Qle_refl].
  - assert (Hlt : (y < x)%Q).
    { apply Qnot_le_lt. intros Hle. apply Qle_bool_iff in Hle. congruence. }
    split; [apply Qle_refl|by apply Qlt_le_weak].
Qed.

Lemma fold_min_le (rest : list Q) : ∀ x,
  (fold_left Qmin' rest x <= x)%Q ∧
  List.Forall (λ q, (fold_left Qmin' rest x <= q)%Q) rest.
Proof.
  induction rest as [|y rest IH]; intros x; cbn [fold_left].
  - split; [apply Qle_refl|constructor].
  - destruct (IH (Qmin' x y)) as [H1 H2]. destruct (Qmin'_le x y) as [M1 M2].
    split; [by apply (Qle_trans _ (Qmin' x y))|].
    constructor; [by apply (Qle_trans _ (Qmin' x y))|done].
Qed.

Lemma fold_max_ge (rest : list Q) : ∀ x,
  (x <= fold_left Qmax' rest x)%Q ∧
  List.Forall (λ q, (q <= fold_left Qmax' rest x)%Q) rest.
Proof.
  induction rest as [|y rest IH]; intros x; cbn [fold_left].
  - split; [apply Qle_refl|constructor].
  - destruct (IH (Qmax' x y)) as [H1 H2]. destruct (Qmax'_ge x y) as [M1 M2].
    split; [by apply (Qle_trans _ (Qmax' x y))|].
    constructor; [by apply (Qle_trans _ (Qmax' x y))|done].
Qed.

Lemma min_list_le (l : list Q) : List.Forall (λ q, (min_list l <= q)%Q) l.
Proof.
  destruct l as [|x rest]; [constructor|]. cbn [min_list].
  destruct (fold_min_le rest x). by constructor.
Qed.

Lemma max_list_ge (l : list Q) : List.Forall (λ q, (q <= max_list l)%Q) l.
Proof.
  destruct l as [|x rest]; [constructor|]. cbn [max_list].
  destruct (fold_max_ge rest x). by constructor.
Qed.

Lemma inject_Z_length_cons {A : Type} (x : A) (l : list A) :
  (inject_Z (Z.of_nat (length (x :: l))) == inject_Z (Z.of_nat (length l)) + 1)%Q.
Proof.
  cbn [length]. rewrite Nat2Z.inj_succ, <- Z.add_1_r, inject_Z_plus. reflexivity.
Qed.

Lemma Qsum_lower (m : Q) (l : list Q) :
  List.Forall (λ q, (m <= q)%Q) l → (m * inject_Z (Z.of_nat (length l)) <= Qsum l)%Q.
Proof.
  induction 1 as [|x l Hx _ IH].
  - cbn. rewrite Qmult_0_r. apply Qle_refl.
  - rewrite inject_Z_length_cons, Qmult_plus_distr_r, Qmult_1_r.
    cbn [Qsum fold_right]. fold (Qsum l). lra.
Qed.

Lemma Qsum_upper (m : Q) (l : list Q) :
  List.Forall (λ q, (q <= m)%Q) l → (Qsum l <= m * inject_Z (Z.of_nat (length l)))%Q.
Proof.
  induction 1 as [|x l Hx _ IH].
  - cbn. rewrite Qmult_0_r. apply Qle_refl.
  - rewrite inject_Z_length_cons, Qmult_plus_distr_r, Qmult_1_r.
    cbn [Qsum fold_right]. fold (Qsum l). lra.
Qed.

Lemma Qmin'_or (x y : Q) : Qmin' x y = x ∨ Qmin' x y = y.
Proof. unfold Qmin'. destruct (Qle_bool x y); auto. Qed.

Lemma Qmax'_or (x y : Q) : Qmax' x y = x ∨ Qmax' x y = y.
Proof. unfold Qmax'. destruct (Qle_bool x y); auto. Qed.

Lemma fold_min_in (rest : list Q) : ∀ x, In (fold_left Qmin' rest x) (x :: rest).
Proof.
  induction rest as [|y rest IH]; intros x; cbn [fold_left]; [by left|].
  destruct (IH (Qmin' x y)) as [E|Hin]; [|right; by right].
  rewrite <- E. destruct (Qmin'_or x y) as [-> | ->]; [by left|right; by left].
Qed.

Lemma fold_max_in (rest : list Q) : ∀ x, In (fold_left Qmax' rest x) (x :: rest).
Proof.
  induction rest as [|y rest IH]; intros x; cbn [fold_left]; [by left|].
  destruct (IH (Qmax' x y)) as [E|Hin]; [|right; by right].
  rewrite <- E. destruct (Qmax'_or x y) as [-> | ->]; [by left|right; by left].
Qed.

(** The smallest and the largest of some floats are floats. *)
Lemma min_max_is_b64 (l : list Q) :
  l ≠ [] → List.Forall is_b64 l → is_b64 (min_list l) ∧ is_b64 (max_list l).
Proof.
  intros Hne Hall. rewrite List.Forall_forall in Hall.
  destruct l as [|x rest]; [done|]. cbn [min_list max_list].
  split; apply Hall; [apply fold_min_in|apply fold_max_in].
Qed.

(** A float between two floats stays between them when rounded. *)
Lemma b64_between (lo hi x : Q) :
  is_b64 lo → is_b64 hi → (lo <= x <= hi)%Q → (lo <= b64 x <= hi)%Q.
Proof.
  intros Hlo Hhi [H1 H2]. unfold is_b64 in *.
  pose proof (b64_mono _ _ H1). pose proof (b64_mono _ _ H2). lra.
Qed.

Lemma mean_between (l : list Q) :
  l ≠ [] → List.Forall is_b64 l → (min_list l <= mean l <= max_list l)%Q.
Proof.
  intros Hne Hall. destruct (min_max_is_b64 l Hne Hall) as [Hmin Hmax].
  unfold mean. apply b64_between; [done|done|].
  assert (Hlen : (0 < inject_Z (Z.of_nat (length l)))%Q).
  { change 0%Q with (inject_Z 0). rewrite <- Zlt_Qlt. destruct l; [done|cbn; lia]. }
  split.
  - apply Qle_shift_div_l; [done|]. apply Qsum_lower, min_list_le.
  - apply Qle_shift_div_r; [done|]. apply Qsum_upper, max_list_ge.
Qed.






Lemma Forall_is_b64_map (l : list Q) : List.Forall is_b64 (map b64 l).
Proof.
  induction l as [|x l IH]; cbn; constructor; [apply is_b64_b64|done].
Qed.

End StatsFacts.

(** X20. When at least one RTT was logged, the summary of the UDP client
    gives three numbers under ["rtt_ms"], and the minimum is at most the
    average, which is at most the maximum. Without a logged RTT the three
    are null. (The values are the logged RTT fields read back as floats,
    and the average is their mean as a float.) *)
Theorem udp_summary_statistics_ordered (a : A3_Client.args) (c : A3_Client.client) :
  (A3_Client.logged_rtts (A3_Client.csv c) ≠ [] →
   ∃ av mn mx,
     field "rtt_ms" (A3_Client.summary a c) =
       Some (JObj [("avg", JFloat av); ("min", JFloat mn); ("max", JFloat mx)]%string) ∧
     (mn <= av <= mx)%Q) ∧
  (A3_Client.logged_rtts (A3_Client.csv c) = [] →
   field "rtt_ms" (A3_Client.summary a c) =
     Some (JObj [("avg", JNull); ("min", JNull); ("max", JNull)]%string)).
Proof.
  split.
  - intros Hne. unfold A3_Client.summary.
    destruct (A3_Client.logged_rtts (A3_Client.csv c)) as [|x rest] eqn:E; [done|].
    eexists _, _, _. split; [reflexivity|].
    destruct (mean_between (map b64 (x :: rest)) ltac:(done) (Forall_is_b64_map _)).
    split; by apply round_dec_mono.
  - intros E. unfold A3_Client.summary. by rewrite E.
Qed.


(** ** The whole session of the UDP client: start, loop and sleeps *)

Section SessionFacts.

Context `{Builtins} `{A3.Random}.
Import A3_Client Spec Further.




Lemma accepts_seconds_fits (d : Q) :
  (0 <= d)%Q → (d * 10 ^ 9 <= 2 ^ 63 - 1024)%Q → accepts_seconds d = true.
Proof.
  intros Hpos Hd. unfold accepts_seconds.
  assert (Hfix : (b64 (2 ^ 63 - 1024) == 2 ^ 63 - 1024)%Q) by by vm_compute.
  pose proof (b64_mono _ _ Hd) as Hm. rewrite Hfix in Hm.
  apply Qle_bool_iff in Hpos. rewrite Hpos. cbn [andb].
  destruct (Qle_bool (2 ^ 63) (b64 (d * 10 ^ 9))) eqn:E; [|done].
  apply Qle_bool_iff in E.
  assert (Hlt : (2 ^ 63 - 1024 < 2 ^ 63)%Q) by by vm_compute.
  exfalso. apply (Qlt_irrefl (2 ^ 63)).
  eapply Qle_lt_trans; [exact E|]. eapply Qle_lt_trans; [exact Hm|exact Hlt].
Qed.

Lemma sleeping_no_raise a interval jitter script :
  (∀ g, accepts_seconds (jitter_sleep interval jitter g).1 = true) →
  ∀ seqs c g,
    (main_loop_sleeping a interval jitter seqs script c g).1 = main_loop a seqs script c.
Proof.
  intros Hok. induction seqs as [|seq rest IH]; intros c g; cbn; [done|].
  destruct (turn_step a seq (script seq) c) as [c'|c']; [|done].
  specialize (Hok g). destruct (jitter_sleep interval jitter g) as [d g'].
  cbn in Hok. rewrite Hok. apply IH.
Qed.





End SessionFacts.

(** X22. With a timeout and an interval that are not negative, a jitter
    between 0 and 1 and draws between 0 and 1, and with a timeout and a
    longest sleep, [interval * (1 + jitter)], of at most 9e9 seconds,
    neither [sock.settimeout] before the loop nor any [time.sleep]
    raises: the whole session of the UDP client, with its sleeps, ends as
    its loop does and leaves the same state. *)
Theorem udp_session_runs_the_loop `{Builtins} `{A3.Random}
    (a : A3_Client.args) (interval jitter : Q) (script : Z → A3_Client.turn) :
  (0 <= A3_Client.timeout a <= 9 * 10 ^ 9)%Q →
  (0 <= interval)%Q → (interval * (1 + jitter) <= 9 * 10 ^ 9)%Q →
  (0 <= jitter <= 1)%Q →
  (∀ g, (0 <= (A3.random_random g).1 <= 1)%Q) →
  Further.session a interval jitter script = A3_Client.run a script.
Proof.
  intros [Hto Hto'] Hi Hi' [Hj0 Hj1] Hdraw. unfold Further.session, A3_Client.run.
  assert (Hfits : ∀ d : Q, (0 <= d)%Q → (d <= 9 * 10 ^ 9)%Q → accepts_seconds d = true).
  { intros d Hd0 Hd9. apply accepts_seconds_fits; [done|].
    apply Qle_trans with (9 * 10 ^ 9 * 10 ^ 9)%Q; [|by vm_compute].
    apply Qmult_le_compat_r; [done|by vm_compute]. }
  rewrite (Hfits _ Hto Hto').
  apply sleeping_no_raise. intros g.
  unfold Further.jitter_sleep, Further.uniform. specialize (Hdraw g).
  destruct (A3.random_random g) as [u g']. cbn in *.
  assert (Hlo : (0 <= interval * (jitter * u))%Q).
  { apply Qmult_le_0_compat; [done|]. apply Qmult_le_0_compat; [done|]. lra. }
  assert (Hhi : (0 <= interval * (jitter * (1 - u)))%Q).
  { apply Qmult_le_0_compat; [done|]. apply Qmult_le_0_compat; [done|]. lra. }
  assert (Hpos : (0 <= interval * (1 - jitter))%Q).
  { apply Qmult_le_0_compat; [done|]. lra. }
  assert (E1 : (interval * (1 + (- jitter + (jitter - - jitter) * u))
                == interval * (1 - jitter) + 2 * (interval * (jitter * u)))%Q) by ring.
  assert (E2 : (interval * (1 + jitter)
                == interval * (1 + (- jitter + (jitter - - jitter) * u))
                   + 2 * (interval * (jitter * (1 - u))))%Q) by ring.
  apply Hfits; lra.
Qed.


(** ** Worked sessions *)

Import Sessions.

#[local] Existing Instance decimal_builtins.
#[local] Existing Instance lcg.

(** Closed goals over concrete sessions are settled by evaluation. *)
Ltac by_evaluation :=
  first [ vm_compute; reflexivity
        | vm_compute; discriminate
        | apply (bool_decide_unpack _); vm_compute; exact I ].

Lemma finalize_exactly_once_witness :
  let c := Spec.state (A3_Client.run three_probes reordered) in
  map A3_Client.r_seq (A3_Client.csv c) = [1; 2; 3] ∧
  A3_Client.finalize 2 A3_Client.TIMEOUT c = c ∧
  Spec.record_of 1
    (A3_Client.csv (Spec.state (A3_Client.main_loop three_probes [2; 3] reordered after_one)))
  = Spec.record_of 1 (A3_Client.csv after_one).
Proof.
  destruct (finalize_exactly_once three_probes reordered) as [Hrun Hkeep].
  split_and!.
  - apply Hrun. by_evaluation.
  - apply Hkeep. by_evaluation.
  - apply Hkeep. by_evaluation.
Defined.

(** Scenario C: the acknowledgment of 3 is first seen in the turn of 2; the
    turn of 3 logs it as ACKED with the times stored then. *)
Lemma first_observation_is_used_witness :
  (let c' := (A3_Client.wait_loop false 2 3
                (A3_Client.t_iters (reordered 2)) after_one).1 in
   A3_Client.ack_perf c' !! 3 = Some (101 # 50)%Q ∧
   A3_Client.ack_wall c' !! 3 = Some (50101 # 50)%Q ∧
   3 ∉ A3_Client.finalized c') ∧
  (∃ c', A3_Client.turn_step three_probes 3 (reordered 3) after_two = A3_Client.Finished c' ∧
     A3_Client.csv c' = A3_Client.csv after_two ++
       [A3_Client.Row 3 (Some (round_dec 6 1003)) (Some (round_dec 6 (50101 # 50)))
          (Some (round_dec 3 (((101 # 50) - 3) * 1000))) A3_Client.ACKED] ∧
     A3_Client.ack_count c' = A3_Client.ack_count after_two + 1) ∧
  (let c' := Spec.state (A3_Client.turn_step three_probes 3 (reordered 3) after_two) in
   A3_Client.ack_perf c' !! 3 = Some (101 # 50)%Q ∧
   A3_Client.ack_wall c' !! 3 = A3_Client.ack_wall after_two !! 3).
Proof.
  destruct (first_observation_is_used three_probes) as (Hstore & Huse & Hkeep).
  split_and!.
  - apply (Hstore 2 3 3%Q _ _ (Some (ack 3 1002)) (101 # 50)%Q (50101 # 50)%Q after_one);
      by_evaluation.
  - apply (Huse 3 (reordered 3) after_two (101 # 50)%Q (50101 # 50)%Q); by_evaluation.
  - apply (Hkeep 3 (reordered 3) after_two 3 (101 # 50)%Q). by_evaluation.
Defined.



(** Scenario A. *)
Lemma drop_k_drops_multiples_witness :
  (A3.acks_sent (drop (length (A3.effects (A3.startup drop_every_third)))
     (A3.effects (A3.serve drop_every_third (datagram_of (1 # 100) 6)
                    (A3.startup drop_every_third)))) = [] ∧
   A3.decisions (A3.serve drop_every_third (datagram_of (1 # 100) 6)
                   (A3.startup drop_every_third)) = [A3.DroppedK 6]) ∧
  (∃ c, A3_Client.run ten_probes (closed_loop drop_every_third (1 # 100))
          = A3_Client.Finished c ∧
     map (λ r, (A3_Client.r_seq r, A3_Client.r_outcome r)) (A3_Client.csv c) =
       [(1, A3_Client.ACKED); (2, A3_Client.ACKED); (3, A3_Client.TIMEOUT);
        (4, A3_Client.ACKED); (5, A3_Client.ACKED); (6, A3_Client.TIMEOUT);
        (7, A3_Client.ACKED); (8, A3_Client.ACKED); (9, A3_Client.TIMEOUT);
        (10, A3_Client.ACKED)] ∧
     A3.dropped (A3.decisions
       (A3.serve_all drop_every_third (map (datagram_of (1 # 100)) (range 1 11))
          (A3.startup drop_every_third))) = [3; 6; 9]) ∧
  (∃ c, A3_Client.run three_probes (closed_loop drop_every_third (1 # 2))
          = A3_Client.Finished c ∧
     map (λ r, (A3_Client.r_seq r, A3_Client.r_outcome r)) (A3_Client.csv c) =
       map (λ s, (s, if s mod 3 =? 0 then A3_Client.TIMEOUT else A3_Client.ACKED))
           (range 1 4)).
Proof.
  destruct (drop_k_drops_multiples drop_every_third) as (Hserver & Hgeneral & Hscenario);
    [by_evaluation|by_evaluation|].
  split; [|split].
  - apply (Hserver (datagram_of (1 # 100) 6) (A3.startup drop_every_third) 6).
    by_evaluation.
  - apply (Hscenario ten_probes (1 # 100)%Q); by_evaluation.
  - destruct (Hgeneral three_probes (1 # 2)%Q) as (c & Hc & Hrows & _); [by_evaluation|].
    exists c. split; [exact Hc|exact Hrows].
Defined.

Lemma loss_model_conflict_fails_fast_witness :
  A3.main both_models traffic_a = [A3.EStderr A3.conflict_message; A3.EExit 1].
Proof.
  apply (loss_model_conflict_fails_fast both_models traffic_a); by_evaluation.
Defined.

Lemma drops_are_reproducible_witness :
  A3.dropped (A3.decisions (A3.serve_all bernoulli_a traffic_a (A3.startup bernoulli_a))) =
  A3.dropped (A3.decisions (A3.serve_all bernoulli_b traffic_b (A3.startup bernoulli_b))).
Proof.
  apply (drops_are_reproducible bernoulli_a bernoulli_b traffic_a traffic_b); by_evaluation.
Defined.



Lemma summaries_report_witness :
  (let c := Spec.state (A3_Client.run three_probes reordered) in
   field "sent" (A3_Client.summary three_probes c) = Some (JInt 3) ∧
   field "acked" (A3_Client.summary three_probes c) = Some (JInt 3) ∧
   field "loss_ratio" (A3_Client.summary three_probes c) = Some (JFloat 0)) ∧
  (let c := Spec.state (A3_Client.run Scenarios.forty_probes
                          (closed_loop Scenarios.drop_fortieth (1 # 100))) in
   A3_Client.sent_count c = 40 ∧ A3_Client.ack_count c = 39 ∧
   field "loss_ratio" (A3_Client.summary Scenarios.forty_probes c) =
     Some (JFloat (3 # 100))) ∧
  (let c := Spec.state (A3_Client.run (A3_Client.Args 2 1 7 false)
                          Scenarios.two_close_rtts) in
   A3_Client.logged_rtts (A3_Client.csv c) = [20%Q; (20001 # 1000)%Q] ∧
   ∃ mn mx,
     field "rtt_ms" (A3_Client.summary (A3_Client.Args 2 1 7 false) c) =
       Some (JObj [("avg", JFloat (20001 # 1000)); ("min", mn); ("max", mx)]%string)) ∧
  field "loss_ratio"
    (A3_TCP_Client.summary (A3_TCP_Client.Args 3 false) tcp_clock
       (A3_TCP_Client.run (A3_TCP_Client.Args 3 false) reset_at_two)) = None.
Proof.
  destruct summaries_report as (Hudp & Hloss40 & Havg & Htcp).
  split; [|split; [|split]].
  - destruct (Hudp three_probes reordered
                (Spec.state (A3_Client.run three_probes reordered)))
      as (Hsent & Hacked & Hloss & _); [by_evaluation|by_evaluation|].
    split; [|split].
    + exact Hsent.
    + rewrite Hacked. by_evaluation.
    + rewrite Hloss. by_evaluation.
  - cbn zeta. split; [by_evaluation|]. split; [by_evaluation|].
    apply Hloss40; by_evaluation.
  - cbn zeta. split; [by_evaluation|]. apply Havg. by_evaluation.
  - apply (Htcp (A3_TCP_Client.Args 3 false) tcp_clock reset_at_two).
Defined.

(** The claim of C8 fails on the TCP client: its summary has the keys
    [sent], [acked], [rtt_ms], [handshake_ms] and [session_duration_ms],
    and no [loss_ratio]. *)
Lemma tcp_summary_without_loss_ratio :
  (A3_TCP_Client.main (A3_TCP_Client.Args 2 false) tcp_clock no_server_ts).2 =
    JObj [("sent", JInt 2); ("acked", JInt 2);
          ("rtt_ms", JObj [("avg", JFloat 1500); ("min", JFloat 1500);
                           ("max", JFloat 1500); ("median", JFloat 1500)]);
          ("handshake_ms", JFloat 10); ("session_duration_ms", JFloat 4980)]%string ∧
  field "loss_ratio"
    (A3_TCP_Client.main (A3_TCP_Client.Args 2 false) tcp_clock no_server_ts).2 = None.
Proof. split; by_evaluation. Defined.

Lemma tcp_error_ends_session_witness :
  let c := (A3_TCP_Client.main (A3_TCP_Client.Args 3 false) tcp_clock reset_at_two).1 in
  let s := (A3_TCP_Client.main (A3_TCP_Client.Args 3 false) tcp_clock reset_at_two).2 in
  A3_TCP_Client.sendall_calls c = [1; 2] ∧
  map A3_TCP_Client.r_seq (A3_TCP_Client.results c) = [1] ∧
  (∀ r, In r (A3_TCP_Client.results c) → A3_TCP_Client.r_seq r < 2) ∧
  field "sent" s = Some (JInt 3).
Proof.
  apply (tcp_error_ends_session (A3_TCP_Client.Args 3 false) tcp_clock reset_at_two 2).
  - cbn. lia.
  - intros q Hq. assert (q = 1) as -> by lia. by_evaluation.
  - by_evaluation.
Defined.

Lemma tcp_reply_without_server_ts_witness :
  let rtt_ms := (((23 # 2) - 10) * 1000)%Q in
  let r := A3_TCP_Client.Row 1 10 (Some (JFloat (23 # 2))) (Some rtt_ms) in
  A3_TCP_Client.loop false [1; 2] no_server_ts A3_TCP_Client.init =
    A3_TCP_Client.loop false [2] no_server_ts
      (A3_TCP_Client.Client [r] [rtt_ms] [1] []) ∧
  In r (A3_TCP_Client.results
          (A3_TCP_Client.loop false [1; 2] no_server_ts A3_TCP_Client.init)) ∧
  In rtt_ms (A3_TCP_Client.rtts
          (A3_TCP_Client.loop false [1; 2] no_server_ts A3_TCP_Client.init)).
Proof.
  apply (tcp_reply_without_server_ts false 1 [2] no_server_ts A3_TCP_Client.init
           [("seq", JInt 1)]%string (23 # 2)%Q); by_evaluation.
Defined.

(** The claim of C10 fails in the size of the recorded RTT: the reply is
    read a second and a half after the probe was sent, within the receive
    timeout of two seconds, and the RTT that enters the rows and the
    statistics is 1500 ms. A reply that is JSON but not an object, which
    lacks the key as well, ends the loop instead. *)
Lemma tcp_substituted_rtt_is_elapsed_time :
  A3_TCP_Client.results (A3_TCP_Client.run (A3_TCP_Client.Args 1 false) no_server_ts) =
    [A3_TCP_Client.Row 1 10 (Some (JFloat (23 # 2))) (Some (((23 # 2) - 10) * 1000)%Q)] ∧
  ((((23 # 2) - 10) * 1000) == 1500)%Q ∧
  field "rtt_ms"
    (A3_TCP_Client.main (A3_TCP_Client.Args 1 false) tcp_clock no_server_ts).2 =
    Some (JObj [("avg", JFloat 1500); ("min", JFloat 1500);
                ("max", JFloat 1500); ("median", JFloat 1500)]%string) ∧
  A3_TCP_Client.try_probe
    (A3_TCP_Client.Turn 10 (A3_TCP_Client.RecvData (Some (JArr [])) (23 # 2))) =
    A3_TCP_Client.Raised.
Proof. split_and!; by_evaluation. Defined.

(** ** Further worked sessions *)

Import Scenarios.

Lemma udp_counts_bounded_witness :
  let c := Spec.state (A3_Client.run three_probes reordered) in
  A3_Client.sent_count c = 3 ∧
  Z.of_nat (length (A3_Client.csv c)) = 3 ∧
  0 ≤ A3_Client.ack_count c ≤ A3_Client.sent_count c ∧
  ∃ v, field "loss_ratio" (A3_Client.summary three_probes c) = Some v ∧
       (v = JInt 0 ∨ ∃ q, v = JFloat q ∧ (0 <= q <= 1)%Q).
Proof.
  apply (udp_counts_bounded three_probes reordered); by_evaluation.
Defined.

(** The row of the third probe of the reordered session. *)
Lemma udp_rows_well_formed_witness :
  let r := A3_Client.Row 3 (Some 1003%Q) (Some (50101 # 50)%Q) (Some (-980)%Q)
             A3_Client.ACKED in
  1 ≤ A3_Client.r_seq r ≤ 3 ∧
  A3_Client.r_send_ts r =
    Some (round_dec 6 (A3_Client.t_send_wall (reordered (A3_Client.r_seq r)))) ∧
  is_Some (A3_Client.r_ack_ts r) ∧ is_Some (A3_Client.r_rtt_ms r).
Proof.
  apply (udp_rows_well_formed three_probes reordered
           (Spec.state (A3_Client.run three_probes reordered))
           (A3_Client.Row 3 (Some 1003%Q) (Some (50101 # 50)%Q) (Some (-980)%Q)
              A3_Client.ACKED)).
  - by_evaluation.
  - vm_compute. right. right. left. reflexivity.
Defined.

Lemma udp_probes_on_the_wire_witness :
  ∃ c, A3_Client.run three_probes reordered = A3_Client.Finished c ∧
    A3_Client.datagrams c =
      map (λ s, JObj [("seq", JInt s);
                      ("send_ts", JFloat (A3_Client.t_send_wall (reordered s)));
                      ("msg", JStr ("Hello " +:+ pretty s))]%string)
          (range 1 (3 + 1)) ∧
    omap (λ j, A3.probe_seq (Some j)) (A3_Client.datagrams c) = range 1 (3 + 1).
Proof.
  apply (udp_probes_on_the_wire three_probes reordered).
  intros s Hs. unfold reordered. destruct (s =? 1); [reflexivity|].
  destruct (s =? 2); reflexivity.
Defined.

Lemma udp_send_failure_ends_run_witness :
  ∃ c, A3_Client.run three_probes unreachable_at_two = A3_Client.Crashed c ∧
    A3_Client.main three_probes unreachable_at_two = A3_Client.Crashed (c, JNull) ∧
    map A3_Client.r_seq (A3_Client.csv c) = range 1 2 ∧
    A3_Client.sent_count c = 2 - 1 ∧
    A3_Client.datagrams c = map (Further.probe_of unreachable_at_two) (range 1 2) ∧
    2 ∈ A3_Client.seen_seqs c ∧ (2 ∉ A3_Client.finalized c) ∧
    A3_Client.send_perf c !! 2 = Some (A3_Client.t_send_perf (unreachable_at_two 2)).
Proof.
  apply (udp_send_failure_ends_run three_probes unreachable_at_two 2).
  - vm_compute. split; discriminate.
  - intros s Hs. assert (s = 1) as -> by lia. reflexivity.
  - reflexivity.
Defined.

Lemma udp_verbose_changes_prints_only_witness :
  match A3_Client.main three_probes reordered,
        A3_Client.main three_probes_verbose reordered with
  | A3_Client.Finished (c1, s1), A3_Client.Finished (c2, s2) =>
      Further.same_but_stdout c1 c2 ∧ s1 = s2
  | A3_Client.Crashed (c1, s1), A3_Client.Crashed (c2, s2) =>
      Further.same_but_stdout c1 c2 ∧ s1 = s2
  | _, _ => False
  end.
Proof.
  apply (udp_verbose_changes_prints_only three_probes three_probes_verbose reordered);
    reflexivity.
Defined.

Lemma udp_no_timeout_budget_witness :
  ∃ c, A3_Client.run no_budget reordered = A3_Client.Finished c ∧
    map (λ r, (A3_Client.r_seq r, A3_Client.r_outcome r)) (A3_Client.csv c) =
      map (λ s, (s, A3_Client.TIMEOUT)) (range 1 (3 + 1)) ∧
    A3_Client.ack_count c = 0 ∧ A3_Client.ack_perf c = ∅ ∧
    A3_Client.logged_rtts (A3_Client.csv c) = [].
Proof.
  apply (udp_no_timeout_budget no_budget reordered).
  - reflexivity.
  - intros s it rest. unfold reordered.
    destruct (s =? 1); [|destruct (s =? 2)]; cbn; intros [= <- _]; cbn; lra.
  - intros s Hs. unfold reordered. destruct (s =? 1); [reflexivity|].
    destruct (s =? 2); reflexivity.
Defined.

Lemma server_counts_every_datagram_witness :
  (A3.recv_count (A3.serve_all bernoulli_a traffic_a (A3.startup bernoulli_a)) = 0 + 5 ∧
   length (A3.decisions (A3.serve_all bernoulli_a traffic_a (A3.startup bernoulli_a))) =
     (0 + 5)%nat) ∧
  ∃ body,
    A3.main bernoulli_a traffic_a =
      [A3.ESocket; A3.ESetsockopt; A3.EBind "0.0.0.0" 50995] ++ body ++
      [A3.EStdout (A3.PSummary 5 (A3.model_of bernoulli_a) 0 (1 # 2) 7); A3.EExit 0].
Proof.
  destruct (server_counts_every_datagram bernoulli_a traffic_a) as [Hcount Hmain].
  split.
  - apply (Hcount (A3.startup bernoulli_a)).
  - apply Hmain. reflexivity.
Defined.

Lemma server_without_loss_model_witness :
  let s := A3.serve_all no_loss traffic_a (A3.startup no_loss) in
  Further.sends (A3.effects s) =
    Further.sends (A3.effects (A3.startup no_loss)) ++ omap Further.answer_of traffic_a ∧
  A3.gen s = A3.gen (A3.startup no_loss) ∧
  A3.dropped (A3.decisions s) = A3.dropped (A3.decisions (A3.startup no_loss)).
Proof.
  apply (server_without_loss_model no_loss traffic_a (A3.startup no_loss)).
  - vm_compute. discriminate.
  - vm_compute. discriminate.
Defined.

(** The generator of the worked sessions draws from 0 up to, but not
    including, 1. *)
Lemma lcg_draws (g : A3.rng) :
  (0 <= (A3.random_random g).1)%Q ∧ ((A3.random_random g).1 < 1)%Q.
Proof.
  cbn. rewrite Qred_correct.
  assert (Hmod : 0 ≤ (g * 1103515245 + 12345) mod 2147483648 < 2147483648)
    by (apply Z.mod_pos_bound; lia).
  split.
  - apply Qle_shift_div_l; [reflexivity|]. rewrite Qmult_0_l.
    change 0%Q with (inject_Z 0). rewrite <- Zle_Qle. lia.
  - apply Qlt_shift_div_r; [reflexivity|]. rewrite Qmult_1_l.
    change (2147483648%Q) with (inject_Z 2147483648). rewrite <- Zlt_Qlt. lia.
Qed.

Lemma server_certain_loss_witness :
  let s := A3.serve_all always_lose traffic_a (A3.startup always_lose) in
  Further.sends (A3.effects s) = Further.sends (A3.effects (A3.startup always_lose)) ∧
  A3.dropped (A3.decisions s) =
    A3.dropped (A3.decisions (A3.startup always_lose)) ++ Spec.arrivals traffic_a.
Proof.
  apply (server_certain_loss always_lose traffic_a (A3.startup always_lose)).
  - vm_compute. discriminate.
  - vm_compute. discriminate.
  - intros g. apply lcg_draws.
Defined.

Lemma server_generator_use_witness :
  A3.gen (A3.serve_all bernoulli_a traffic_a (A3.startup bernoulli_a)) =
    Nat.iter (length (Spec.arrivals traffic_a)) Further.next
      (A3.gen (A3.startup bernoulli_a)) ∧
  A3.gen (A3.serve_all no_loss traffic_a (A3.startup no_loss)) =
    A3.gen (A3.startup no_loss).
Proof.
  split.
  - apply (server_generator_use bernoulli_a traffic_a (A3.startup bernoulli_a)).
    + vm_compute. discriminate.
    + reflexivity.
  - apply (server_generator_use no_loss traffic_a (A3.startup no_loss)).
    vm_compute. discriminate.
Defined.

Lemma server_verbose_changes_prints_only_witness :
  let s1 := A3.serve_all bernoulli_a traffic_a (A3.startup bernoulli_a) in
  let s2 := A3.serve_all bernoulli_b traffic_a (A3.startup bernoulli_b) in
  A3.recv_count s1 = A3.recv_count s2 ∧ A3.gen s1 = A3.gen s2 ∧
  A3.decisions s1 = A3.decisions s2 ∧
  Further.sends (A3.effects s1) = Further.sends (A3.effects s2).
Proof.
  apply (server_verbose_changes_prints_only bernoulli_a bernoulli_b traffic_a);
    reflexivity.
Defined.




Lemma udp_prompt_acks_all_acked_witness :
  ∃ c, A3_Client.run three_probes answered_at_once = A3_Client.Finished c ∧
    map (λ r, (A3_Client.r_seq r, A3_Client.r_outcome r)) (A3_Client.csv c) =
      map (λ s, (s, A3_Client.ACKED)) (range 1 (3 + 1)) ∧
    A3_Client.sent_count c = Z.max 0 3 ∧
    A3_Client.ack_count c = A3_Client.sent_count c ∧
    (0 < 3 → field "loss_ratio" (A3_Client.summary three_probes c) = Some (JFloat 0)).
Proof.
  apply (udp_prompt_acks_all_acked three_probes answered_at_once).
  intros q Hq. cbn in Hq. assert (q = 1 ∨ q = 2 ∨ q = 3) as [-> | [-> | ->]] by lia.
  - split; [reflexivity|]. eexists _, _, _, _, _. split; [reflexivity|].
    split; [reflexivity|]. split; reflexivity.
  - split; [reflexivity|]. eexists _, _, _, _, _. split; [reflexivity|].
    split; [reflexivity|]. split; reflexivity.
  - split; [reflexivity|]. eexists _, _, _, _, _. split; [reflexivity|].
    split; [reflexivity|]. split; reflexivity.
Defined.


Lemma udp_summary_statistics_ordered_witness :
  (∃ av mn mx,
     field "rtt_ms"
       (A3_Client.summary three_probes (Spec.state (A3_Client.run three_probes reordered))) =
       Some (JObj [("avg", JFloat av); ("min", JFloat mn); ("max", JFloat mx)]%string) ∧
     (mn <= av <= mx)%Q) ∧
  field "rtt_ms" (A3_Client.summary three_probes A3_Client.init) =
    Some (JObj [("avg", JNull); ("min", JNull); ("max", JNull)]%string).
Proof.
  split.
  - apply (udp_summary_statistics_ordered three_probes
             (Spec.state (A3_Client.run three_probes reordered))).
    vm_compute. discriminate.
  - apply (udp_summary_statistics_ordered three_probes A3_Client.init). reflexivity.
Defined.


(** The default interval and jitter: the session of the reordered run is
    its loop. *)
Lemma udp_session_runs_the_loop_witness :
  Further.session three_probes (1 # 10) (1 # 10) reordered =
    A3_Client.run three_probes reordered.
Proof.
  apply (udp_session_runs_the_loop three_probes (1 # 10) (1 # 10) reordered).
  - split; vm_compute; discriminate.
  - vm_compute. discriminate.
  - vm_compute. discriminate.
  - split; vm_compute; discriminate.
  - intros g. destruct (lcg_draws g) as [Hlo Hhi]. split; [exact Hlo|].
    apply Qlt_le_weak, Hhi.
Defined.

